(** * Elfsight to Housecall Pro lead webhook: identity resolution and lead
      orchestration

    A shallow embedding of [utils.py], [customer_matcher.py] and
    [lead_creator.py], with the theorems that settle the specification's
    claims about them.

    Conventions of the embedding.
    - Python [str] is [string]; characters are bytes and the case and
      whitespace operations are the ASCII ones.
    - Python [float] is [Q]: arithmetic is exact, rounding is not modelled.
    - A [Dict[str, Optional[str]]] is a [gmap string (option string)]: a key
      may be missing ([None] from the lookup), hold [None] ([Some None]) or a
      string.
    - An exception is [Raise msg], [msg] being what [str(e)] gives. *)

From Stdlib Require Import QArith Lqa Ascii String List Lia Bool DecimalString.
From stdpp Require Import base option list gmap strings fin_maps.

Local Open Scope string_scope.
Local Open Scope list_scope.

(** ** Text helpers: [str.lower], [str.strip], [str.split], [re.sub] *)

Module Text.

Definition is_upper (c : ascii) : bool :=
  let n := nat_of_ascii c in (65 <=? n)%nat && (n <=? 90)%nat.

Definition lower_char (c : ascii) : ascii :=
  if is_upper c then ascii_of_nat (nat_of_ascii c + 32) else c.

(** [s.lower()] *)
Fixpoint lower (s : string) : string :=
  match s with
  | EmptyString => EmptyString
  | String c s' => String (lower_char c) (lower s')
  end.

(** [c.isspace()]: tab, line feed, vertical tab, form feed, carriage return,
    the four separators 0x1c..0x1f, and the space. *)
Definition is_space (c : ascii) : bool :=
  let n := nat_of_ascii c in
  ((9 <=? n)%nat && (n <=? 13)%nat) || ((28 <=? n)%nat && (n <=? 32)%nat).

(** [s.lstrip()] *)
Fixpoint lstrip (s : string) : string :=
  match s with
  | EmptyString => EmptyString
  | String c s' => if is_space c then lstrip s' else s
  end.

(** [s.rstrip()]: a character is dropped when it is a space and all that
    follows it was dropped. *)
Fixpoint rstrip (s : string) : string :=
  match s with
  | EmptyString => EmptyString
  | String c s' =>
      match rstrip s' with
      | EmptyString => if is_space c then EmptyString else String c EmptyString
      | r => String c r
      end
  end.

(** [s.strip()] *)
Definition strip (s : string) : string := rstrip (lstrip s).

Definition is_digit (c : ascii) : bool :=
  let n := nat_of_ascii c in (48 <=? n)%nat && (n <=? 57)%nat.

(** [re.sub(r'\D', '', s)] *)
Fixpoint only_digits (s : string) : string :=
  match s with
  | EmptyString => EmptyString
  | String c s' => if is_digit c then String c (only_digits s') else only_digits s'
  end.

(** [s[-n:]] for [n > 0] *)
Definition last_n (n : nat) (s : string) : string :=
  substring (String.length s - n) n s.

(** [s.startswith(p)] is [String.prefix p s]. *)

(** [s.split()]: the maximal runs of non-space characters. [cur] is the run
    being read, reversed. *)
Fixpoint split_ws_aux (s : string) (cur : list ascii) : list string :=
  match s with
  | EmptyString =>
      match cur with
      | [] => []
      | _ => [string_of_list_ascii (rev cur)]
      end
  | String c s' =>
      if is_space c then
        match cur with
        | [] => split_ws_aux s' []
        | _ => string_of_list_ascii (rev cur) :: split_ws_aux s' []
        end
      else split_ws_aux s' (c :: cur)
  end.

Definition split_ws (s : string) : list string := split_ws_aux s [].

(** [sep.join(parts)] *)
Fixpoint join (sep : string) (parts : list string) : string :=
  match parts with
  | [] => ""
  | [p] => p
  | p :: ps => p +:+ sep +:+ join sep ps
  end.

(** [needle in s] *)
Fixpoint contains (needle s : string) : bool :=
  String.prefix needle s ||
  match s with
  | EmptyString => false
  | String _ s' => contains needle s'
  end.

(** [str(n)] for a non-negative integer *)
Definition of_nat (n : nat) : string := NilEmpty.string_of_uint (Nat.to_uint n).

End Text.

(** ** Python truthiness of the values the code tests *)

(** [bool(x)] for [x : Optional[str]] *)
Definition truthy (o : option string) : bool :=
  match o with
  | Some s => negb (String.eqb s "")
  | None => false
  end.

(** [bool(s)] for a string *)
Definition nonempty (s : string) : bool := negb (String.eqb s "").

(** [x or ""] for [x : Optional[str]] *)
Definition or_empty (o : option string) : string := default "" o.

(** [d.get(k)] on a dictionary of optional strings: [None] when the key is
    missing or holds [None]. *)
Definition dict_get (d : gmap string (option string)) (k : string) : option string :=
  default None (d !! k).

(** [bool(d)] for a dictionary: it has a key. *)
Definition dict_truthy {V} (d : gmap string V) : bool :=
  negb (bool_decide (map_to_list d = [])).

(** [any(d.values())] *)
Definition any_values (d : gmap string (option string)) : bool :=
  existsb truthy (map_to_list d).*2.

(** ** [difflib.SequenceMatcher(None, a, b).ratio()]

    The Python standard library's matcher, as CPython implements it, on the
    two character sequences. With [isjunk=None] no element is junk, so the
    two junk-extension loops of [find_longest_match] never iterate and are
    left out; [autojunk] is on and drops the popular elements of a [b] of 200
    characters or more from the index [b2j]. *)

Module Difflib.

Record Match := mkMatch { m_a : nat; m_b : nat; m_size : nat }.

Section Matcher.

Variables a b : list ascii.

(** Positions of [c] in [l], ascending, the head of [l] being position [j]. *)
Fixpoint positions (c : ascii) (l : list ascii) (j : nat) : list nat :=
  match l with
  | [] => []
  | x :: l' =>
      if Ascii.eqb x c then j :: positions c l' (S j) else positions c l' (S j)
  end.

(** [__chain_b]: with [n >= 200], an element found more than [n // 100 + 1]
    times is popular. *)
Definition popular (c : ascii) : bool :=
  let n := length b in
  (200 <=? n)%nat && (n / 100 + 1 <? length (positions c b 0))%nat.

(** [b2j.get(c, [])] *)
Definition b2j (c : ascii) : list nat :=
  if popular c then [] else positions c b 0.

(** [j2len.get(j-1, 0)] *)
Definition prev_len (j2len : gmap nat nat) (j : nat) : nat :=
  match j with
  | O => 0
  | S j' => default 0 (j2len !! j')
  end.

(** The inner loop of [find_longest_match] over the positions [js] of
    [a[i]] in [b]: [continue] below [blo], [break] from [bhi] on. *)
Fixpoint scan_row (js : list nat) (i blo bhi : nat)
    (j2len newj2len : gmap nat nat) (best : Match) : gmap nat nat * Match :=
  match js with
  | [] => (newj2len, best)
  | j :: js' =>
      if (j <? blo)%nat then scan_row js' i blo bhi j2len newj2len best
      else if (bhi <=? j)%nat then (newj2len, best)
      else
        let k := prev_len j2len j + 1 in
        let best' :=
          if (m_size best <? k)%nat then mkMatch (i + 1 - k) (j + 1 - k) k
          else best in
        scan_row js' i blo bhi j2len (<[j := k]> newj2len) best'
  end.

(** The outer loop, [for i in range(alo, ahi)]. *)
Fixpoint scan_rows (rows : list nat) (blo bhi : nat)
    (j2len : gmap nat nat) (best : Match) : Match :=
  match rows with
  | [] => best
  | i :: rows' =>
      let js := match a !! i with Some c => b2j c | None => [] end in
      let '(newj2len, best') := scan_row js i blo bhi j2len ∅ best in
      scan_rows rows' blo bhi newj2len best'
  end.

(** [a[i] == b[j]] *)
Definition same (i j : nat) : bool :=
  match a !! i, b !! j with
  | Some x, Some y => Ascii.eqb x y
  | _, _ => false
  end.

(** [while besti > alo and bestj > blo and a[besti-1] == b[bestj-1]]; the
    loop runs at most [besti] times, which [n] counts down. *)
Fixpoint extend_left (n alo blo : nat) (m : Match) : Match :=
  match n with
  | O => m
  | S n' =>
      if (alo <? m_a m)%nat && (blo <? m_b m)%nat && same (m_a m - 1) (m_b m - 1)
      then extend_left n' alo blo (mkMatch (m_a m - 1) (m_b m - 1) (m_size m + 1))
      else m
  end.

(** [while besti+bestsize < ahi and bestj+bestsize < bhi and
    a[besti+bestsize] == b[bestj+bestsize]]; at most [ahi - (besti+bestsize)]
    times. *)
Fixpoint extend_right (n ahi bhi : nat) (m : Match) : Match :=
  match n with
  | O => m
  | S n' =>
      if (m_a m + m_size m <? ahi)%nat && (m_b m + m_size m <? bhi)%nat
         && same (m_a m + m_size m) (m_b m + m_size m)
      then extend_right n' ahi bhi (mkMatch (m_a m) (m_b m) (m_size m + 1))
      else m
  end.

Definition find_longest_match (alo ahi blo bhi : nat) : Match :=
  let m0 := scan_rows (seq alo (ahi - alo)) blo bhi ∅ (mkMatch alo blo 0) in
  let m1 := extend_left (m_a m0) alo blo m0 in
  extend_right (ahi - (m_a m1 + m_size m1)) ahi bhi m1.

(** The sum of the sizes of [get_matching_blocks()]: the longest match of
    the window, then the blocks to its left and to its right. Sorting the
    blocks and merging adjacent ones leaves the sum as it is. The windows
    shrink, and [fuel] above the length of [a] is never used up. *)
Fixpoint matched (fuel alo ahi blo bhi : nat) : nat :=
  match fuel with
  | O => 0
  | S fuel' =>
      let m := find_longest_match alo ahi blo bhi in
      let i := m_a m in
      let j := m_b m in
      let k := m_size m in
      if (k =? 0)%nat then 0
      else
        k
        + (if (alo <? i)%nat && (blo <? j)%nat then matched fuel' alo i blo j else 0)
        + (if (i + k <? ahi)%nat && (j + k <? bhi)%nat
           then matched fuel' (i + k) ahi (j + k) bhi else 0)
  end.

Definition matches : nat := matched (S (length a)) 0 (length a) 0 (length b).

End Matcher.

(** [_calculate_ratio(matches, len(a) + len(b))]: [2.0 * matches / length],
    and [1.0] for two empty sequences. *)
Definition ratio (x y : string) : Q :=
  let a := list_ascii_of_string x in
  let b := list_ascii_of_string y in
  let len := (length a + length b)%nat in
  if (len =? 0)%nat then 1
  else Z.of_nat (2 * matches a b) # Pos.of_nat len.

End Difflib.

(** ** [utils.py] *)

(** The regular expressions of [parse_address], as the [re] module evaluates
    them: each field gives, for a subject string, the groups of the match (and
    where it starts, for the two searches), or [None] when nothing matches.
    - [match_pattern1]: [^(.+?),\s*(.+?),\s*([A-Z]{2})\s+(\d{5}(?:-\d{4})?)$]
    - [match_pattern2]: [^(.+?),\s*(.+?)\s+([A-Z]{2})\s+(\d{5}(?:-\d{4})?)$]
    - [search_zip]: [\b(\d{5}(?:-\d{4})?)\b], group 1 and [start()]
    - [search_state]: [\b([A-Z]{2})\s*$], group 1 and [start()] *)
Record Regex := {
  match_pattern1 : string -> option (string * string * string * string);
  match_pattern2 : string -> option (string * string * string * string);
  search_zip : string -> option (string * nat);
  search_state : string -> option (string * nat)
}.

Module Utils.

(** [normalize_phone(phone, default_area_code)], with the warnings it logs. *)
Definition normalize_phone (phone default_area_code : string)
    : option string * list string :=
  if negb (nonempty phone) then (None, [])
  else
    let digits := Text.only_digits phone in
    let n := String.length digits in
    if (n =? 10)%nat then (Some ("+1" +:+ digits), [])
    else if (n =? 11)%nat && String.prefix "1" digits then (Some ("+" +:+ digits), [])
    else if (n =? 7)%nat then (Some ("+1" +:+ default_area_code +:+ digits), [])
    else if (11 <? n)%nat then
      let last_10 := Text.last_n 10 digits in
      (Some ("+1" +:+ last_10),
       ["Phone number too long (" +:+ Text.of_nat n +:+ " digits), using last 10: "
        +:+ last_10])
    else
      (None,
       ["Invalid phone number format: " +:+ phone +:+ " (" +:+ Text.of_nat n
        +:+ " digits)"]).

(** [parse_name(full_name)] *)
Definition parse_name (full_name : string) : string * string :=
  if negb (nonempty full_name) then ("", "")
  else
    let parts := Text.split_ws (Text.strip full_name) in
    match parts with
    | [] => ("", "")
    | [p] => (p, "")
    | [p; q] => (p, q)
    | _ => (Text.join " " (removelast parts), List.last parts "")
    end.

(** [s.split(',')] *)
Fixpoint split_comma_aux (s : string) (cur : list ascii) : list string :=
  match s with
  | EmptyString => [string_of_list_ascii (rev cur)]
  | String c s' =>
      if Ascii.eqb c "," then string_of_list_ascii (rev cur) :: split_comma_aux s' []
      else split_comma_aux s' (c :: cur)
  end.

Definition split_comma (s : string) : list string := split_comma_aux s [].

(** The dictionary [parse_address] starts from: the four keys, all [None]. *)
Definition empty_address : gmap string (option string) :=
  <["zip" := None]> (<["state" := None]> (<["city" := None]> (<["street" := None]> ∅))).

(** [parse_address(address_string)] *)
Definition parse_address (re : Regex) (address_string : string)
    : gmap string (option string) :=
  let result := empty_address in
  if negb (nonempty address_string) then result
  else
    let address_string := Text.strip address_string in
    let of_groups (g : string * string * string * string) :=
      let '(g1, g2, g3, g4) := g in
      <["zip" := Some (Text.strip g4)]>
        (<["state" := Some (Text.strip g3)]>
           (<["city" := Some (Text.strip g2)]>
              (<["street" := Some (Text.strip g1)]> result))) in
    match match_pattern1 re address_string with
    | Some g => of_groups g
    | None =>
    match match_pattern2 re address_string with
    | Some g => of_groups g
    | None =>
      let result :=
        match search_zip re address_string with
        | Some (zip, zstart) =>
            let result := <["zip" := Some zip]> result in
            let before_zip := Text.strip (substring 0 zstart address_string) in
            match search_state re before_zip with
            | Some (state, sstart) =>
                let result := <["state" := Some state]> result in
                let before_state := Text.strip (substring 0 sstart before_zip) in
                let parts := map Text.strip (split_comma before_state) in
                match parts with
                | p0 :: p1 :: _ =>
                    <["city" := Some p1]> (<["street" := Some p0]> result)
                | [p0] => <["street" := Some p0]> result
                | [] => result
                end
            | None => result
            end
        | None => result
        end in
      if negb (any_values result) then <["street" := Some address_string]> result
      else result
    end
    end.

(** [(addr.get(field) or "").lower().strip()] *)
Definition field_value (addr : gmap string (option string)) (field : string) : string :=
  Text.strip (Text.lower (or_empty (dict_get addr field))).

Definition fields : list string := ["street"; "city"; "state"; "zip"].

(** [weights[field]] *)
Definition weights (field : string) : Q :=
  (if String.eqb field "zip" then 0.4
   else if String.eqb field "street" then 0.3
   else if String.eqb field "city" then 0.2
   else if String.eqb field "state" then 0.1
   else 0)%Q.

(** [sum(weights.values())], in the order the dictionary lists them. *)
Definition weights_total : Q := (0 + 0.4 + 0.3 + 0.2 + 0.1)%Q.

(** [sum(xs)] *)
Definition qsum (xs : list Q) : Q := fold_left Qplus xs 0%Q.

(** The first loop of [compare_addresses]: the list [scores]. *)
Definition field_scores (addr1 addr2 : gmap string (option string)) : list Q :=
  flat_map
    (fun field =>
       let val1 := field_value addr1 field in
       let val2 := field_value addr2 field in
       if negb (nonempty val1) || negb (nonempty val2) then []
       else if String.eqb val1 val2 then [1%Q]
       else [Difflib.ratio val1 val2])
    fields.

(** The second loop: the list [weighted_scores]. *)
Definition weighted_scores (addr1 addr2 : gmap string (option string)) : list Q :=
  flat_map
    (fun field =>
       let val1 := field_value addr1 field in
       let val2 := field_value addr2 field in
       if nonempty val1 && nonempty val2
       then [(Difflib.ratio val1 val2 * weights field)%Q]
       else [])
    fields.

(** [compare_addresses(addr1, addr2)] *)
Definition compare_addresses (addr1 addr2 : gmap string (option string)) : Q :=
  if negb (dict_truthy addr1) || negb (dict_truthy addr2) then 0%Q
  else
    match field_scores addr1 addr2 with
    | [] => 0%Q
    | _ =>
        match weighted_scores addr1 addr2 with
        | [] => 0%Q
        | ws => (qsum ws / weights_total)%Q
        end
    end.

(** [sanitize_string(s)] *)
Definition sanitize_string (s : option string) : string :=
  if negb (truthy s) then ""
  else Text.strip (Text.join " " (Text.split_ws (or_empty s))).

End Utils.

(** ** Exceptions *)

(** The outcome of code that may raise: a value, or the exception's text. *)
Inductive res (A : Type) : Type :=
  | Ok (a : A)
  | Raise (msg : string).

Arguments Ok {A} a.
Arguments Raise {A} msg.

#[global] Instance res_ret : MRet res := @Ok.

#[global] Instance res_bind : MBind res := fun A B f m =>
  match m with
  | Ok a => f a
  | Raise msg => Raise msg
  end.

(** ** Customer records

    A customer record of the directory: its string-valued keys ([id],
    [first_name], [last_name], [email], [mobile_number], [home_number]) and the
    list under [addresses], [None] when that key is missing or null. *)
Record Customer := mkCustomer {
  c_fields : gmap string (option string);
  c_addresses : option (list (gmap string (option string)))
}.

(** [c[k]]: a missing key raises [KeyError(k)], whose text is the quoted key. *)
Definition getitem (c : Customer) (k : string) : res (option string) :=
  match c_fields c !! k with
  | Some v => Ok v
  | None => Raise ("'" +:+ k +:+ "'")
  end.

(** [c.get(k, '')] as an f-string prints it: a null prints as [None]. *)
Definition formatted (c : Customer) (k : string) : string :=
  match c_fields c !! k with
  | None => ""
  | Some None => "None"
  | Some (Some s) => s
  end.

(** [bool(c)] for a customer dictionary *)
Definition customer_truthy (c : Customer) : bool :=
  dict_truthy (c_fields c) || bool_decide (is_Some (c_addresses c)).

(** ** [hcp_client.py]: the directory as the workflow sees it *)

Module HCPClient.

(** The body of a [POST /customers] request, as [_create_customer] builds
    it; an optional field is a key the dictionary may lack. *)
Record CustomerPayload := mkCustomerPayload {
  cp_first_name : string;
  cp_last_name : string;
  cp_notifications_enabled : bool;
  cp_email : option string;
  cp_mobile_number : option string;
  cp_lead_source : option string;
  cp_addresses : option (list (gmap string string));
  cp_tags : option (list string)
}.

Record LineItem := mkLineItem {
  li_name : string;
  li_kind : string;
  li_description : option string
}.

(** The body of a [POST /leads] request. *)
Record LeadPayload := mkLeadPayload {
  lp_customer_id : option string;
  lp_job_type : string;
  lp_assigned_employee_id : option string;
  lp_address_id : option string;
  lp_address : option (gmap string string);
  lp_tags : option (list string);
  lp_lead_source : option string;
  lp_line_items : option (list LineItem);
  lp_note : option string
}.

(** The client's methods the workflow calls. [St] is the state of the
    directory; a method answers and moves it on. The client turns its own
    [HCPAPIError] into an empty answer; [Raise] is any other fault. *)
Record Directory (St : Type) := mkDirectory {
  search_customers : string -> St -> res (list Customer) * St;
  create_customer : CustomerPayload -> St -> res (option (gmap string (option string))) * St;
  add_customer_address :
    option string -> gmap string string -> St -> res (option (gmap string (option string))) * St;
  get_customer_addresses : string -> St -> res (list (gmap string (option string))) * St;
  get_address_by_id : string -> string -> St -> res (option (gmap string (option string))) * St;
  create_lead : LeadPayload -> St -> res (option (gmap string (option string))) * St
}.

Arguments search_customers {St}.
Arguments create_customer {St}.
Arguments add_customer_address {St}.
Arguments get_customer_addresses {St}.
Arguments get_address_by_id {St}.
Arguments create_lead {St}.

(** A request the workflow sent. *)
Inductive Call :=
  | SearchCustomers (query : string)
  | CreateCustomer (customer_data : CustomerPayload)
  | AddCustomerAddress (customer_id : option string) (address_data : gmap string string)
  | GetCustomerAddresses (customer_id : string)
  | GetAddressById (customer_id address_id : string)
  | CreateLead (lead_data : LeadPayload).

(** What the directory answered: the list a search returned, the record (or
    nothing) a creation or a fetch returned, the list of a customer's
    addresses, or a fault. *)
Inductive Answer :=
  | Customers (found : list Customer)
  | Record (r : option (gmap string (option string)))
  | Addresses (known : list (gmap string (option string)))
  | Fault (msg : string).

End HCPClient.

Import HCPClient.

(** ** The workflow's effects: directory state, the requests sent so far with
    their answers, and exceptions *)

Definition M (St A : Type) : Type :=
  St * list (Call * Answer) -> res A * (St * list (Call * Answer)).

#[global] Instance M_ret {St} : MRet (M St) := fun A a s => (Ok a, s).

#[global] Instance M_bind {St} : MBind (M St) := fun A B f m s =>
  match m s with
  | (Ok a, s') => f a s'
  | (Raise msg, s') => (Raise msg, s')
  end.

(** Code that touches no directory. *)
Definition lift {St A} (r : res A) : M St A := fun s => (r, s).

(** One request: the method runs on the directory's state, and the request
    and its answer are appended to the trace. *)
Definition call {St A} (c : Call) (answer : A -> Answer)
    (op : St -> res A * St) : M St A := fun s =>
  let '(r, st') := op (fst s) in
  (r, (st', snd s ++ [(c, match r with Ok a => answer a | Raise e => Fault e end)])).

(** ** [customer_matcher.py] *)

(** [class MatchResult] *)
Record MatchResult := mkMatchResult {
  match_type : string;
  confidence : Q;
  customer_id : option string;
  customer_data : option Customer;
  warnings : list string;
  should_create_new : bool
}.

(** [x > y] and [x >= y] on floats *)
Definition Qgt_bool (x y : Q) : bool := negb (Qle_bool x y).
Definition Qge_bool (x y : Q) : bool := Qle_bool y x.

(** Python's [max(x, y)]: [y] when it is greater, else [x]. *)
Definition py_max (x y : Q) : Q := if Qgt_bool y x then y else x.

Module CustomerMatcher.

(** [{c["id"] for c in phone_matches}] *)
Fixpoint id_set (cs : list Customer) : res (gset (option string)) :=
  match cs with
  | [] => Ok ∅
  | c :: cs' =>
      i ← getitem c "id";
      ids ← id_set cs';
      Ok ({[i]} ∪ ids)
  end.

(** [[c for c in email_matches if c["id"] in phone_ids]] *)
Fixpoint with_id_in (phone_ids : gset (option string)) (cs : list Customer)
    : res (list Customer) :=
  match cs with
  | [] => Ok []
  | c :: cs' =>
      i ← getitem c "id";
      rest ← with_id_in phone_ids cs';
      Ok (if bool_decide (i ∈ phone_ids) then c :: rest else rest)
  end.

Definition _find_exact_matches (phone_matches email_matches : list Customer)
    : res (list Customer) :=
  match phone_matches, email_matches with
  | [], _ | _, [] => Ok []
  | _, _ =>
      phone_ids ← id_set phone_matches;
      with_id_in phone_ids email_matches
  end.

(** The loop of [_deduplicate_customers], [seen] being the set so far. *)
Fixpoint deduplicate_from (seen : gset string) (customers : list Customer)
    : list Customer :=
  match customers with
  | [] => []
  | customer :: rest =>
      let customer_id := dict_get (c_fields customer) "id" in
      if truthy customer_id && negb (bool_decide (or_empty customer_id ∈ seen))
      then customer :: deduplicate_from ({[or_empty customer_id]} ∪ seen) rest
      else deduplicate_from seen rest
  end.

Definition _deduplicate_customers (customers : list Customer) : list Customer :=
  deduplicate_from ∅ customers.

(** [f"{c.get('first_name', '')} {c.get('last_name', '')}".strip()] *)
Definition full_name (c : Customer) : string :=
  Text.strip (formatted c "first_name" +:+ " " +:+ formatted c "last_name").

(** The name term both [_select_best_match] and [_calculate_confidence]
    compute: [SequenceMatcher(None, name.lower(), cname.lower()).ratio()]. *)
Definition name_similarity (name : string) (c : Customer) : Q :=
  Difflib.ratio (Text.lower name) (Text.lower (full_name c)).

(** The loop over [candidate["addresses"]] in [_select_best_match]. *)
Definition add_addresses (address : gmap string (option string))
    (addrs : list (gmap string (option string))) (score : Q) : Q :=
  fold_left
    (fun score cand_addr =>
       let addr_similarity := Utils.compare_addresses address cand_addr in
       py_max score (score + addr_similarity * 0.5)%Q)
    addrs score.

(** [bool(x)] for an optional list *)
Definition list_truthy {A} (l : option (list A)) : bool :=
  match l with
  | Some (_ :: _) => true
  | _ => false
  end.

(** The body of the scoring loop of [_select_best_match]: a candidate's
    score. *)
Definition candidate_score (name : option string)
    (address : option (gmap string (option string))) (candidate : Customer) : Q :=
  let score := 0%Q in
  let score :=
    if truthy name then
      if nonempty (full_name candidate)
      then (score + name_similarity (or_empty name) candidate * 0.5)%Q
      else score
    else score in
  if match address with Some a => dict_truthy a | None => false end
     && list_truthy (c_addresses candidate)
  then add_addresses (default ∅ address) (default [] (c_addresses candidate)) score
  else score.

(** [scored.sort(key=lambda x: x[0], reverse=True)]: a stable sort, so of two
    candidates with the same score the earlier one stays first. *)
Fixpoint insert_desc (x : Q * Customer) (l : list (Q * Customer)) : list (Q * Customer) :=
  match l with
  | [] => [x]
  | y :: l' => if Qle_bool (fst y) (fst x) then x :: l else y :: insert_desc x l'
  end.

Definition sort_desc (l : list (Q * Customer)) : list (Q * Customer) :=
  foldr insert_desc [] l.

Definition _select_best_match (candidates : list Customer) (name : option string)
    (address : option (gmap string (option string))) : res Customer :=
  match candidates with
  | [c] => Ok c
  | _ =>
      let scored := map (fun c => (candidate_score name address c, c)) candidates in
      match sort_desc scored with
      | (_, c) :: _ => Ok c
      | [] => Raise "list index out of range"
      end
  end.

(** [x or y or ""] *)
Definition first_truthy (x y : option string) : string :=
  if truthy x then or_empty x else if truthy y then or_empty y else "".

Definition _customer_has_phone (customer : Customer) (phone : string) : bool :=
  let customer_phone :=
    fst (Utils.normalize_phone
           (first_truthy (dict_get (c_fields customer) "mobile_number")
                         (dict_get (c_fields customer) "home_number"))
           "415") in
  if truthy customer_phone then String.eqb (or_empty customer_phone) phone else false.

Definition _customer_has_email (customer : Customer) (email : string) : bool :=
  let customer_email :=
    Text.strip (Text.lower (or_empty (dict_get (c_fields customer) "email"))) in
  if nonempty customer_email
  then String.eqb customer_email (Text.strip (Text.lower email))
  else false.

Definition _calculate_confidence (customer : Customer)
    (phone email name : option string) : Q :=
  let score := 0%Q in
  let score :=
    if truthy phone then
      if _customer_has_phone customer (or_empty phone) then (score + 0.4)%Q else score
    else score in
  let score :=
    if truthy email then
      if _customer_has_email customer (or_empty email) then (score + 0.4)%Q else score
    else score in
  if truthy name then
    if nonempty (full_name customer)
    then (score + name_similarity (or_empty name) customer * 0.2)%Q
    else score
  else score.

(** The first warning of a partial match. *)
Definition partial_warning (matched_fields : list string) : string :=
  "Partial match: " +:+ Text.join " and " matched_fields +:+ " matched, "
  +:+ "but not all fields. Please verify this is the correct customer.".

(** The warning added when the form says new and a candidate was found. *)
Definition duplicate_warning : string :=
  "⚠️ User indicated NEW customer, but potential duplicate found. "
  +:+ "Creating new customer record. Please review and merge if duplicate.".

(** What [find_matching_customer] does with the results of its two searches
    (the function from [exact_matches = ...] to its end). *)
Definition resolve (phone_matches email_matches : list Customer)
    (phone email name : option string)
    (address : option (gmap string (option string)))
    (is_existing_customer : bool) : res MatchResult :=
  exact_matches ← _find_exact_matches phone_matches email_matches;
  match exact_matches with
  | _ :: _ =>
      best_match ← _select_best_match exact_matches name address;
      id ← getitem best_match "id";
      Ok (mkMatchResult "exact" 1 id (Some best_match) [] false)
  | [] =>
      let all_matches := _deduplicate_customers (phone_matches ++ email_matches) in
      match all_matches with
      | _ :: _ =>
          best_match ← _select_best_match all_matches name address;
          let confidence := _calculate_confidence best_match phone email name in
          let matched_fields :=
            (if truthy phone && _customer_has_phone best_match (or_empty phone)
             then ["phone"] else [])
            ++ (if truthy email && _customer_has_email best_match (or_empty email)
                then ["email"] else []) in
          let warnings := [partial_warning matched_fields] in
          if is_existing_customer then
            id ← getitem best_match "id";
            Ok (mkMatchResult "partial" confidence id (Some best_match) warnings false)
          else
            Ok (mkMatchResult "partial" confidence None (Some best_match)
                  (warnings ++ [duplicate_warning]) true)
      | [] => Ok (mkMatchResult "none" 0 None None [] true)
      end
  end.

(** The loop of [should_create_new_address]: [False] at the first existing
    address whose similarity is above 0.8, [True] when there is none. *)
Fixpoint differs_from_all (new_address : gmap string (option string))
    (existing_addresses : list (gmap string (option string))) : bool :=
  match existing_addresses with
  | [] => true
  | existing_addr :: rest =>
      let similarity := Utils.compare_addresses new_address existing_addr in
      if Qgt_bool similarity 0.8 then false
      else differs_from_all new_address rest
  end.

Definition should_create_new_address (customer : Customer)
    (new_address : gmap string (option string)) : bool :=
  if negb (dict_truthy new_address) || negb (any_values new_address) then false
  else
    let existing_addresses := c_addresses customer in
    if negb (list_truthy existing_addresses) then true
    else differs_from_all new_address (default [] existing_addresses).

Section Lookup.

Context {St : Type}.
Variable hcp_client : Directory St.

(** [find_matching_customer(phone, email, name, address, is_existing_customer)]:
    the two searches, then [resolve] on what they returned. *)
Definition find_matching_customer (phone email name : option string)
    (address : option (gmap string (option string)))
    (is_existing_customer : bool) : M St MatchResult :=
  phone_matches ←
    (if truthy phone
     then call (SearchCustomers (or_empty phone)) Customers
               (search_customers hcp_client (or_empty phone))
     else mret []);
  email_matches ←
    (if truthy email
     then call (SearchCustomers (or_empty email)) Customers
               (search_customers hcp_client (or_empty email))
     else mret []);
  lift (resolve phone_matches email_matches phone email name address
          is_existing_customer).

End Lookup.

End CustomerMatcher.

(** [config.py]: the values the workflow reads. *)
Record Config := mkConfig {
  DEFAULT_AREA_CODE : string;
  DEFAULT_STATE : string;
  HCP_LEAD_SOURCE : string;
  HCP_LEAD_TAG : string;
  HCP_WEBSITE_TAG : string;
  HCP_ASSIGNED_EMPLOYEE_ID : string;
  SERVICE_DETAIL_MAPPING : gmap string string;
  JOB_TYPE_MAPPING : gmap string string
}.

(** The configuration with no environment variable set. *)
Definition default_config : Config := {|
  DEFAULT_AREA_CODE := "415";
  DEFAULT_STATE := "CA";
  HCP_LEAD_SOURCE := "Website";
  HCP_LEAD_TAG := "";
  HCP_WEBSITE_TAG := "";
  HCP_ASSIGNED_EMPLOYEE_ID := "pro_dabb388b3e684c618867cd4ec0d12930";
  SERVICE_DETAIL_MAPPING :=
    list_to_map
      [("Toilets or Bidets", "Toilet Repair & Replacement");
       ("Garbage Disposal", "Garbage Disposal Service");
       ("Plumbing Fixtures", "Faucet & Fixture Service");
       ("Water Heater", "Water Heater Service");
       ("Boilers / Combi-Boilers", "Boiler & Hydronics Service");
       ("Steam / Sauna", "Steam & Sauna Service");
       ("Other Plumbing", "Other Plumbing Service");
       ("Other Heating & HVAC", "Other Heating Service")];
  JOB_TYPE_MAPPING :=
    list_to_map
      [("New Installation", "Plumbing Installation");
       ("Service or Repair", "Plumbing Demand Maintenance");
       ("Renovation or Remodel", "Plumbing Estimate")]
|}.

(** The parsed form submission [create_lead] receives: the keys it reads,
    each a string (a list of strings for the two multi-selects, a boolean for
    the consent box), [None] when the form has no such key. *)
Record FormData := mkFormData {
  fd_phone : option string;
  fd_email : option string;
  fd_first_name : option string;
  fd_last_name : option string;
  fd_name : option string;
  fd_address : option string;
  fd_customer_type : option string;
  fd_preferred_contact : option string;
  fd_sms_consent : option bool;
  fd_street : option string;
  fd_street_line_2 : option string;
  fd_city : option string;
  fd_state : option string;
  fd_zip : option string;
  fd_service_needed : option string;
  fd_service_details : option (list string);
  fd_service_request_details : option string;
  fd_file_attachments : option (list string)
}.

(** [class LeadCreationResult] *)
Record LeadCreationResult := mkLeadCreationResult {
  success : bool;
  lcr_customer_id : option string;
  job_id : option string;
  message : string;
  lcr_warnings : list string;
  error : option string
}.

(** ** [utils.format_lead_note] *)

Module Note.

Definition newline : string := String (ascii_of_nat 10) EmptyString.

Definition bullets (items : list string) : list string :=
  map (fun item => "  • " +:+ item) items.

(** [format_lead_note(form_data, match_result.to_dict())]. [format_percent]
    is Python's [f"{x:.0%}"]. *)
Definition format_lead_note (format_percent : Q -> string) (form_data : FormData)
    (match_info : MatchResult) : string :=
  let lines := ["=== Website Form Submission ==="; ""] in
  let lines :=
    if truthy (fd_customer_type form_data)
    then lines ++ ["Customer Type: " +:+ or_empty (fd_customer_type form_data)]
    else lines in
  let lines :=
    if truthy (fd_preferred_contact form_data)
    then lines ++ ["Preferred Contact: " +:+ or_empty (fd_preferred_contact form_data)]
    else lines in
  let lines :=
    match fd_sms_consent form_data with
    | Some consent => lines ++ ["SMS Consent: " +:+ (if consent then "Yes" else "No")]
    | None => lines
    end in
  let lines :=
    if truthy (fd_service_needed form_data)
    then lines ++ [""; "Service Needed: " +:+ or_empty (fd_service_needed form_data)]
    else lines in
  let lines :=
    if CustomerMatcher.list_truthy (fd_service_details form_data)
    then lines ++ [""; "Service Details:"]
               ++ bullets (default [] (fd_service_details form_data))
    else lines in
  let lines :=
    if truthy (fd_service_request_details form_data)
    then lines ++ [""; "Request Details:";
                   or_empty (fd_service_request_details form_data)]
    else lines in
  let lines :=
    if CustomerMatcher.list_truthy (fd_file_attachments form_data)
    then lines ++ [""; "Attachments:"]
               ++ bullets (default [] (fd_file_attachments form_data))
    else lines in
  let lines := lines ++ [""; "=== Customer Match Info ==="] in
  let lines :=
    lines ++
    [if String.eqb (match_type match_info) "exact"
     then "✓ Exact match found (phone and email)"
     else if String.eqb (match_type match_info) "partial"
     then "⚠️  Partial match found"
     else "New customer (no existing record found)"] in
  let lines :=
    if Qeq_bool (confidence match_info) 0 then lines
    else lines ++ ["Confidence: " +:+ format_percent (confidence match_info)] in
  let lines :=
    match warnings match_info with
    | [] => lines
    | ws => lines ++ [""] ++ map (fun warning => "⚠️  " +:+ warning) ws
    end in
  Text.join newline lines.

End Note.

(** ** [lead_creator.py] *)

Module LeadCreator.

(** [if d.get(k): out[k] = d[k]] *)
Definition copy_if_truthy (d : gmap string (option string)) (k : string)
    (out : gmap string string) : gmap string string :=
  if truthy (dict_get d k) then <[k := or_empty (dict_get d k)]> out else out.

(** [out["country"] = d["country"] if d.get("country") else "US"] *)
Definition copy_country (d : gmap string (option string))
    (out : gmap string string) : gmap string string :=
  if truthy (dict_get d "country") then <["country" := or_empty (dict_get d "country")]> out
  else <["country" := "US"]> out.

(** [_find_matching_address_from_list(addresses, new_address)] *)
Fixpoint _find_matching_address_from_list
    (addresses : list (gmap string (option string)))
    (new_address : gmap string (option string))
    : option (gmap string (option string)) :=
  match addresses with
  | [] => None
  | existing_addr :: rest =>
      let existing_parsed : gmap string (option string) :=
        <["zip" := dict_get existing_addr "zip"]>
          (<["state" := dict_get existing_addr "state"]>
             (<["city" := dict_get existing_addr "city"]>
                (<["street" := dict_get existing_addr "street"]> ∅))) in
      let similarity := Utils.compare_addresses existing_parsed new_address in
      if Qge_bool similarity 0.8 then Some existing_addr
      else _find_matching_address_from_list rest new_address
  end.

Section Workflow.

Context {St : Type}.
Variable cfg : Config.
Variable re : Regex.
Variable format_percent : Q -> string.
Variable hcp_client : Directory St.

(** The [tags] both payloads carry: the configured ones that are not blank. *)
Definition configured_tags : option (list string) :=
  let tags :=
    (if nonempty (HCP_LEAD_TAG cfg) && nonempty (Text.strip (HCP_LEAD_TAG cfg))
     then [HCP_LEAD_TAG cfg] else [])
    ++ (if nonempty (HCP_WEBSITE_TAG cfg) && nonempty (Text.strip (HCP_WEBSITE_TAG cfg))
        then [HCP_WEBSITE_TAG cfg] else []) in
  match tags with
  | [] => None
  | _ => Some tags
  end.

Definition configured_lead_source : option string :=
  if nonempty (HCP_LEAD_SOURCE cfg) then Some (HCP_LEAD_SOURCE cfg) else None.

(** The address [_create_customer] puts in the customer. *)
Definition customer_address (address : gmap string (option string)) : gmap string string :=
  copy_country address
    (copy_if_truthy address "zip"
       (copy_if_truthy address "state"
          (copy_if_truthy address "city"
             (copy_if_truthy address "street_line_2"
                (copy_if_truthy address "street" ∅))))).

(** [if result: return result.get("id")] and [return None] *)
Definition id_of (result : option (gmap string (option string))) : option string :=
  match result with
  | Some d => if dict_truthy d then dict_get d "id" else None
  | None => None
  end.

(** The [customer_data] of [_create_customer]. *)
Definition customer_payload (first_name last_name email : string)
    (phone : option string) (address : gmap string (option string))
    (sms_consent : bool) : CustomerPayload := {|
  cp_first_name := if nonempty first_name then first_name else "Unknown";
  cp_last_name := if nonempty last_name then last_name else "";
  cp_notifications_enabled := sms_consent;
  cp_email := if nonempty email then Some email else None;
  cp_mobile_number := if truthy phone then phone else None;
  cp_lead_source := configured_lead_source;
  cp_addresses :=
    if dict_truthy address && any_values address
    then Some [customer_address address] else None;
  cp_tags := configured_tags
|}.

Definition _create_customer (first_name last_name email : string)
    (phone : option string) (address : gmap string (option string))
    (sms_consent : bool) : M St (option string) :=
  let customer_data :=
    customer_payload first_name last_name email phone address sms_consent in
  result ← call (CreateCustomer customer_data) Record
             (create_customer hcp_client customer_data);
  mret (id_of result).

(** [address["state"] = parsed.get("state") or Config.DEFAULT_STATE] *)
Definition set_state (d : gmap string (option string))
    (out : gmap string string) : gmap string string :=
  <["state" := if truthy (dict_get d "state") then or_empty (dict_get d "state")
               else DEFAULT_STATE cfg]> out.

Definition _build_address_dict (parsed_address : gmap string (option string))
    : option (gmap string string) :=
  if negb (dict_truthy parsed_address) || negb (any_values parsed_address) then None
  else
    let address :=
      copy_country parsed_address
        (copy_if_truthy parsed_address "zip"
           (set_state parsed_address
              (copy_if_truthy parsed_address "city"
                 (copy_if_truthy parsed_address "street_line_2"
                    (copy_if_truthy parsed_address "street" ∅))))) in
    if dict_truthy address then Some address else None.

Definition _build_address_dict_from_api (api_address : gmap string (option string))
    : option (gmap string string) :=
  if negb (dict_truthy api_address) then None
  else
    let address :=
      copy_country api_address
        (copy_if_truthy api_address "zip"
           (copy_if_truthy api_address "state"
              (copy_if_truthy api_address "city"
                 (copy_if_truthy api_address "street_line_2"
                    (copy_if_truthy api_address "street" ∅))))) in
    if dict_truthy address then Some address else None.

(** The [address_data] of [_add_address_to_customer]. *)
Definition service_address (address : gmap string (option string)) : gmap string string :=
  copy_country address
    (copy_if_truthy address "zip"
       (set_state address
          (copy_if_truthy address "city"
             (copy_if_truthy address "street_line_2"
                (copy_if_truthy address "street" (<["type" := "service"]> ∅)))))).

Definition _add_address_to_customer (customer_id : option string)
    (address : gmap string (option string)) : M St (option string) :=
  if negb (dict_truthy address) || negb (any_values address) then mret None
  else
    let address_data := service_address address in
    result ← call (AddCustomerAddress customer_id address_data) Record
                  (add_customer_address hcp_client customer_id address_data);
    mret (id_of result).

(** [_build_line_items(service_details, service_request_details)]; [idx] is
    the index of the head of [service_details]. *)
Fixpoint line_items_from (idx : nat) (service_details : list string)
    (service_request_details : string) : list LineItem :=
  match service_details with
  | [] => []
  | service_detail :: rest =>
      let hcp_service_name :=
        match SERVICE_DETAIL_MAPPING cfg !! service_detail with
        | Some n => if nonempty n then n else service_detail
        | None => service_detail
        end in
      {| li_name := hcp_service_name;
         li_kind := "labor";
         li_description :=
           if (idx =? 0)%nat && nonempty service_request_details
           then Some service_request_details else None |}
      :: line_items_from (S idx) rest service_request_details
  end.

Definition _build_line_items (service_details : list string)
    (service_request_details : string) : option (list LineItem) :=
  match service_details with
  | [] => None
  | _ => Some (line_items_from 0 service_details service_request_details)
  end.

(** The [lead_data] of [_create_lead_with_job_type]. *)
Definition lead_payload (customer_id : option string)
    (form_data : FormData) (line_items : option (list LineItem))
    (note : string) (address_id : option string)
    (address : option (gmap string string)) : LeadPayload :=
  let service_needed := or_empty (fd_service_needed form_data) in
  let job_type := default "" (JOB_TYPE_MAPPING cfg !! service_needed) in
  let job_type := if nonempty job_type then job_type else "Plumbing Demand Maintenance" in
  {|
    lp_customer_id := customer_id;
    lp_job_type := job_type;
    lp_assigned_employee_id :=
      if nonempty (HCP_ASSIGNED_EMPLOYEE_ID cfg)
      then Some (HCP_ASSIGNED_EMPLOYEE_ID cfg) else None;
    lp_address_id := if truthy address_id then address_id else None;
    lp_address :=
      match address with
      | Some a => if dict_truthy a then Some a else None
      | None => None
      end;
    lp_tags := configured_tags;
    lp_lead_source := configured_lead_source;
    lp_line_items :=
      if CustomerMatcher.list_truthy line_items then line_items else None;
    lp_note := if nonempty note then Some note else None
  |}.

Definition _create_lead_with_job_type (customer_id : option string)
    (form_data : FormData) (line_items : option (list LineItem))
    (note : string) (address_id : option string)
    (address : option (gmap string string)) : M St (option string) :=
  let lead_data :=
    lead_payload customer_id form_data line_items note address_id address in
  result ← call (CreateLead lead_data) Record (create_lead hcp_client lead_data);
  mret (id_of result).

(** The address [create_lead] hands on: the form's own fields when it has a
    street, a city or a zip, else the combined string parsed. *)
Definition parsed_address_of (form_data : FormData) : gmap string (option string) :=
  if truthy (fd_street form_data) || truthy (fd_city form_data)
     || truthy (fd_zip form_data)
  then
    <["zip" := fd_zip form_data]>
      (<["state" := Some (if truthy (fd_state form_data)
                          then or_empty (fd_state form_data)
                          else DEFAULT_STATE cfg)]>
         (<["city" := fd_city form_data]>
            (<["street" := fd_street form_data]> ∅)))
  else Utils.parse_address re (or_empty (fd_address form_data)).

(** [LeadCreationResult(success=False, customer_id=..., error=...)] *)
Definition failure (customer_id : option string) (err : string) : LeadCreationResult :=
  mkLeadCreationResult false customer_id None "" [] (Some err).

(** [create_lead], "Determine address_id and address fields for lead": the
    address id and the address the lead is created with. *)
Definition lead_address (match_result : MatchResult)
    (parsed_address : gmap string (option string))
    (customer_id new_address_id : option string)
    : M St (option string * option (gmap string string)) :=
  if should_create_new match_result
  then mret (None, _build_address_dict parsed_address)
  else
    address_id ←
      (if truthy new_address_id then mret new_address_id
       else if truthy customer_id && dict_truthy parsed_address then
         customer_addresses ←
           call (GetCustomerAddresses (or_empty customer_id)) Addresses
                (get_customer_addresses hcp_client (or_empty customer_id));
         match customer_addresses with
         | [] => mret None
         | _ =>
             match _find_matching_address_from_list customer_addresses parsed_address with
             | Some matched_address =>
                 mret (if dict_truthy matched_address
                       then dict_get matched_address "id" else None)
             | None => mret None
             end
         end
       else mret None);
    address_for_lead ←
      (if truthy address_id && truthy customer_id then
         full_address ←
           call (GetAddressById (or_empty customer_id) (or_empty address_id)) Record
                (get_address_by_id hcp_client (or_empty customer_id)
                   (or_empty address_id));
         match full_address with
         | Some fa =>
             mret (if dict_truthy fa then _build_address_dict_from_api fa else None)
         | None => mret None
         end
       else mret None);
    mret (address_id, address_for_lead).

(** [create_lead] from "Build line items before creating lead" to its last
    [return]: what happens once the customer id is known. *)
Definition file_lead (form_data : FormData) (match_result : MatchResult)
    (parsed_address : gmap string (option string))
    (customer_id new_address_id : option string) : M St LeadCreationResult :=
  let line_items :=
    if CustomerMatcher.list_truthy (fd_service_details form_data)
    then _build_line_items (default [] (fd_service_details form_data))
           (or_empty (fd_service_request_details form_data))
    else None in
  let note_text := Note.format_lead_note format_percent form_data match_result in
  '(address_id, address_for_lead) ←
    lead_address match_result parsed_address customer_id new_address_id;
  lead_id ←
    _create_lead_with_job_type customer_id form_data line_items note_text
      address_id address_for_lead;
  if negb (truthy lead_id) then mret (failure customer_id "Failed to create lead")
  else
    mret (mkLeadCreationResult true customer_id lead_id
            ("Lead created successfully (match type: " +:+ match_type match_result
             +:+ ")")
            (warnings match_result) None).

(** [create_lead], "Check if we need to add new address and capture the
    address_id", for the matched customer. *)
Definition add_address_if_new (match_result : MatchResult)
    (parsed_address : gmap string (option string)) : M St (option string) :=
  match customer_data match_result with
  | Some customer =>
      if dict_truthy parsed_address && customer_truthy customer then
        if CustomerMatcher.should_create_new_address customer parsed_address
        then _add_address_to_customer (customer_id match_result) parsed_address
        else mret None
      else mret None
  | None => mret None
  end.

(** [create_lead], "Determine customer ID": create the customer, or reuse
    the matched one and add the address when it is new to them. *)
Definition settle_customer (form_data : FormData) (match_result : MatchResult)
    (first_name last_name email : string) (phone : option string)
    (parsed_address : gmap string (option string)) (sms_consent : bool)
    : M St LeadCreationResult :=
  if should_create_new match_result then
    customer_id ←
      _create_customer first_name last_name email phone parsed_address sms_consent;
    if negb (truthy customer_id) then mret (failure None "Failed to create customer")
    else file_lead form_data match_result parsed_address customer_id None
  else
    let customer_id := customer_id match_result in
    new_address_id ← add_address_if_new match_result parsed_address;
    file_lead form_data match_result parsed_address customer_id new_address_id.

(** The body of the [try] block of [create_lead]. *)
Definition create_lead_body (form_data : FormData) : M St LeadCreationResult :=
  let raw_phone := or_empty (fd_phone form_data) in
  let email := Text.lower (Utils.sanitize_string (fd_email form_data)) in
  let first_name := or_empty (fd_first_name form_data) in
  let last_name := or_empty (fd_last_name form_data) in
  let name := or_empty (fd_name form_data) in
  let '(first_name, last_name, name) :=
    if negb (nonempty name) && (nonempty first_name || nonempty last_name)
    then (first_name, last_name, Text.strip (first_name +:+ " " +:+ last_name))
    else if negb (nonempty first_name) && nonempty name
    then (fst (Utils.parse_name name), snd (Utils.parse_name name), name)
    else (first_name, last_name, name) in
  let customer_type := Text.lower (Utils.sanitize_string (fd_customer_type form_data)) in
  let sms_consent := default false (fd_sms_consent form_data) in
  let phone := fst (Utils.normalize_phone raw_phone (DEFAULT_AREA_CODE cfg)) in
  let parsed_address := parsed_address_of form_data in
  let is_existing_customer :=
    Text.contains "existing" customer_type || Text.contains "returning" customer_type in
  match_result ←
    CustomerMatcher.find_matching_customer hcp_client phone (Some email) (Some name)
      (Some parsed_address) is_existing_customer;
  settle_customer form_data match_result first_name last_name email phone
    parsed_address sms_consent.

(** [create_lead(form_data)]: the [try] block, and the [except Exception]
    that turns whatever was raised into a result. Returned with it are the
    directory's state and the requests sent, in order, with their answers. *)
Definition create_lead (form_data : FormData) (st : St)
    : LeadCreationResult * (St * list (Call * Answer)) :=
  match create_lead_body form_data (st, []) with
  | (Ok result, s) => (result, s)
  | (Raise e, s) => (mkLeadCreationResult false None None "" [] (Some e), s)
  end.

End Workflow.

End LeadCreator.

(** * Specification-side definitions *)

(** ** Invariants of [find_longest_match] *)

(** A match lies inside the window [a[alo:ahi]], [b[blo:bhi]]. *)
Definition in_window (alo ahi blo bhi : nat) (m : Difflib.Match) : Prop :=
  (alo <= Difflib.m_a m /\ Difflib.m_a m + Difflib.m_size m <= ahi /\
   blo <= Difflib.m_b m /\ Difflib.m_b m + Difflib.m_size m <= bhi)%nat.

(** Every run length recorded in [j2len] is at least 1, at most [n], and ends
    at a column of the window that leaves room for it. *)
Definition row_ok (n blo bhi : nat) (j2len : gmap nat nat) : Prop :=
  forall j v, j2len !! j = Some v ->
    (1 <= v /\ v <= n /\ v <= j + 1 - blo /\ j < bhi)%nat.

(** ** Address similarity as the specification words it *)

(** A field is comparable when it is non-empty on both sides. *)
Definition comparable (addr1 addr2 : gmap string (option string)) (field : string) : bool :=
  nonempty (Utils.field_value addr1 field) && nonempty (Utils.field_value addr2 field).

(** The score of one field: the matcher's ratio of the two normalized values. *)
Definition field_score (addr1 addr2 : gmap string (option string)) (field : string) : Q :=
  Difflib.ratio (Utils.field_value addr1 field) (Utils.field_value addr2 field).

(** What a field adds to the weighted sum: nothing when it is not comparable. *)
Definition weighted_term (addr1 addr2 : gmap string (option string)) (field : string) : Q :=
  if comparable addr1 addr2 field
  then (field_score addr1 addr2 field * Utils.weights field)%Q else 0%Q.

(** The specification's score of one field: 1.0 for an exact match of the
    normalized values, else the matcher's ratio. *)
Definition exact_or_ratio (addr1 addr2 : gmap string (option string)) (field : string) : Q :=
  if String.eqb (Utils.field_value addr1 field) (Utils.field_value addr2 field)
  then 1%Q else field_score addr1 addr2 field.

(** The specification's overall score: the weighted sum over the comparable
    fields, divided by the weights of those fields only; 0.0 when there is
    none. *)
Definition renormalized_score (addr1 addr2 : gmap string (option string)) : Q :=
  let present := List.filter (comparable addr1 addr2) Utils.fields in
  match present with
  | [] => 0%Q
  | _ =>
      (Utils.qsum (map (fun f => exact_or_ratio addr1 addr2 f * Utils.weights f)%Q present)
       / Utils.qsum (map Utils.weights present))%Q
  end.

(** An address of which only the zip is known, as [parse_address("94102")]
    gives it. *)
Definition zip_only : gmap string (option string) :=
  <["zip" := Some "94102"]> Utils.empty_address.

(** ** The phone rules as the specification words them *)

(** The rules applied to whatever the raw string's digits are: the four
    accepted shapes, and a failure with a warning for any other length. *)
Definition phone_rules (phone default_area_code : string) : option string * list string :=
  let digits := Text.only_digits phone in
  let n := String.length digits in
  if (n =? 10)%nat then (Some ("+1" +:+ digits), [])
  else if (n =? 11)%nat && String.prefix "1" digits then (Some ("+" +:+ digits), [])
  else if (n =? 7)%nat then (Some ("+1" +:+ default_area_code +:+ digits), [])
  else if (11 <? n)%nat then
    (Some ("+1" +:+ Text.last_n 10 digits),
     ["Phone number too long (" +:+ Text.of_nat n +:+ " digits), using last 10: "
      +:+ Text.last_n 10 digits])
  else
    (None,
     ["Invalid phone number format: " +:+ phone +:+ " (" +:+ Text.of_nat n
      +:+ " digits)"]).

(** ** Candidate scoring as the specification words it *)

(** [max(addressSimilarity(input, a) for a in candidate.addresses)] *)
Definition best_address_similarity (address : gmap string (option string))
    (addrs : list (gmap string (option string))) : Q :=
  fold_left (fun best a => py_max best (Utils.compare_addresses address a)) addrs 0%Q.

(** The address term of the specification: half the best similarity, once. *)
Definition best_address_term (address : gmap string (option string))
    (addrs : list (gmap string (option string))) : Q :=
  (0.5 * best_address_similarity address addrs)%Q.

(** What the loop of the code adds up: half the similarity of every known
    address. *)
Definition summed_address_term (address : gmap string (option string))
    (addrs : list (gmap string (option string))) : Q :=
  Utils.qsum (map (fun a => Utils.compare_addresses address a * 0.5)%Q addrs).

(** The submitted address of the example: a zip and the default state. *)
Definition submitted : gmap string (option string) :=
  <["zip" := Some "94102"]> (<["state" := Some "CA"]> Utils.empty_address).

(** A customer with one known address, the submitted one. *)
Definition one_address : Customer :=
  mkCustomer (<["id" := Some "cus_1"]> ∅) (Some [submitted]).

(** A customer with two known addresses, each sharing only the zip. *)
Definition two_addresses : Customer :=
  mkCustomer (<["id" := Some "cus_2"]> ∅) (Some [zip_only; zip_only]).

(** ** Directory stubs for the examples *)

(** A customer record with an id, a name, a phone and one known address. *)
Definition ann : Customer :=
  mkCustomer
    (<["id" := Some "C1"]>
       (<["first_name" := Some "Ann"]>
          (<["last_name" := Some "Lee"]>
             (<["mobile_number" := Some "(415) 555-1234"]>
                (<["email" := Some "ann@example.com"]> ∅)))))
    (Some [<["id" := Some "adr_1"]> submitted]).

(** [{"id": i}] *)
Definition with_id (i : string) : option (gmap string (option string)) :=
  Some (<["id" := Some i]> ∅).

(** A stateless directory that finds [ann] under each of [queries] and nobody
    under any other query, knows her address, and answers every creation with
    a fresh id. *)
Definition stub (queries : list string) : Directory unit := {|
  search_customers := fun q st =>
    (Ok (if existsb (String.eqb q) queries then [ann] else []), st);
  create_customer := fun _ st => (Ok (with_id "cus_new"), st);
  add_customer_address := fun _ _ st => (Ok (with_id "adr_new"), st);
  get_customer_addresses := fun _ st => (Ok (default [] (c_addresses ann)), st);
  get_address_by_id := fun _ _ st => (Ok (Some (<["id" := Some "adr_1"]> submitted)), st);
  create_lead := fun _ st => (Ok (with_id "lead_1"), st)
|}.

(** Both searches find [ann]. *)
Definition found_by_both : Directory unit := stub ["+14155551234"; "ann@example.com"].

(** Only the phone search finds [ann]. *)
Definition found_by_phone : Directory unit := stub ["+14155551234"].

(** What resolving gives when only the phone search finds [ann] and the form
    does not say the customer is an existing one. *)
Definition phone_only_result : MatchResult :=
  mkMatchResult "partial"
    (CustomerMatcher._calculate_confidence ann (Some "+14155551234")
       (Some "ann@example.com") (Some "Ann Lee"))
    None (Some ann)
    [CustomerMatcher.partial_warning ["phone"; "email"];
     CustomerMatcher.duplicate_warning]
    true.

(** ** Address reconciliation *)

(** The similarity [_find_matching_address_from_list] computes for a known
    address: its street, city, state and zip against the proposed address. *)
Definition reuse_similarity (existing_addr new_address : gmap string (option string)) : Q :=
  Utils.compare_addresses
    (<["zip" := dict_get existing_addr "zip"]>
       (<["state" := dict_get existing_addr "state"]>
          (<["city" := dict_get existing_addr "city"]>
             (<["street" := dict_get existing_addr "street"]> ∅))))
    new_address.

(** ** Traces of the workflow *)

(** The kinds of request. *)
Definition is_search (c : Call) : bool :=
  match c with SearchCustomers _ => true | _ => false end.

Definition is_lookup (c : Call) : bool :=
  match c with GetCustomerAddresses _ | GetAddressById _ _ => true | _ => false end.

Definition is_add_address (c : Call) : bool :=
  match c with AddCustomerAddress _ _ => true | _ => false end.

(** An entry of the trace whose request is of kind [kind]. *)
Definition requests (kind : Call -> bool) (e : Call * Answer) : Prop := kind e.1 = true.

(** Whatever happens, [m] appends to the trace only entries that satisfy [P]. *)
Definition appends {St A} (P : Call * Answer -> Prop) (m : M St A) : Prop :=
  forall s, exists evs, (m s).2.2 = s.2 ++ evs /\ List.Forall P evs.

(** The result [create_lead] builds from an exception. *)
Definition raised (e : string) : LeadCreationResult :=
  mkLeadCreationResult false None None "" [] (Some e).

(** Where the address id of a lead comes from: there is none; or it is the id
    of the address just added; or the directory listed the customer's
    addresses and it is the id of the one
    [_find_matching_address_from_list] picked among them. *)
Definition address_id_source (parsed_address : gmap string (option string))
    (new_address_id : option string) (lookups : list (Call * Answer))
    (address_id : option string) : Prop :=
  address_id = None \/
  (truthy new_address_id = true /\ address_id = new_address_id) \/
  (exists customer_id known matched,
     truthy new_address_id = false /\
     In (GetCustomerAddresses customer_id, Addresses known) lookups /\
     LeadCreator._find_matching_address_from_list known parsed_address = Some matched /\
     address_id = dict_get matched "id").

(** Where the address of a lead comes from: there is none; or the customer is
    new and it is built from the parsed address; or the directory returned an
    address by id and it is built from that. *)
Definition address_source (cfg : Config) (m : MatchResult)
    (parsed_address : gmap string (option string))
    (lookups : list (Call * Answer)) (address : option (gmap string string)) : Prop :=
  address = None \/
  (should_create_new m = true /\
   address = LeadCreator._build_address_dict cfg parsed_address) \/
  (exists customer_id address_id fa,
     In (GetAddressById customer_id address_id, Record (Some fa)) lookups /\
     address = LeadCreator._build_address_dict_from_api fa).

(** What [file_lead] leaves behind for customer [customer_id]: lookups, then
    either a fault, or the one lead request and the outcome its answer
    decides. *)
Definition filed (cfg : Config) (m : MatchResult)
    (parsed_address : gmap string (option string))
    (customer_id new_address_id : option string)
    (rest : list (Call * Answer)) (outcome : res LeadCreationResult) : Prop :=
  exists lookups, List.Forall (requests is_lookup) lookups /\
    ((rest = lookups /\ exists e, outcome = Raise e) \/
     (exists lead ans,
        rest = lookups ++ [(CreateLead lead, ans)] /\
        lp_customer_id lead = customer_id /\
        address_id_source parsed_address new_address_id lookups (lp_address_id lead) /\
        address_source cfg m parsed_address lookups (lp_address lead) /\
        match ans with
        | Record d =>
            outcome =
              Ok (if truthy (LeadCreator.id_of d)
                  then mkLeadCreationResult true customer_id (LeadCreator.id_of d)
                         ("Lead created successfully (match type: "
                          +:+ match_type m +:+ ")")
                         (warnings m) None
                  else LeadCreator.failure customer_id "Failed to create lead")
        | Fault e => outcome = Raise e
        | _ => False
        end)).

(** What the address step for a matched customer leaves behind: nothing and
    no new address id; or one request, for that customer and the service
    address built from the parsed one, whose answer gives the new id. *)
Definition added (cfg : Config) (m : MatchResult)
    (parsed_address : gmap string (option string))
    (adds : list (Call * Answer)) (new_address_id : option string) : Prop :=
  (adds = [] /\ new_address_id = None) \/
  (exists d,
     adds = [(AddCustomerAddress (customer_id m)
                (LeadCreator.service_address cfg parsed_address), Record d)] /\
     new_address_id = LeadCreator.id_of d).

(** What [settle_customer] leaves behind. When a new customer is asked for:
    the one creation request, and then, only if its answer has an id, what
    [file_lead] leaves for that id. Otherwise: the address step for the
    matched customer, then what [file_lead] leaves for them. *)
Definition settled (cfg : Config) (m : MatchResult)
    (parsed_address : gmap string (option string)) (customer : CustomerPayload)
    (rest : list (Call * Answer)) (outcome : res LeadCreationResult) : Prop :=
  if should_create_new m then
    exists ans,
      match ans with
      | Record d =>
          if truthy (LeadCreator.id_of d)
          then exists rest',
                 rest = (CreateCustomer customer, ans) :: rest' /\
                 filed cfg m parsed_address (LeadCreator.id_of d) None rest' outcome
          else rest = [(CreateCustomer customer, ans)] /\
               outcome = Ok (LeadCreator.failure None "Failed to create customer")
      | Fault e => rest = [(CreateCustomer customer, ans)] /\ outcome = Raise e
      | _ => False
      end
  else
    (exists e,
       rest = [(AddCustomerAddress (customer_id m)
                  (LeadCreator.service_address cfg parsed_address), Fault e)] /\
       outcome = Raise e) \/
    (exists adds new_address_id rest',
       rest = adds ++ rest' /\
       added cfg m parsed_address adds new_address_id /\
       filed cfg m parsed_address (customer_id m) new_address_id rest' outcome).

(** The result [create_lead] returns for the outcome of its [try] block. *)
Definition final (outcome : res LeadCreationResult) : LeadCreationResult :=
  match outcome with
  | Ok result => result
  | Raise e => raised e
  end.

(** The identity [create_lead] reads off the form: first name, last name and
    full name; email; normalized phone; whether the form says existing. *)
Definition submitted_names (form_data : FormData) : string * string * string :=
  let first_name := or_empty (fd_first_name form_data) in
  let last_name := or_empty (fd_last_name form_data) in
  let name := or_empty (fd_name form_data) in
  if negb (nonempty name) && (nonempty first_name || nonempty last_name)
  then (first_name, last_name, Text.strip (first_name +:+ " " +:+ last_name))
  else if negb (nonempty first_name) && nonempty name
  then (fst (Utils.parse_name name), snd (Utils.parse_name name), name)
  else (first_name, last_name, name).

Definition submitted_email (form_data : FormData) : string :=
  Text.lower (Utils.sanitize_string (fd_email form_data)).

Definition submitted_phone (cfg : Config) (form_data : FormData) : option string :=
  fst (Utils.normalize_phone (or_empty (fd_phone form_data)) (DEFAULT_AREA_CODE cfg)).

Definition says_existing (form_data : FormData) : bool :=
  let customer_type := Text.lower (Utils.sanitize_string (fd_customer_type form_data)) in
  Text.contains "existing" customer_type || Text.contains "returning" customer_type.

(** The identity resolution [create_lead] starts with. *)
Definition matching {St} (cfg : Config) (re : Regex) (hcp_client : Directory St)
    (form_data : FormData) : M St MatchResult :=
  CustomerMatcher.find_matching_customer hcp_client (submitted_phone cfg form_data)
    (Some (submitted_email form_data)) (Some (submitted_names form_data).2)
    (Some (LeadCreator.parsed_address_of cfg re form_data)) (says_existing form_data).

(** The customer [create_lead] would create for the form. *)
Definition new_customer (cfg : Config) (re : Regex) (form_data : FormData)
    : CustomerPayload :=
  LeadCreator.customer_payload cfg (submitted_names form_data).1.1
    (submitted_names form_data).1.2 (submitted_email form_data)
    (submitted_phone cfg form_data) (LeadCreator.parsed_address_of cfg re form_data)
    (default false (fd_sms_consent form_data)).

(** ** Example submissions and faulty directories *)

(** No regular expression matches: only used where the form has its own
    address fields and nothing is parsed. *)
Definition no_regex : Regex := {|
  match_pattern1 := fun _ => None;
  match_pattern2 := fun _ => None;
  search_zip := fun _ => None;
  search_state := fun _ => None
|}.

(** Python's [f"{q:.0%}"] on an exact rational: the nearest whole percentage,
    a tie going to the even one. *)
Definition percent (q : Q) : string :=
  let n := (100 * Qnum q)%Z in
  let d := Zpos (Qden q) in
  let whole := (n / d)%Z in
  let rounded :=
    match (2 * (n mod d) ?= d)%Z with
    | Lt => whole
    | Gt => (whole + 1)%Z
    | Eq => if Z.even whole then whole else (whole + 1)%Z
    end in
  NilEmpty.string_of_int (Z.to_int rounded) +:+ "%".

(** A submission: Ann Lee, new customer, with her address in separate
    fields, a second address line among them. *)
Definition ann_form : FormData := {|
  fd_phone := Some "(415) 555-1234";
  fd_email := Some "ann@example.com";
  fd_first_name := Some "Ann";
  fd_last_name := Some "Lee";
  fd_name := Some "Ann Lee";
  fd_address := None;
  fd_customer_type := Some "New customer";
  fd_preferred_contact := None;
  fd_sms_consent := Some true;
  fd_street := Some "12 Oak St";
  fd_street_line_2 := Some "Apt 4";
  fd_city := Some "San Francisco";
  fd_state := None;
  fd_zip := Some "94102";
  fd_service_needed := Some "Service or Repair";
  fd_service_details := Some ["Water Heater"];
  fd_service_request_details := Some "No hot water";
  fd_file_attachments := None
|}.

(** A directory whose search faults with the text [msg], as when the API
    answers with something that is not a JSON object. *)
Definition faulty (msg : string) : Directory unit := {|
  search_customers := fun _ st => (Raise msg, st);
  create_customer := fun _ st => (Ok None, st);
  add_customer_address := fun _ _ st => (Ok None, st);
  get_customer_addresses := fun _ st => (Ok [], st);
  get_address_by_id := fun _ _ st => (Ok None, st);
  create_lead := fun _ st => (Ok None, st)
|}.

(** A directory whose searches all return one record that has no [id]. *)
Definition without_id : Directory unit := {|
  search_customers := fun _ st =>
    (Ok [mkCustomer (<["first_name" := Some "Ann"]> ∅) None], st);
  create_customer := fun _ st => (Ok None, st);
  add_customer_address := fun _ _ st => (Ok None, st);
  get_customer_addresses := fun _ st => (Ok [], st);
  get_address_by_id := fun _ _ st => (Ok None, st);
  create_lead := fun _ st => (Ok None, st)
|}.

(** A directory that knows nobody and returns no id for a creation. *)
Definition refusing : Directory unit := {|
  search_customers := fun _ st => (Ok [], st);
  create_customer := fun _ st => (Ok None, st);
  add_customer_address := fun _ _ st => (Ok None, st);
  get_customer_addresses := fun _ st => (Ok [], st);
  get_address_by_id := fun _ _ st => (Ok None, st);
  create_lead := fun _ st => (Ok None, st)
|}.

(** A directory that knows nobody, creates customers, and returns no id for
    a lead. *)
Definition no_leads : Directory unit := {|
  search_customers := fun _ st => (Ok [], st);
  create_customer := fun _ st => (Ok (with_id "cus_new"), st);
  add_customer_address := fun _ _ st => (Ok None, st);
  get_customer_addresses := fun _ st => (Ok [], st);
  get_address_by_id := fun _ _ st => (Ok None, st);
  create_lead := fun _ st => (Ok None, st)
|}.

(** No entry of [evs] is a fault. *)
Definition fault_free (evs : list (Call * Answer)) : Prop :=
  List.Forall (fun ev => forall msg, ev.2 <> Fault msg) evs.

(** [m] stops at the first fault of the directory and raises it: the entries
    it appends hold no fault, or one, which is the last, and [m] raises its
    text. *)
Definition stops_at_fault {St A} (m : M St A) : Prop :=
  forall s, exists evs,
    (m s).2.2 = s.2 ++ evs /\
    (fault_free evs \/
     exists pre c e, evs = pre ++ [(c, Fault e)] /\ fault_free pre /\ (m s).1 = Raise e).

(** The lead [create_lead] requests for [ann_form] once the directory has
    found nobody and created customer [cus_new]. *)
Definition ann_lead : LeadPayload :=
  LeadCreator.lead_payload default_config (Some "cus_new") ann_form
    (LeadCreator._build_line_items default_config ["Water Heater"] "No hot water")
    (Note.format_lead_note percent ann_form (mkMatchResult "none" 0 None None [] true))
    None
    (LeadCreator._build_address_dict default_config
       (LeadCreator.parsed_address_of default_config no_regex ann_form)).

(** ** The second address line *)

(** [form_data] with [street_line_2] set to [v] (or the key removed). *)
Definition with_street_line_2 (v : option string) (form_data : FormData) : FormData := {|
  fd_phone := fd_phone form_data;
  fd_email := fd_email form_data;
  fd_first_name := fd_first_name form_data;
  fd_last_name := fd_last_name form_data;
  fd_name := fd_name form_data;
  fd_address := fd_address form_data;
  fd_customer_type := fd_customer_type form_data;
  fd_preferred_contact := fd_preferred_contact form_data;
  fd_sms_consent := fd_sms_consent form_data;
  fd_street := fd_street form_data;
  fd_street_line_2 := v;
  fd_city := fd_city form_data;
  fd_state := fd_state form_data;
  fd_zip := fd_zip form_data;
  fd_service_needed := fd_service_needed form_data;
  fd_service_details := fd_service_details form_data;
  fd_service_request_details := fd_service_request_details form_data;
  fd_file_attachments := fd_file_attachments form_data
|}.

(** The keys of a parsed address. *)
Definition address_keys : gset string := list_to_set ["street"; "city"; "state"; "zip"].



(** * Definitions for the properties beyond the specification *)

(** ** Words *)

(** No character of [s] is whitespace. *)
Fixpoint no_space (s : string) : bool :=
  match s with
  | EmptyString => true
  | String c s' => negb (Text.is_space c) && no_space s'
  end.

(** A word: what [str.split()] returns, a non-empty run without whitespace. *)
Definition word (s : string) : Prop := s <> "" /\ no_space s = true.

(** ** Phone numbers *)

(** Every character of [s] is a decimal digit. *)
Fixpoint all_digits (s : string) : bool :=
  match s with
  | EmptyString => true
  | String c s' => Text.is_digit c && all_digits s'
  end.

(** The form [normalize_phone] aims at: [+1] and ten digits. *)
Definition is_e164 (s : string) : bool :=
  match s with
  | String "+" (String "1" d) => (String.length d =? 10)%nat && all_digits d
  | _ => false
  end.

(** A customer record as the directory holds it once created from
    [ann_form]: the phone and the e-mail as [create_lead] sent them. *)
Definition ann_stored : Customer :=
  mkCustomer
    (<["id" := Some "cus_new"]>
       (<["first_name" := Some "Ann"]>
          (<["last_name" := Some "Lee"]>
             (<["mobile_number" := Some "+14155551234"]>
                (<["email" := Some "ann@example.com"]> ∅)))))
    None.

(** ** Dictionaries *)

(** [{k: g(v) if v is not None else None for k, v in d.items()}] *)
Definition map_values (g : string -> string) (d : gmap string (option string))
    : gmap string (option string) :=
  (fun v : option string => g <$> v) <$> d.

(** ** Customers *)

(** [customer.get("id")] *)
Definition id_of_customer (c : Customer) : option string := dict_get (c_fields c) "id".

(** Two records found by the phone search, one of them without the key
    [id]. *)
Definition found_without_id : list Customer :=
  [ann; mkCustomer (<["first_name" := Some "Bob"]> ∅) None].

(** ** More on traces *)

Definition is_create_customer (c : Call) : bool :=
  match c with CreateCustomer _ => true | _ => false end.

Definition is_create_lead (c : Call) : bool :=
  match c with CreateLead _ => true | _ => false end.

(** How the result [r] of a run reports on its trace [tr]: it says success
    exactly when the last request created a lead and was answered with an id;
    it then carries that id and the lead's customer; and a result that is not
    a success carries an error and no lead id. *)
Definition reports (tr : list (Call * Answer)) (r : LeadCreationResult) : Prop :=
  (success r = true <->
   exists p d, last tr = Some (CreateLead p, Record d) /\
               truthy (LeadCreator.id_of d) = true) /\
  (forall p d, last tr = Some (CreateLead p, Record d) ->
     truthy (LeadCreator.id_of d) = true ->
     job_id r = LeadCreator.id_of d /\ lcr_customer_id r = lp_customer_id p /\
     error r = None) /\
  (success r = false -> job_id r = None /\ error r <> None).

(** A submission with a name and nothing else. *)
Definition name_only_form : FormData := {|
  fd_phone := None;
  fd_email := None;
  fd_first_name := None;
  fd_last_name := None;
  fd_name := Some "Ann Lee";
  fd_address := None;
  fd_customer_type := None;
  fd_preferred_contact := None;
  fd_sms_consent := None;
  fd_street := None;
  fd_street_line_2 := None;
  fd_city := None;
  fd_state := None;
  fd_zip := None;
  fd_service_needed := None;
  fd_service_details := None;
  fd_service_request_details := None;
  fd_file_attachments := None
|}.

(** A specification of a piece of the workflow: the entries it appends to the
    trace satisfy [T], whether it returns or raises, and a value it returns
    satisfies [R]. *)
Definition run_spec {St A} (T : list (Call * Answer) -> Prop) (R : A -> Prop)
    (m : M St A) : Prop :=
  forall s, exists evs,
    (m s).2.2 = s.2 ++ evs /\ T evs /\ forall a, (m s).1 = Ok a -> R a.

(** What a run may send for a submission without address: no address in the
    customer it creates, no request for adding an address or fetching one,
    and neither address nor address id in the lead. *)
Definition no_address_sent (ev : Call * Answer) : Prop :=
  match ev.1 with
  | CreateCustomer p => cp_addresses p = None
  | AddCustomerAddress _ _ => False
  | GetAddressById _ _ => False
  | CreateLead p => lp_address p = None /\ lp_address_id p = None
  | _ => True
  end.

(** A submission of a returning customer, without any address. *)
Definition returning_form : FormData := {|
  fd_phone := Some "(415) 555-1234";
  fd_email := Some "ann@example.com";
  fd_first_name := Some "Ann";
  fd_last_name := Some "Lee";
  fd_name := Some "Ann Lee";
  fd_address := None;
  fd_customer_type := Some "Existing customer";
  fd_preferred_contact := None;
  fd_sms_consent := None;
  fd_street := None;
  fd_street_line_2 := None;
  fd_city := None;
  fd_state := None;
  fd_zip := None;
  fd_service_needed := Some "New Installation";
  fd_service_details := Some ["Water Heater"; "Sump pump"];
  fd_service_request_details := Some "Replace the heater";
  fd_file_attachments := None
|}.

(** ** Notes and line items *)

(** A list of lines that begins with the heading of the note. *)
Definition headed (lines : list string) : Prop :=
  exists rest, lines = "=== Website Form Submission ===" :: rest.

(** The name [_build_line_items] gives the line item of a selected service:
    the mapped name, or the selection itself when it is not mapped. *)
Definition line_item_name (cfg : Config) (service_detail : string) : string :=
  match SERVICE_DETAIL_MAPPING cfg !! service_detail with
  | Some n => if nonempty n then n else service_detail
  | None => service_detail
  end.

(** The line items [create_lead] builds for a submission. *)
Definition submitted_line_items (cfg : Config) (form_data : FormData)
    : option (list LineItem) :=
  LeadCreator._build_line_items cfg (default [] (fd_service_details form_data))
    (or_empty (fd_service_request_details form_data)).

(** An entry of the trace that, if it requests a lead, requests the lead
    [_create_lead_with_job_type] builds for the submission and the match
    result [m], for some customer and address. *)
Definition lead_of (cfg : Config) (format_percent : Q -> string) (form_data : FormData)
    (m : MatchResult) (ev : Call * Answer) : Prop :=
  forall p, ev.1 = CreateLead p ->
    exists customer_id address_id address,
      p = LeadCreator.lead_payload cfg customer_id form_data
            (submitted_line_items cfg form_data)
            (Note.format_lead_note format_percent form_data m) address_id address.

(** ** The order of the requests *)

(** At most [n] entries, all of them requests of kind [kind]. *)
Definition at_most (n : nat) (kind : Call -> bool) (evs : list (Call * Answer)) : Prop :=
  (length evs <= n)%nat /\ List.Forall (requests kind) evs.

(** The requests of a run, in order: at most two searches; then at most one
    request that creates a customer, or adds an address to the matched one;
    then at most two address lookups, none after a customer was created; then
    at most one request for a lead. *)
Definition in_order (tr : list (Call * Answer)) : Prop :=
  exists searches change lookups lead,
    tr = searches ++ change ++ lookups ++ lead /\
    at_most 2 is_search searches /\
    ((at_most 1 is_create_customer change /\ lookups = []) \/
     at_most 1 is_add_address change) /\
    at_most 2 is_lookup lookups /\
    at_most 1 is_create_lead lead.

(** * [hcp_client.py]: the client over the wire

    The methods of [HCPClient] the workflow calls, on top of [_request]. What
    the [requests] library does with one attempt is a parameter: the outcome
    of the body of the [try] block of [_request], which either reaches its
    [continue] (status 429, after waiting as the response says), raises one of
    the two exceptions the loop catches, raises something else, or returns the
    decoded response. *)

Module Client.

(** [s.lstrip("/")] *)
Fixpoint lstrip_slash (s : string) : string :=
  match s with
  | EmptyString => EmptyString
  | String c s' => if Ascii.eqb c "/" then lstrip_slash s' else s
  end.

(** [s.rstrip("/")] *)
Fixpoint rstrip_slash (s : string) : string :=
  match s with
  | EmptyString => EmptyString
  | String c s' =>
      match rstrip_slash s' with
      | EmptyString => if Ascii.eqb c "/" then EmptyString else String c EmptyString
      | r => String c r
      end
  end.

(** [Config.get_api_url(endpoint)] *)
Definition get_api_url (HCP_BASE_URL endpoint : string) : string :=
  let base := rstrip_slash HCP_BASE_URL in
  let endpoint := lstrip_slash endpoint in
  base +:+ "/" +:+ endpoint.

(** The [json] argument of a request. *)
Inductive JsonData :=
  | NoData
  | CustomerData (customer_data : CustomerPayload)
  | AddressData (address_data : gmap string string)
  | LeadData (lead_data : LeadPayload).

(** The arguments of [session.request]; [params] is the [q] of a search. *)
Record Request := mkRequest {
  method : string;
  url : string;
  params : option string;
  json_data : JsonData
}.

(** The JSON object of a response. [fields] has every key of the object, with
    its value when that is a string and [None] otherwise; the other three
    components are what the client reads under the keys [customers],
    [address] and [addresses]: a list key may be missing ([None]) or null
    ([Some None]). *)
Record Response := mkResponse {
  fields : gmap string (option string);
  customers : option (option (list Customer));
  address : option (gmap string (option string));
  addresses : option (option (list (gmap string (option string))))
}.

(** The outcome of one run of the body of the [try] block. *)
Inductive Attempt :=
  | Continue
  | HTTPError (e : string)
  | RequestException (e : string)
  | Unexpected (e : string)
  | Returned (response : Response).

(** The outcome of [_request]: the response, an [HCPAPIError], or the
    exception the loop did not catch. *)
Inductive Outcome :=
  | Body (response : Response)
  | HCPAPIError (msg : string)
  | Propagated (msg : string).

(** The state of the wire: the server, the attempts made so far with their
    outcomes, and the seconds [_request] slept between attempts. *)
Record Wire (St : Type) := mkWire {
  server : St;
  sent : list (Request * Attempt);
  pauses : list nat
}.

Arguments mkWire {St}.
Arguments server {St}.
Arguments sent {St}.
Arguments pauses {St}.

Section Transport.

Context {St : Type}.
Variable HCP_BASE_URL : string.
Variable session_request : Request -> St -> Attempt * St.

(** The loop [for attempt in range(retry_count)], with [remaining] attempts
    to go: the current one is attempt [retry_count - remaining]. *)
Fixpoint attempts_from (retry_count remaining : nat) (request : Request)
    (w : Wire St) : Outcome * Wire St :=
  match remaining with
  | O =>
      (HCPAPIError ("Request failed after " +:+ Text.of_nat retry_count +:+ " attempts"), w)
  | S remaining' =>
      let attempt := (retry_count - remaining)%nat in
      let '(outcome, server') := session_request request (server w) in
      let w' := mkWire server' (sent w ++ [(request, outcome)]) (pauses w) in
      match outcome with
      | Continue => attempts_from retry_count remaining' request w'
      | HTTPError e =>
          if (attempt =? retry_count - 1)%nat
          then (HCPAPIError ("HTTP error after " +:+ Text.of_nat retry_count
                             +:+ " attempts: " +:+ e), w')
          else attempts_from retry_count remaining' request
                 (mkWire server' (sent w') (pauses w' ++ [2 ^ attempt]%nat))
      | RequestException e =>
          if (attempt =? retry_count - 1)%nat
          then (HCPAPIError ("Request failed after " +:+ Text.of_nat retry_count
                             +:+ " attempts: " +:+ e), w')
          else attempts_from retry_count remaining' request
                 (mkWire server' (sent w') (pauses w' ++ [2 ^ attempt]%nat))
      | Unexpected e => (Propagated e, w')
      | Returned response => (Body response, w')
      end
  end.

(** [_request(method, endpoint, params, json_data, retry_count)] *)
Definition _request (method endpoint : string) (params : option string)
    (json_data : JsonData) (retry_count : nat) (w : Wire St) : Outcome * Wire St :=
  let url := get_api_url HCP_BASE_URL endpoint in
  attempts_from retry_count retry_count (mkRequest method url params json_data) w.

(** [response.get(key, [])] followed by [len(...)], for a list key. *)
Definition list_of {A} (value : option (option (list A))) : res (list A) :=
  match value with
  | None => Ok []
  | Some (Some l) => Ok l
  | Some None => Raise "object of type 'NoneType' has no len()"
  end.

(** An id as an f-string prints it. *)
Definition formatted_id (customer_id : option string) : string :=
  match customer_id with
  | Some s => s
  | None => "None"
  end.

(** [response if response and response.get("id") else None] *)
Definition record_with_id (response : Response) : option (gmap string (option string)) :=
  if truthy (dict_get (fields response) "id") then Some (fields response) else None.

Definition search_customers (query : string) (w : Wire St)
    : res (list Customer) * Wire St :=
  match _request "GET" "/customers" (Some query) NoData 3 w with
  | (Body response, w') => (list_of (customers response), w')
  | (HCPAPIError _, w') => (Ok [], w')
  | (Propagated e, w') => (Raise e, w')
  end.

Definition create_customer (customer_data : CustomerPayload) (w : Wire St)
    : res (option (gmap string (option string))) * Wire St :=
  match _request "POST" "/customers" None (CustomerData customer_data) 3 w with
  | (Body response, w') => (Ok (record_with_id response), w')
  | (HCPAPIError _, w') => (Ok None, w')
  | (Propagated e, w') => (Raise e, w')
  end.

Definition add_customer_address (customer_id : option string)
    (address_data : gmap string string) (w : Wire St)
    : res (option (gmap string (option string))) * Wire St :=
  match _request "POST" ("/customers/" +:+ formatted_id customer_id +:+ "/addresses")
          None (AddressData address_data) 3 w with
  | (Body response, w') => (Ok (address response), w')
  | (HCPAPIError _, w') => (Ok None, w')
  | (Propagated e, w') => (Raise e, w')
  end.

Definition get_customer_addresses (customer_id : string) (w : Wire St)
    : res (list (gmap string (option string))) * Wire St :=
  match _request "GET" ("/customers/" +:+ customer_id +:+ "/addresses") None NoData 3 w with
  | (Body response, w') => (list_of (addresses response), w')
  | (HCPAPIError _, w') => (Ok [], w')
  | (Propagated e, w') => (Raise e, w')
  end.

Definition get_address_by_id (customer_id address_id : string) (w : Wire St)
    : res (option (gmap string (option string))) * Wire St :=
  match _request "GET" ("/customers/" +:+ customer_id +:+ "/addresses/" +:+ address_id)
          None NoData 3 w with
  | (Body response, w') => (Ok (Some (fields response)), w')
  | (HCPAPIError _, w') => (Ok None, w')
  | (Propagated e, w') => (Raise e, w')
  end.

Definition create_lead (lead_data : LeadPayload) (w : Wire St)
    : res (option (gmap string (option string))) * Wire St :=
  match _request "POST" "/leads" None (LeadData lead_data) 3 w with
  | (Body response, w') => (Ok (record_with_id response), w')
  | (HCPAPIError _, w') => (Ok None, w')
  | (Propagated e, w') => (Raise e, w')
  end.

(** The client, as the workflow uses it. *)
Definition client : Directory (Wire St) := {|
  HCPClient.search_customers := search_customers;
  HCPClient.create_customer := create_customer;
  HCPClient.add_customer_address := add_customer_address;
  HCPClient.get_customer_addresses := get_customer_addresses;
  HCPClient.get_address_by_id := get_address_by_id;
  HCPClient.create_lead := create_lead
|}.

End Transport.

End Client.

(** An attempt the loop of [_request] goes on after: a 429 or one of the two
    exceptions it catches. *)
Definition retried (outcome : Client.Attempt) : bool :=
  match outcome with
  | Client.Continue | Client.HTTPError _ | Client.RequestException _ => true
  | _ => false
  end.

(** A server that answers every request with status 500. *)
Definition down : Client.Request -> unit -> Client.Attempt * unit :=
  fun _ st => (Client.HTTPError "500 Server Error", st).

(** A server that is rate limiting at first, and answers the third attempt
    with the record of a new customer. *)
Definition busy : Client.Request -> nat -> Client.Attempt * nat :=
  fun _ n =>
    (if (n <? 2)%nat then Client.Continue
     else Client.Returned
            (Client.mkResponse (<["id" := Some "cus_new"]> ∅) None None None),
     S n).

(** What the outcome of [_request] says about the attempts [log] it made of
    [request]: a response is what the last attempt returned, an exception
    that is let through is what the last attempt raised, and in both cases
    every attempt before was one the loop goes on after; an [HCPAPIError]
    comes after [retry_count] such attempts. *)
Definition explains (retry_count : nat) (request : Client.Request)
    (log : list (Client.Request * Client.Attempt)) (outcome : Client.Outcome) : Prop :=
  match outcome with
  | Client.Body response =>
      exists before,
        log = before ++ [(request, Client.Returned response)] /\
        List.Forall (fun a => retried a.2 = true) before
  | Client.HCPAPIError _ =>
      length log = retry_count /\ List.Forall (fun a => retried a.2 = true) log
  | Client.Propagated e =>
      exists before,
        log = before ++ [(request, Client.Unexpected e)] /\
        List.Forall (fun a => retried a.2 = true) before
  end.

(** ** What a run costs on the wire *)

(** [m] moves a measure [cost] of the directory's state by [n] for every
    request it sends, as [R] compares: at most ([le]) or exactly ([eq]). *)
Definition spends {St A} (R : nat -> nat -> Prop) (cost : St -> nat) (n : nat)
    (m : M St A) : Prop :=
  forall s, exists evs,
    (m s).2.2 = s.2 ++ evs /\ R (cost (m s).2.1) (cost s.1 + n * length evs)%nat.

(** Every method of the directory [d] moves [cost] by [n], as [R] compares. *)
Definition priced {St} (R : nat -> nat -> Prop) (cost : St -> nat) (n : nat)
    (d : Directory St) : Prop :=
  (forall q st, R (cost (search_customers d q st).2) (cost st + n)%nat) /\
  (forall p st, R (cost (create_customer d p st).2) (cost st + n)%nat) /\
  (forall c a st, R (cost (add_customer_address d c a st).2) (cost st + n)%nat) /\
  (forall c st, R (cost (get_customer_addresses d c st).2) (cost st + n)%nat) /\
  (forall c a st, R (cost (get_address_by_id d c a st).2) (cost st + n)%nat) /\
  (forall p st, R (cost (create_lead d p st).2) (cost st + n)%nat).

(** A directory that finds nobody and creates no customer. *)
Definition mute {St} (d : Directory St) : Prop :=
  (forall q st, (search_customers d q st).1 = Ok []) /\
  (forall p st, (create_customer d p st).1 = Ok None).

(** ** The errors of a run *)



(** ** Defaults of the addresses sent *)

(** The state the workflow sends for a parsed address: its own, or the
    configured default. *)
Definition state_or_default (cfg : Config) (parsed_address : gmap string (option string))
    : string :=
  if truthy (dict_get parsed_address "state")
  then or_empty (dict_get parsed_address "state") else DEFAULT_STATE cfg.

(** What a request carries for the address [parsed_address] of a submission:
    the address of a created customer has the country [US]; an added address
    is a service address with the country [US] and a state; the address of a
    lead has a country. *)
Definition address_defaults (cfg : Config) (parsed_address : gmap string (option string))
    (ev : Call * Answer) : Prop :=
  match ev.1 with
  | CreateCustomer p =>
      forall a, In a (default [] (cp_addresses p)) -> a !! "country" = Some "US"
  | AddCustomerAddress _ a =>
      a !! "type" = Some "service" /\ a !! "country" = Some "US" /\
      a !! "state" = Some (state_or_default cfg parsed_address)
  | CreateLead p =>
      forall a, lp_address p = Some a ->
        is_Some (a !! "country") /\
        (lp_address_id p = None -> 
         a !! "country" = Some "US" /\
         a !! "state" = Some (state_or_default cfg parsed_address))
  | _ => True
  end.


(** * Theorems *)

(** ** The matcher stays inside its window *)

Section MatcherFacts.

Variables a b : list ascii.

Lemma row_ok_empty n blo bhi : row_ok n blo bhi ∅.
Proof. intros j v H. rewrite lookup_empty in H. discriminate. Qed.

Lemma prev_len_bound n blo bhi j2len j :
  row_ok n blo bhi j2len -> (blo <= j)%nat ->
  (Difflib.prev_len j2len j <= n /\ Difflib.prev_len j2len j <= j - blo)%nat.
Proof.
  intros Hrow Hj. destruct j as [|j']; simpl; [lia|].
  destruct (j2len !! j') as [v|] eqn:E; simpl; [|lia].
  destruct (Hrow _ _ E) as (? & ? & ? & ?). lia.
Qed.

Lemma scan_row_ok alo ahi blo bhi i js : forall j2len newj2len best,
  (alo <= i < ahi)%nat ->
  row_ok (i - alo) blo bhi j2len ->
  row_ok (i + 1 - alo) blo bhi newj2len ->
  in_window alo ahi blo bhi best ->
  row_ok (i + 1 - alo) blo bhi (Difflib.scan_row js i blo bhi j2len newj2len best).1 /\
  in_window alo ahi blo bhi (Difflib.scan_row js i blo bhi j2len newj2len best).2.
Proof.
  induction js as [|j js IH]; intros j2len newj2len best Hi Hold Hnew Hbest; simpl.
  - auto.
  - destruct (j <? blo)%nat eqn:Hlo; [apply IH; auto|].
    destruct (bhi <=? j)%nat eqn:Hhi; [simpl; auto|].
    apply Nat.ltb_ge in Hlo. apply Nat.leb_gt in Hhi.
    destruct (prev_len_bound _ _ _ _ j Hold Hlo) as [Hk1 Hk2].
    apply IH; auto.
    + intros j0 v. rewrite lookup_insert. case_decide as Hd.
      * intros [= <-]. subst j0. lia.
      * apply Hnew.
    + destruct (_ <? _)%nat; [|exact Hbest].
      unfold in_window; simpl. lia.
Qed.

Lemma scan_rows_ok alo ahi blo bhi rows : forall i0 j2len best,
  rows = seq i0 (length rows) ->
  (alo <= i0)%nat -> (i0 + length rows <= ahi)%nat ->
  row_ok (i0 - alo) blo bhi j2len ->
  in_window alo ahi blo bhi best ->
  in_window alo ahi blo bhi (Difflib.scan_rows a b rows blo bhi j2len best).
Proof.
  induction rows as [|i rows IH]; intros i0 j2len best Hseq Hlo Hhi Hrow Hbest; simpl.
  - exact Hbest.
  - simpl in Hseq. injection Hseq as -> Hseq. simpl in Hhi.
    set (js := match a !! i0 with Some c => Difflib.b2j b c | None => [] end).
    destruct (scan_row_ok alo ahi blo bhi i0 js j2len ∅ best) as [H1 H2];
      [lia | exact Hrow | apply row_ok_empty | exact Hbest |].
    destruct (Difflib.scan_row js i0 blo bhi j2len ∅ best) as [new best'].
    simpl in H1, H2.
    apply (IH (S i0)); auto; try lia.
    replace (S i0 - alo)%nat with (i0 + 1 - alo)%nat by lia. exact H1.
Qed.

Lemma extend_left_ok alo ahi blo bhi n : forall m,
  in_window alo ahi blo bhi m ->
  in_window alo ahi blo bhi (Difflib.extend_left a b n alo blo m).
Proof.
  induction n as [|n IH]; intros m Hm; simpl; [exact Hm|].
  destruct (_ && _) eqn:E; [|exact Hm].
  apply andb_prop in E as [E _]. apply andb_prop in E as [E1 E2].
  apply Nat.ltb_lt in E1, E2. apply IH.
  destruct Hm as (? & ? & ? & ?). unfold in_window; simpl. lia.
Qed.

Lemma extend_right_ok alo ahi blo bhi n : forall m,
  in_window alo ahi blo bhi m ->
  in_window alo ahi blo bhi (Difflib.extend_right a b n ahi bhi m).
Proof.
  induction n as [|n IH]; intros m Hm; simpl; [exact Hm|].
  destruct (_ && _) eqn:E; [|exact Hm].
  apply andb_prop in E as [E _]. apply andb_prop in E as [E1 E2].
  apply Nat.ltb_lt in E1, E2. apply IH.
  destruct Hm as (? & ? & ? & ?). unfold in_window; simpl. lia.
Qed.

Lemma find_longest_match_in_window alo ahi blo bhi :
  (alo <= ahi)%nat -> (blo <= bhi)%nat ->
  in_window alo ahi blo bhi (Difflib.find_longest_match a b alo ahi blo bhi).
Proof.
  intros Ha Hb. unfold Difflib.find_longest_match.
  apply extend_right_ok, extend_left_ok.
  apply (scan_rows_ok alo ahi blo bhi _ alo).
  - rewrite length_seq. reflexivity.
  - lia.
  - rewrite length_seq. lia.
  - apply row_ok_empty.
  - unfold in_window; simpl. lia.
Qed.

Lemma matched_le fuel : forall alo ahi blo bhi,
  (alo <= ahi)%nat -> (blo <= bhi)%nat ->
  (Difflib.matched a b fuel alo ahi blo bhi <= Nat.min (ahi - alo) (bhi - blo))%nat.
Proof.
  induction fuel as [|fuel IH]; intros alo ahi blo bhi Ha Hb; simpl; [lia|].
  pose proof (find_longest_match_in_window alo ahi blo bhi Ha Hb) as Hw.
  destruct (Difflib.find_longest_match a b alo ahi blo bhi) as [i j k].
  destruct Hw as (H1 & H2 & H3 & H4). simpl in *.
  destruct (k =? 0)%nat; [lia|].
  assert (Hl : ((if (alo <? i)%nat && (blo <? j)%nat
                 then Difflib.matched a b fuel alo i blo j else 0)
                <= Nat.min (i - alo) (j - blo))%nat).
  { destruct ((alo <? i)%nat && (blo <? j)%nat); [apply IH; lia | lia]. }
  assert (Hr : ((if (i + k <? ahi)%nat && (j + k <? bhi)%nat
                 then Difflib.matched a b fuel (i + k) ahi (j + k) bhi else 0)
                <= Nat.min (ahi - (i + k)) (bhi - (j + k)))%nat).
  { destruct ((i + k <? ahi)%nat && (j + k <? bhi)%nat); [apply IH; lia | lia]. }
  lia.
Qed.

(** Fuel above the width of the window is never used up. *)
Lemma matched_fuel f1 : forall f2 alo ahi blo bhi,
  (alo <= ahi)%nat -> (blo <= bhi)%nat ->
  (ahi - alo < f1)%nat -> (ahi - alo < f2)%nat ->
  Difflib.matched a b f1 alo ahi blo bhi = Difflib.matched a b f2 alo ahi blo bhi.
Proof.
  induction f1 as [|f1 IH]; intros f2 alo ahi blo bhi Ha Hb H1 H2; [lia|].
  destruct f2 as [|f2]; [lia|]. simpl.
  pose proof (find_longest_match_in_window alo ahi blo bhi Ha Hb) as Hw.
  destruct (Difflib.find_longest_match a b alo ahi blo bhi) as [i j k].
  destruct Hw as (W1 & W2 & W3 & W4). simpl in *.
  destruct (k =? 0)%nat eqn:Hk; [reflexivity|].
  apply Nat.eqb_neq in Hk.
  f_equal; [f_equal|].
  - destruct ((alo <? i)%nat && (blo <? j)%nat) eqn:E; [|reflexivity].
    apply andb_prop in E as [E1 E2]. apply Nat.ltb_lt in E1, E2.
    apply IH; lia.
  - destruct ((i + k <? ahi)%nat && (j + k <? bhi)%nat) eqn:E; [|reflexivity].
    apply andb_prop in E as [E1 E2]. apply Nat.ltb_lt in E1, E2.
    apply IH; lia.
Qed.

Lemma matches_le : (2 * Difflib.matches a b <= length a + length b)%nat.
Proof.
  unfold Difflib.matches.
  pose proof (matched_le (S (length a)) 0 (length a) 0 (length b)). lia.
Qed.

End MatcherFacts.

(** [ratio] is a number of [[0, 1]]. *)
Lemma ratio_range x y : (0 <= Difflib.ratio x y <= 1)%Q.
Proof.
  unfold Difflib.ratio.
  set (a := list_ascii_of_string x). set (b := list_ascii_of_string y).
  destruct (length a + length b =? 0)%nat eqn:E.
  - split; discriminate.
  - apply Nat.eqb_neq in E.
    pose proof (matches_le a b) as H.
    unfold Qle; simpl. split; [lia|].
    rewrite Z.mul_1_r, Z.mul_1_l.
    lia.
Qed.

(** ** C1: the overall address similarity *)

(** On two addresses that share a zip and know nothing else, the code
    scores 0.4 and the renormalized formula 1. *)
Lemma compare_addresses_zip_only :
  (Utils.compare_addresses zip_only zip_only == 0.4)%Q /\
  (renormalized_score zip_only zip_only == 1)%Q.
Proof. split; vm_compute; reflexivity. Qed.

(** C1, counterexample: for two addresses of which only the zip is known,
    [compare_addresses] is not the weighted sum divided by the weights of the
    comparable fields. *)
Lemma compare_addresses_not_renormalized :
  ~ (Utils.compare_addresses zip_only zip_only == renormalized_score zip_only zip_only)%Q.
Proof.
  destruct compare_addresses_zip_only as [Hc Hr]. rewrite Hc, Hr.
  intros H. vm_compute in H. discriminate.
Qed.

Lemma dict_truthy_false_empty {V} (d : gmap string V) : dict_truthy d = false -> d = ∅.
Proof.
  unfold dict_truthy. intros H. apply negb_false_iff, bool_decide_eq_true in H.
  by apply map_to_list_empty_iff.
Qed.

Lemma field_value_empty field : Utils.field_value ∅ field = "".
Proof. unfold Utils.field_value, dict_get. rewrite lookup_empty. reflexivity. Qed.

Lemma weighted_scores_terms addr1 addr2 :
  (Utils.qsum (Utils.weighted_scores addr1 addr2) ==
   weighted_term addr1 addr2 "street" + weighted_term addr1 addr2 "city"
   + weighted_term addr1 addr2 "state" + weighted_term addr1 addr2 "zip")%Q.
Proof.
  unfold Utils.weighted_scores, weighted_term, comparable, field_score, Utils.fields.
  cbn [flat_map].
  destruct (nonempty (Utils.field_value addr1 "street") && _);
  destruct (nonempty (Utils.field_value addr1 "city") && _);
  destruct (nonempty (Utils.field_value addr1 "state") && _);
  destruct (nonempty (Utils.field_value addr1 "zip") && _);
  cbn [app Utils.qsum fold_left]; ring.
Qed.

Lemma field_scores_nil addr1 addr2 :
  Utils.field_scores addr1 addr2 = [] <-> Utils.weighted_scores addr1 addr2 = [].
Proof.
  unfold Utils.field_scores, Utils.weighted_scores, Utils.fields. cbn [flat_map].
  destruct (nonempty (Utils.field_value addr1 "street")),
    (nonempty (Utils.field_value addr2 "street")),
    (nonempty (Utils.field_value addr1 "city")),
    (nonempty (Utils.field_value addr2 "city")),
    (nonempty (Utils.field_value addr1 "state")),
    (nonempty (Utils.field_value addr2 "state")),
    (nonempty (Utils.field_value addr1 "zip")),
    (nonempty (Utils.field_value addr2 "zip")); cbn;
  repeat match goal with |- context [if ?c then _ else _] => destruct c end;
  cbn; split; congruence.
Qed.

(** C1 (amended): the overall score is the weighted sum of the ratios of the
    fields that are non-empty on both sides, divided by the sum of all four
    weights, 0.4 + 0.3 + 0.2 + 0.1; it is 0.0 when no field is comparable. *)
Theorem compare_addresses_weighted addr1 addr2 :
  (Utils.compare_addresses addr1 addr2 ==
     (weighted_term addr1 addr2 "street" + weighted_term addr1 addr2 "city"
      + weighted_term addr1 addr2 "state" + weighted_term addr1 addr2 "zip")
     / (0.4 + 0.3 + 0.2 + 0.1))%Q
  /\ (List.filter (comparable addr1 addr2) Utils.fields = [] ->
      Utils.compare_addresses addr1 addr2 = 0%Q).
Proof.
  assert (Hempty : forall d1 d2 f, d1 = ∅ \/ d2 = ∅ -> weighted_term d1 d2 f = 0%Q).
  { intros d1 d2 f [-> | ->]; unfold weighted_term, comparable;
      rewrite field_value_empty; cbn; [reflexivity|].
    by rewrite andb_false_r. }
  pose proof (weighted_scores_terms addr1 addr2) as Hsum.
  pose proof (field_scores_nil addr1 addr2) as Hnil.
  split.
  - unfold Utils.compare_addresses.
    destruct (negb (dict_truthy addr1) || negb (dict_truthy addr2)) eqn:Hd.
    + assert (He : addr1 = ∅ \/ addr2 = ∅).
      { apply orb_prop in Hd as [H | H]; apply negb_true_iff in H;
          [left | right]; by apply dict_truthy_false_empty. }
      rewrite !(Hempty _ _ _ He). reflexivity.
    + destruct (Utils.field_scores addr1 addr2) eqn:Hfs.
      * assert (Hws : Utils.weighted_scores addr1 addr2 = []) by (by apply Hnil).
        rewrite Hws in Hsum. rewrite <- Hsum. reflexivity.
      * destruct (Utils.weighted_scores addr1 addr2) eqn:Hws.
        -- rewrite <- Hsum. reflexivity.
        -- rewrite <- Hsum. unfold Utils.weights_total.
           apply Qmult_comp; [reflexivity|]. apply Qinv_comp. ring.
  - intros Hf. unfold Utils.compare_addresses.
    assert (Hws : Utils.weighted_scores addr1 addr2 = []).
    { revert Hf. unfold Utils.weighted_scores, Utils.fields, comparable.
      cbn [List.filter flat_map].
      repeat match goal with
             | |- context [if ?c then _ else _] => destruct c
             end; cbn; congruence. }
    rewrite Hws.
    destruct (negb (dict_truthy addr1) || negb (dict_truthy addr2)); [reflexivity|].
    destruct (Utils.field_scores addr1 addr2); reflexivity.
Qed.

(** ** C6: phone normalization *)

(** C6, counterexample: the empty raw string has no digit, a length the rules
    answer with a failure and a warning; the code returns without one. *)
Lemma normalize_phone_empty_silent :
  Utils.normalize_phone "" "415" = (None, []) /\
  phone_rules "" "415" = (None, ["Invalid phone number format:  (0 digits)"]) /\
  Utils.normalize_phone "" "415" <> phone_rules "" "415".
Proof. repeat split. discriminate. Qed.

(** C6 (amended): an empty raw string is absent and logs nothing; any other
    raw string goes through the rules on its digits, in order. *)
Theorem normalize_phone_rules phone default_area_code :
  let digits := Text.only_digits phone in
  let n := String.length digits in
  let result := Utils.normalize_phone phone default_area_code in
  (phone = "" -> result = (None, [])) /\
  (n = 10%nat -> result = (Some ("+1" +:+ digits), [])) /\
  (n = 11%nat -> String.prefix "1" digits = true ->
   result = (Some ("+" +:+ digits), [])) /\
  (n = 7%nat -> result = (Some ("+1" +:+ default_area_code +:+ digits), [])) /\
  ((11 < n)%nat ->
   result =
     (Some ("+1" +:+ Text.last_n 10 digits),
      ["Phone number too long (" +:+ Text.of_nat n +:+ " digits), using last 10: "
       +:+ Text.last_n 10 digits])) /\
  (phone <> "" -> n <> 10%nat -> n <> 7%nat -> (n <= 11)%nat ->
   ~ (n = 11%nat /\ String.prefix "1" digits = true) ->
   result =
     (None,
      ["Invalid phone number format: " +:+ phone +:+ " (" +:+ Text.of_nat n
       +:+ " digits)"])).
Proof.
  intros digits n result.
  assert (Hne : n <> 0%nat -> nonempty phone = true).
  { intros Hn. destruct phone; [subst n digits; simpl in Hn; lia | reflexivity]. }
  subst result. unfold Utils.normalize_phone. fold digits. fold n.
  repeat split.
  - intros ->. reflexivity.
  - intros Hn. rewrite Hne by lia. rewrite Hn. reflexivity.
  - intros Hn Hp. rewrite Hne by lia. rewrite Hn, Hp. reflexivity.
  - intros Hn. rewrite Hne by lia. rewrite Hn. reflexivity.
  - intros Hn. rewrite Hne by lia. simpl negb. cbv iota.
    destruct (n =? 10)%nat eqn:E1; [apply Nat.eqb_eq in E1; lia|].
    destruct (n =? 11)%nat eqn:E2; [apply Nat.eqb_eq in E2; lia|].
    destruct (n =? 7)%nat eqn:E3; [apply Nat.eqb_eq in E3; lia|].
    apply Nat.ltb_lt in Hn. rewrite Hn. reflexivity.
  - intros Hp H10 H7 Hle H11.
    assert (Hph : nonempty phone = true).
    { destruct phone; [congruence | reflexivity]. }
    rewrite Hph. simpl negb. cbv iota.
    apply Nat.eqb_neq in H10, H7. rewrite H10, H7.
    destruct ((n =? 11)%nat && String.prefix "1" digits) eqn:E.
    + apply andb_prop in E as [E1 E2]. apply Nat.eqb_eq in E1. tauto.
    + assert (Hlt : (11 <? n)%nat = false) by (apply Nat.ltb_ge; lia).
      rewrite Hlt. reflexivity.
Qed.

(** ** C2: the address term of candidate scoring *)

Lemma py_max_add score x : (0 <= x)%Q -> (py_max score (score + x) == score + x)%Q.
Proof.
  intros Hx. unfold py_max, Qgt_bool.
  destruct (Qle_bool (score + x) score) eqn:E; simpl; [|reflexivity].
  apply Qle_bool_iff in E. apply Qle_antisym; [|exact E].
  rewrite <- (Qplus_0_r score) at 1. apply Qplus_le_r. exact Hx.
Qed.

Lemma qsum_from (xs : list Q) : forall acc,
  (fold_left Qplus xs acc == acc + Utils.qsum xs)%Q.
Proof.
  unfold Utils.qsum.
  induction xs as [|x xs IH]; intros acc; simpl.
  - ring.
  - rewrite IH, (IH (0 + x)%Q). ring.
Qed.

Lemma qsum_nonneg (xs : list Q) :
  List.Forall (fun x => 0 <= x)%Q xs -> (0 <= Utils.qsum xs)%Q.
Proof.
  intros H. unfold Utils.qsum.
  assert (G : forall acc, (0 <= acc)%Q -> (0 <= fold_left Qplus xs acc)%Q).
  { induction H as [|x xs Hx _ IH]; intros acc Hacc; simpl; [exact Hacc|].
    apply IH. apply Qle_trans with (0 + 0)%Q; [discriminate|].
    apply Qplus_le_compat; assumption. }
  apply G. discriminate.
Qed.

Lemma weighted_scores_nonneg addr1 addr2 :
  List.Forall (fun x => 0 <= x)%Q (Utils.weighted_scores addr1 addr2).
Proof.
  unfold Utils.weighted_scores. apply List.Forall_flat_map, List.Forall_forall.
  intros field _.
  destruct (nonempty (Utils.field_value addr1 field) && nonempty (Utils.field_value addr2 field));
    [|constructor].
  constructor; [|constructor].
  apply Qmult_le_0_compat; [apply ratio_range|].
  unfold Utils.weights. repeat (destruct (String.eqb _ _)); discriminate.
Qed.

Lemma compare_addresses_nonneg addr1 addr2 : (0 <= Utils.compare_addresses addr1 addr2)%Q.
Proof.
  unfold Utils.compare_addresses.
  destruct (negb (dict_truthy addr1) || negb (dict_truthy addr2)); [discriminate|].
  destruct (Utils.field_scores addr1 addr2); [discriminate|].
  pose proof (qsum_nonneg _ (weighted_scores_nonneg addr1 addr2)) as H.
  destruct (Utils.weighted_scores addr1 addr2) eqn:E; [discriminate|].
  apply Qle_shift_div_l; [reflexivity|]. rewrite Qmult_0_l. exact H.
Qed.

(** The loop [score = max(score, score + addr_similarity * 0.5)] adds the term
    of every address: the [max] never keeps the old score. *)
Lemma add_addresses_sums address addrs : forall score,
  (CustomerMatcher.add_addresses address addrs score
   == score + summed_address_term address addrs)%Q.
Proof.
  unfold CustomerMatcher.add_addresses, summed_address_term.
  induction addrs as [|a addrs IH]; intros score; simpl.
  - unfold Utils.qsum. simpl. ring.
  - rewrite IH. unfold Utils.qsum at 2. simpl. rewrite qsum_from.
    rewrite py_max_add.
    + unfold Utils.qsum. ring.
    + apply Qmult_le_0_compat; [apply compare_addresses_nonneg | discriminate].
Qed.

(** C2, at the failing input: with no name given, the candidate with two
    known addresses that each share only the zip scores 0.4, the sum of both
    terms, where half the best similarity is 0.2; it is therefore preferred to
    the candidate whose one address is the submitted one, which scores 0.25. *)
Theorem candidate_score_sums_addresses :
  (CustomerMatcher.candidate_score None (Some submitted) two_addresses == 0.4)%Q /\
  (best_address_term submitted [zip_only; zip_only] == 0.2)%Q /\
  (CustomerMatcher.candidate_score None (Some submitted) one_address == 0.25)%Q /\
  CustomerMatcher._select_best_match [one_address; two_addresses] None (Some submitted)
  = Ok two_addresses.
Proof.
  repeat split; vm_compute; reflexivity.
Qed.

(** ** The match result: C4, C5 and C9 *)

(** Unfolding the two monads. *)
Ltac unfold_M :=
  unfold mbind, mret, M_bind, M_ret, res_bind, res_ret, lift, call in *.

(** A run of [find_matching_customer] that returns is [resolve] on some two
    lists of candidates. *)
Lemma find_matching_customer_resolve {St} (hcp_client : Directory St)
    phone email name address is_existing s m s' :
  CustomerMatcher.find_matching_customer hcp_client phone email name address
    is_existing s = (Ok m, s') ->
  exists phone_matches email_matches,
    CustomerMatcher.resolve phone_matches email_matches phone email name address
      is_existing = Ok m.
Proof.
  unfold CustomerMatcher.find_matching_customer. unfold_M.
  intros H.
  destruct (truthy phone).
  - destruct (search_customers hcp_client (or_empty phone) s.1) as [[pm|msg] st1];
      [|discriminate].
    destruct (truthy email).
    + simpl in H.
      destruct (search_customers hcp_client (or_empty email) st1) as [[em|msg] st2];
        [|discriminate].
      apply (f_equal fst) in H. do 2 eexists. exact H.
    + apply (f_equal fst) in H. do 2 eexists. exact H.
  - destruct (truthy email).
    + destruct (search_customers hcp_client (or_empty email) s.1) as [[em|msg] st2];
        [|discriminate].
      apply (f_equal fst) in H. do 2 eexists. exact H.
    + apply (f_equal fst) in H. do 2 eexists. exact H.
Qed.

Lemma resolve_cases phone_matches email_matches phone email name address is_existing m :
  CustomerMatcher.resolve phone_matches email_matches phone email name address
    is_existing = Ok m ->
  (match_type m = "exact" /\ confidence m = 1%Q /\ should_create_new m = false) \/
  (exists best, match_type m = "partial" /\
     confidence m = CustomerMatcher._calculate_confidence best phone email name /\
     customer_data m = Some best /\
     should_create_new m = negb is_existing /\
     (is_existing = false -> customer_id m = None /\
        In CustomerMatcher.duplicate_warning (warnings m))) \/
  (match_type m = "none" /\ confidence m = 0%Q /\ customer_id m = None /\
   should_create_new m = true).
Proof.
  unfold CustomerMatcher.resolve. unfold mbind, res_bind.
  destruct (CustomerMatcher._find_exact_matches phone_matches email_matches)
    as [exact|msg]; [|discriminate].
  destruct exact as [|e exact].
  - destruct (CustomerMatcher._deduplicate_customers (phone_matches ++ email_matches))
      as [|c all].
    + intros [= <-]. right; right. auto.
    + destruct (CustomerMatcher._select_best_match (c :: all) name address)
        as [best|msg]; [|discriminate].
      destruct is_existing.
      * destruct (getitem best "id") as [i|msg]; [|discriminate].
        intros [= <-]. right; left. exists best. simpl. repeat split; discriminate.
      * intros [= <-]. right; left. exists best. simpl. repeat split.
        right. left. reflexivity.
  - destruct (CustomerMatcher._select_best_match (e :: exact) name address)
      as [best|msg]; [|discriminate].
    destruct (getitem best "id") as [i|msg]; [|discriminate].
    intros [= <-]. left. auto.
Qed.

Lemma calculate_confidence_range customer phone email name :
  (0 <= CustomerMatcher._calculate_confidence customer phone email name <= 1)%Q.
Proof.
  unfold CustomerMatcher._calculate_confidence, CustomerMatcher.name_similarity.
  pose proof (ratio_range (Text.lower (or_empty name))
                (Text.lower (CustomerMatcher.full_name customer))) as [Hlo Hhi].
  set (r := Difflib.ratio _ _) in *.
  destruct (truthy phone), (truthy email), (truthy name);
    repeat match goal with
           | |- context [if ?c then _ else _] => destruct c
           end; split; lra.
Qed.

(** C4: a returned match result that is exact has confidence 1.0 and does not
    ask for a new customer; one that is none has no customer id and asks
    for a new customer. *)
Theorem match_result_invariants {St} (hcp_client : Directory St)
    phone email name address is_existing s m s' :
  CustomerMatcher.find_matching_customer hcp_client phone email name address
    is_existing s = (Ok m, s') ->
  (match_type m = "exact" -> confidence m = 1%Q /\ should_create_new m = false) /\
  (match_type m = "none" -> customer_id m = None /\ should_create_new m = true).
Proof.
  intros Hrun.
  destruct (find_matching_customer_resolve _ _ _ _ _ _ _ _ _ Hrun) as (pm & em & Hres).
  destruct (resolve_cases _ _ _ _ _ _ _ _ Hres)
    as [(Ht & Hc & Hn) | [(best & Ht & _) | (Ht & _ & Hi & Hn)]];
    rewrite Ht; split; intros Heq; try discriminate Heq; auto.
Qed.

(** C4, witness: both searches find the same customer; the result is exact. *)
Lemma match_result_invariants_witness :
  confidence
    (mkMatchResult "exact" 1 (Some "C1") (Some ann) [] false) = 1%Q /\
  should_create_new
    (mkMatchResult "exact" 1 (Some "C1") (Some ann) [] false) = false.
Proof.
  refine (proj1 (match_result_invariants found_by_both (Some "+14155551234")
                   (Some "ann@example.com") (Some "Ann Lee") (Some submitted) false
                   (tt, []) _ (tt, [(SearchCustomers "+14155551234", Customers [ann]);
                                   (SearchCustomers "ann@example.com", Customers [ann])]) _) _).
  - vm_compute. reflexivity.
  - reflexivity.
Defined.

(** C5: the confidence of a returned match result lies in [[0, 1]]. *)
Theorem confidence_range {St} (hcp_client : Directory St)
    phone email name address is_existing s m s' :
  CustomerMatcher.find_matching_customer hcp_client phone email name address
    is_existing s = (Ok m, s') ->
  (0 <= confidence m <= 1)%Q.
Proof.
  intros Hrun.
  destruct (find_matching_customer_resolve _ _ _ _ _ _ _ _ _ Hrun) as (pm & em & Hres).
  destruct (resolve_cases _ _ _ _ _ _ _ _ Hres)
    as [(_ & Hc & _) | [(best & _ & Hc & _) | (_ & Hc & _)]]; rewrite Hc.
  - split; discriminate.
  - apply calculate_confidence_range.
  - split; discriminate.
Qed.

(** C5, witness: only the phone search finds the customer. *)
Lemma confidence_range_witness : (0 <= confidence phone_only_result <= 1)%Q.
Proof.
  apply (confidence_range found_by_phone (Some "+14155551234")
           (Some "ann@example.com") (Some "Ann Lee") (Some submitted) false
           (tt, []) phone_only_result
           (tt, [(SearchCustomers "+14155551234", Customers [ann]);
                 (SearchCustomers "ann@example.com", Customers [])])).
  vm_compute. reflexivity.
Defined.

(** C9: when the phone search returns exactly one customer, who has an id,
    the email search returns nobody and the form does not say existing, the
    result is partial, asks for a new customer, has no customer id, carries
    the candidate, and warns of a possible duplicate. *)
Theorem phone_only_match {St} (hcp_client : Directory St)
    phone email name address c s st1 :
  truthy phone = true ->
  truthy (dict_get (c_fields c) "id") = true ->
  search_customers hcp_client (or_empty phone) s.1 = (Ok [c], st1) ->
  (truthy email = true ->
   (search_customers hcp_client (or_empty email) st1).1 = Ok []) ->
  exists m s',
    CustomerMatcher.find_matching_customer hcp_client phone email name address
      false s = (Ok m, s') /\
    match_type m = "partial" /\
    should_create_new m = true /\
    customer_id m = None /\
    customer_data m = Some c /\
    In CustomerMatcher.duplicate_warning (warnings m).
Proof.
  intros Hphone Hid Hsearch Hemail.
  assert (Hres : forall em, em = [] ->
            CustomerMatcher.resolve [c] em phone email name address false
            = Ok (mkMatchResult "partial"
                    (CustomerMatcher._calculate_confidence c phone email name)
                    None (Some c)
                    [CustomerMatcher.partial_warning
                       ((if truthy phone
                            && CustomerMatcher._customer_has_phone c (or_empty phone)
                         then ["phone"] else [])
                        ++ (if truthy email
                               && CustomerMatcher._customer_has_email c (or_empty email)
                            then ["email"] else []));
                     CustomerMatcher.duplicate_warning]
                    true)).
  { intros em ->. unfold CustomerMatcher.resolve.
    cbn [CustomerMatcher._find_exact_matches mbind res_bind app].
    unfold CustomerMatcher._deduplicate_customers.
    cbn [CustomerMatcher.deduplicate_from]. rewrite Hid.
    replace (bool_decide (or_empty (dict_get (c_fields c) "id") ∈ (∅ : gset string)))
      with false by (symmetry; apply bool_decide_eq_false; set_solver).
    cbn. reflexivity. }
  unfold CustomerMatcher.find_matching_customer. unfold_M.
  rewrite Hphone, Hsearch.
  destruct (truthy email) eqn:He.
  - specialize (Hemail eq_refl). cbn [fst snd].
    destruct (search_customers hcp_client (or_empty email) st1) as [r st2].
    simpl in Hemail. subst r.
    do 2 eexists. split; [rewrite (Hres [] eq_refl); reflexivity|].
    cbn. repeat split; auto.
  - do 2 eexists. split; [rewrite (Hres [] eq_refl); reflexivity|].
    cbn. repeat split; auto.
Qed.

(** C9, witness: the stub where only the phone search finds [ann]. *)
Lemma phone_only_match_witness :
  exists m s',
    CustomerMatcher.find_matching_customer found_by_phone (Some "+14155551234")
      (Some "ann@example.com") (Some "Ann Lee") (Some submitted) false (tt, [])
    = (Ok m, s') /\
    match_type m = "partial" /\
    should_create_new m = true /\
    customer_id m = None /\
    customer_data m = Some ann /\
    In CustomerMatcher.duplicate_warning (warnings m).
Proof.
  apply (phone_only_match found_by_phone (Some "+14155551234")
           (Some "ann@example.com") (Some "Ann Lee") (Some submitted) ann
           (tt, []) tt).
  - reflexivity.
  - vm_compute. reflexivity.
  - vm_compute. reflexivity.
  - intros _. vm_compute. reflexivity.
Defined.

(** ** Traces of the workflow *)

Lemma appends_ret {St A} (P : Call * Answer -> Prop) (a : A) : appends P (mret a : M St A).
Proof. intros s. exists []. rewrite app_nil_r. split; [reflexivity | constructor]. Qed.

Lemma appends_lift {St A} (P : Call * Answer -> Prop) (r : res A) :
  appends P (lift r : M St A).
Proof. intros s. exists []. rewrite app_nil_r. split; [reflexivity | constructor]. Qed.

Lemma appends_call {St A} (P : Call * Answer -> Prop) c (answer : A -> Answer)
    (op : St -> res A * St) :
  (forall ans, P (c, ans)) -> appends P (call c answer op).
Proof.
  intros HP s. unfold call. destruct (op s.1) as [r st']. simpl.
  eexists. split; [reflexivity|]. constructor; [apply HP | constructor].
Qed.

Lemma appends_bind {St A B} (P : Call * Answer -> Prop) (m : M St A) (k : A -> M St B) :
  appends P m -> (forall a, appends P (k a)) -> appends P (m ≫= k).
Proof.
  intros Hm Hk s. unfold mbind, M_bind.
  destruct (Hm s) as (evs & Ht & Hevs).
  destruct (m s) as [[a|e] s1]; simpl in Ht.
  - destruct (Hk a s1) as (evs' & Ht' & Hevs').
    exists (evs ++ evs'). rewrite Ht', Ht, <- app_assoc.
    split; [reflexivity | by apply List.Forall_app].
  - exists evs. split; [exact Ht | exact Hevs].
Qed.

Lemma in_requests kind evs c ans :
  List.Forall (requests kind) evs -> In (c, ans) evs -> kind c = true.
Proof. intros H Hin. rewrite List.Forall_forall in H. exact (H _ Hin). Qed.

(** Searching is all [find_matching_customer] asks of the directory. *)
Lemma find_matching_customer_searches {St} (hcp_client : Directory St)
    phone email name address is_existing :
  appends (requests is_search)
    (CustomerMatcher.find_matching_customer hcp_client phone email name address
       is_existing).
Proof.
  unfold CustomerMatcher.find_matching_customer.
  apply appends_bind.
  - destruct (truthy phone); [apply appends_call; reflexivity | apply appends_ret].
  - intros pm. apply appends_bind.
    + destruct (truthy email); [apply appends_call; reflexivity | apply appends_ret].
    + intros em. apply appends_lift.
Qed.

Section WorkflowFacts.

Context {St : Type}.
Variable cfg : Config.
Variable re : Regex.
Variable format_percent : Q -> string.
Variable hcp_client : Directory St.

(** A run of [lead_address]: lookups, and where the address id and the
    address it returns come from. *)
Lemma lead_address_run m parsed_address customer_id new_address_id s :
  exists lookups,
    (LeadCreator.lead_address cfg hcp_client m parsed_address customer_id
       new_address_id s).2.2 = s.2 ++ lookups /\
    List.Forall (requests is_lookup) lookups /\
    forall address_id address,
      (LeadCreator.lead_address cfg hcp_client m parsed_address customer_id
         new_address_id s).1 = Ok (address_id, address) ->
      address_id_source parsed_address new_address_id lookups address_id /\
      address_source cfg m parsed_address lookups address.
Proof.
  unfold LeadCreator.lead_address, address_id_source, address_source.
  destruct (should_create_new m).
  { exists []. rewrite app_nil_r. split; [reflexivity|]. split; [constructor|].
    intros aid adr [= <- <-]. split; [by left | right; left; by split]. }
  unfold mbind, mret, M_bind, M_ret, call.
  repeat match goal with
         | |- context [if ?c then _ else _] => destruct c eqn:?
         | |- context [match ?x with _ => _ end] =>
             lazymatch x with
             | context [match _ with _ => _ end] => fail
             | context [if _ then _ else _] => fail
             | _ => destruct x eqn:?
             end
         end.
  all: cbn [fst snd].
  all: eexists; split;
         [rewrite <- ?app_assoc; first [reflexivity | symmetry; apply app_nil_r]|].
  all: split; [repeat constructor|].
  all: intros aid adr Heq; try discriminate Heq; injection Heq as <- <-.
  all: split.
  all: try (left; reflexivity).
  all: try (right; left; split; reflexivity).
  all: try (right; right; do 3 eexists; split; [|reflexivity];
            first [left; reflexivity | right; left; reflexivity]).
  all: right; right; do 3 eexists;
       (split; [reflexivity|]);
       (split; [left; reflexivity|]);
       (split; [eassumption | reflexivity]).
Qed.

(** A run of [file_lead]: lookups, then the lead request. *)
Lemma file_lead_filed form_data m parsed_address customer_id new_address_id s :
  exists rest,
    (LeadCreator.file_lead cfg format_percent hcp_client form_data m parsed_address
       customer_id new_address_id s).2.2 = s.2 ++ rest /\
    filed cfg m parsed_address customer_id new_address_id rest
      (LeadCreator.file_lead cfg format_percent hcp_client form_data m parsed_address
         customer_id new_address_id s).1.
Proof.
  unfold LeadCreator.file_lead.
  destruct (lead_address_run m parsed_address customer_id new_address_id s)
    as (lookups & Ht & Hl & Hsrc).
  unfold mbind, M_bind.
  destruct (LeadCreator.lead_address cfg hcp_client m parsed_address customer_id
              new_address_id s) as [[[address_id address_for_lead]|e] s1];
    simpl in Ht, Hsrc.
  - destruct (Hsrc _ _ eq_refl) as [Hid Hadr].
    unfold LeadCreator._create_lead_with_job_type, mbind, mret, M_bind, M_ret, call.
    set (lead := LeadCreator.lead_payload cfg customer_id form_data _ _ _ _).
    assert (Hlead_id :
              address_id_source parsed_address new_address_id lookups (lp_address_id lead)).
    { subst lead. simpl. destruct (truthy address_id); [exact Hid | by left]. }
    assert (Hlead_adr : address_source cfg m parsed_address lookups (lp_address lead)).
    { subst lead. simpl. destruct address_for_lead as [a|]; [|by left].
      destruct (dict_truthy a); [exact Hadr | by left]. }
    destruct (create_lead hcp_client lead s1.1) as [[d|e] st'] eqn:E; simpl.
    + exists (lookups ++ [(CreateLead lead, Record d)]).
      split; [destruct (negb _); simpl; rewrite Ht, <- app_assoc; reflexivity|].
      exists lookups. split; [exact Hl|]. right. exists lead, (Record d).
      repeat split; try assumption. destruct (truthy (LeadCreator.id_of d)); reflexivity.
    + exists (lookups ++ [(CreateLead lead, Fault e)]).
      split; [rewrite Ht, <- app_assoc; reflexivity|].
      exists lookups. split; [exact Hl|]. right. exists lead, (Fault e).
      repeat split; assumption.
  - exists lookups. split; [exact Ht|]. exists lookups. split; [exact Hl|].
    left. split; [reflexivity | by exists e].
Qed.

(** A run of the address step for a matched customer. *)
Lemma add_address_if_new_added m parsed_address s :
  (exists e,
     (LeadCreator.add_address_if_new cfg hcp_client m parsed_address s).2.2
     = s.2 ++ [(AddCustomerAddress (customer_id m)
                  (LeadCreator.service_address cfg parsed_address), Fault e)] /\
     (LeadCreator.add_address_if_new cfg hcp_client m parsed_address s).1 = Raise e) \/
  (exists adds new_address_id,
     (LeadCreator.add_address_if_new cfg hcp_client m parsed_address s).2.2
     = s.2 ++ adds /\
     (LeadCreator.add_address_if_new cfg hcp_client m parsed_address s).1
     = Ok new_address_id /\
     added cfg m parsed_address adds new_address_id).
Proof.
  assert (Hnone : forall none : M St (option string), none = mret None ->
            (exists e,
               (none s).2.2
               = s.2 ++ [(AddCustomerAddress (customer_id m)
                            (LeadCreator.service_address cfg parsed_address), Fault e)] /\
               (none s).1 = Raise e) \/
            (exists adds new_address_id,
               (none s).2.2 = s.2 ++ adds /\ (none s).1 = Ok new_address_id /\
               added cfg m parsed_address adds new_address_id)).
  { intros none ->. right. exists [], None.
    split; [simpl; by rewrite app_nil_r|]. split; [reflexivity | by left]. }
  unfold LeadCreator.add_address_if_new.
  destruct (customer_data m) as [customer|]; [|by apply Hnone].
  destruct (dict_truthy parsed_address && customer_truthy customer); [|by apply Hnone].
  destruct (CustomerMatcher.should_create_new_address customer parsed_address);
    [|by apply Hnone].
  unfold LeadCreator._add_address_to_customer.
  destruct (negb (dict_truthy parsed_address) || negb (any_values parsed_address));
    [by apply Hnone|].
  unfold mbind, mret, M_bind, M_ret, call.
  destruct (add_customer_address hcp_client (customer_id m) _ s.1) as [[d|e] st'];
    cbn [fst snd].
  - right. eexists _, _. split; [reflexivity|]. split; [reflexivity|].
    right. by exists d.
  - left. exists e. split; reflexivity.
Qed.

(** A run of [settle_customer]. *)
Lemma settle_customer_settled form_data m first_name last_name email phone
    parsed_address sms_consent s :
  exists rest,
    (LeadCreator.settle_customer cfg format_percent hcp_client form_data m first_name
       last_name email phone parsed_address sms_consent s).2.2 = s.2 ++ rest /\
    settled cfg m parsed_address
      (LeadCreator.customer_payload cfg first_name last_name email phone parsed_address
         sms_consent)
      rest
      (LeadCreator.settle_customer cfg format_percent hcp_client form_data m first_name
         last_name email phone parsed_address sms_consent s).1.
Proof.
  unfold LeadCreator.settle_customer, settled.
  destruct (should_create_new m).
  - unfold LeadCreator._create_customer, mbind, mret, M_bind, M_ret, call.
    set (customer := LeadCreator.customer_payload cfg _ _ _ _ _ _).
    destruct (create_customer hcp_client customer s.1) as [[d|e] st'] eqn:E; cbn [fst snd].
    + destruct (truthy (LeadCreator.id_of d)) eqn:Hid; cbn [negb].
      * set (s1 := (st', s.2 ++ [(CreateCustomer customer, Record d)])).
        destruct (file_lead_filed form_data m parsed_address (LeadCreator.id_of d) None s1)
          as (rest' & Ht & Hf).
        exists ((CreateCustomer customer, Record d) :: rest').
        split; [rewrite Ht; subst s1; simpl; rewrite <- app_assoc; reflexivity|].
        exists (Record d). rewrite Hid. exists rest'. split; [reflexivity | exact Hf].
      * exists [(CreateCustomer customer, Record d)]. split; [reflexivity|].
        exists (Record d). rewrite Hid. split; reflexivity.
    + exists [(CreateCustomer customer, Fault e)]. split; [reflexivity|].
      exists (Fault e). split; reflexivity.
  - unfold mbind, M_bind.
    destruct (add_address_if_new_added m parsed_address s)
      as [(e & Ht & Hr) | (adds & new_address_id & Ht & Hr & Hadded)];
      destruct (LeadCreator.add_address_if_new cfg hcp_client m parsed_address s)
        as [r s1]; simpl in Ht, Hr; subst r.
    + eexists. split; [exact Ht|]. left. exists e. split; reflexivity.
    + destruct (file_lead_filed form_data m parsed_address (customer_id m)
                  new_address_id s1) as (rest' & Ht' & Hf).
      exists (adds ++ rest'). split; [rewrite Ht', Ht, <- app_assoc; reflexivity|].
      right. exists adds, new_address_id, rest'.
      split; [reflexivity|]. split; [exact Hadded | exact Hf].
Qed.

(** [create_lead] is identity resolution, then [settle_customer]. *)
Lemma create_lead_body_phases form_data :
  LeadCreator.create_lead_body cfg re format_percent hcp_client form_data =
  (matching cfg re hcp_client form_data ≫= fun m =>
     LeadCreator.settle_customer cfg format_percent hcp_client form_data m
       (submitted_names form_data).1.1 (submitted_names form_data).1.2
       (submitted_email form_data) (submitted_phone cfg form_data)
       (LeadCreator.parsed_address_of cfg re form_data)
       (default false (fd_sms_consent form_data))).
Proof.
  unfold LeadCreator.create_lead_body, matching, submitted_names.
  destruct (negb (nonempty (or_empty (fd_name form_data))) && _); [reflexivity|].
  destruct (negb (nonempty (or_empty (fd_first_name form_data))) && _); reflexivity.
Qed.

(** Every run of [create_lead]: searches, and then either a fault, or a match
    result and what [settle_customer] leaves behind for it. *)
Lemma create_lead_shape form_data st :
  exists searches, List.Forall (requests is_search) searches /\
    ((exists e s1,
        matching cfg re hcp_client form_data (st, []) = (Raise e, s1) /\
        (LeadCreator.create_lead cfg re format_percent hcp_client form_data st).2.2
        = searches /\
        (LeadCreator.create_lead cfg re format_percent hcp_client form_data st).1
        = raised e) \/
     (exists m s1 rest outcome,
        matching cfg re hcp_client form_data (st, []) = (Ok m, s1) /\
        (LeadCreator.create_lead cfg re format_percent hcp_client form_data st).2.2
        = searches ++ rest /\
        (LeadCreator.create_lead cfg re format_percent hcp_client form_data st).1
        = final outcome /\
        settled cfg m (LeadCreator.parsed_address_of cfg re form_data)
          (new_customer cfg re form_data) rest outcome)).
Proof.
  unfold LeadCreator.create_lead. rewrite create_lead_body_phases.
  destruct (find_matching_customer_searches hcp_client (submitted_phone cfg form_data)
              (Some (submitted_email form_data)) (Some (submitted_names form_data).2)
              (Some (LeadCreator.parsed_address_of cfg re form_data))
              (says_existing form_data) (st, [])) as (searches & Ht & Hs).
  fold (matching cfg re hcp_client form_data) in Ht.
  exists searches. split; [exact Hs|].
  unfold mbind, M_bind.
  destruct (matching cfg re hcp_client form_data (st, [])) as [[m|e] s1] eqn:Hm;
    simpl in Ht.
  - right.
    destruct (settle_customer_settled form_data m (submitted_names form_data).1.1
                (submitted_names form_data).1.2 (submitted_email form_data)
                (submitted_phone cfg form_data)
                (LeadCreator.parsed_address_of cfg re form_data)
                (default false (fd_sms_consent form_data)) s1)
      as (rest & Ht' & Hset).
    destruct (LeadCreator.settle_customer _ _ _ _ _ _ _ _ _ _ _ s1) as [outcome s2].
    simpl in Ht', Hset.
    exists m, s1, rest, outcome. split; [reflexivity|].
    split; [destruct outcome; simpl; rewrite Ht', Ht; reflexivity|].
    split; [destruct outcome; reflexivity | exact Hset].
  - left. exists e, s1. split; [reflexivity|]. split; [exact Ht | reflexivity].
Qed.

End WorkflowFacts.

(** ** C3: faults *)

(** C3, counterexample: a fault of the client and a [KeyError] on a record
    without id give two different errors, each the text of its exception; the
    error is not a generic message. *)
Lemma fault_text_reaches_caller :
  error (LeadCreator.create_lead default_config no_regex percent
           (faulty "'list' object has no attribute 'get'") ann_form tt).1
  = Some "'list' object has no attribute 'get'" /\
  error (LeadCreator.create_lead default_config no_regex percent without_id ann_form tt).1
  = Some "'id'" /\
  error (LeadCreator.create_lead default_config no_regex percent
           (faulty "'list' object has no attribute 'get'") ann_form tt).1
  <> error (LeadCreator.create_lead default_config no_regex percent without_id
              ann_form tt).1.
Proof.
  split; [vm_compute; reflexivity|]. split; [vm_compute; reflexivity|].
  vm_compute. discriminate.
Qed.

Lemma stops_ret {St A} (a : A) : stops_at_fault (mret a : M St A).
Proof. intros s. exists []. rewrite app_nil_r. split; [reflexivity | left; constructor]. Qed.

Lemma stops_lift {St A} (r : res A) : stops_at_fault (lift r : M St A).
Proof. intros s. exists []. rewrite app_nil_r. split; [reflexivity | left; constructor]. Qed.

Lemma stops_call {St A} c (answer : A -> Answer) (op : St -> res A * St) :
  (forall a msg, answer a <> Fault msg) -> stops_at_fault (call c answer op).
Proof.
  intros Hans s. unfold call. destruct (op s.1) as [[a|e] st']; simpl.
  - eexists. split; [reflexivity|]. left. constructor; [|constructor].
    intros msg. apply Hans.
  - exists [(c, Fault e)]. split; [reflexivity|]. right. exists [], c, e.
    repeat split. constructor.
Qed.

Lemma stops_bind {St A B} (m : M St A) (k : A -> M St B) :
  stops_at_fault m -> (forall a, stops_at_fault (k a)) -> stops_at_fault (m ≫= k).
Proof.
  intros Hm Hk s. unfold mbind, M_bind.
  destruct (Hm s) as (evs & Ht & Hevs).
  destruct (m s) as [[a|e] s1]; simpl in Ht, Hevs.
  - destruct Hevs as [Hfree | (pre & c & e & _ & _ & Habs)]; [|discriminate].
    destruct (Hk a s1) as (evs' & Ht' & Hevs').
    exists (evs ++ evs'). split; [rewrite Ht', Ht, <- app_assoc; reflexivity|].
    destruct Hevs' as [Hfree' | (pre & c & e & -> & Hpre & Hr)].
    + left. by apply List.Forall_app.
    + right. exists (evs ++ pre), c, e. rewrite <- app_assoc.
      repeat split; [by apply List.Forall_app | exact Hr].
  - exists evs. split; [exact Ht|].
    destruct Hevs as [Hfree | (pre & c & e0 & Hevs & Hpre & [= ->])]; [by left|].
    right. exists pre, c, e0. repeat split; assumption.
Qed.

(** Structural proof that a workflow step stops at the first fault. *)
Ltac stops :=
  repeat first
    [ apply stops_ret
    | apply stops_lift
    | apply stops_call; discriminate
    | apply stops_bind; [|intros ?]
    | match goal with
      | |- stops_at_fault (if ?c then _ else _) => destruct c
      | |- stops_at_fault (match ?x with _ => _ end) => destruct x
      | |- stops_at_fault (let '(_, _) := ?x in _) => destruct x
      end ].

Lemma create_lead_body_stops {St} cfg re format_percent (hcp_client : Directory St)
    form_data :
  stops_at_fault (LeadCreator.create_lead_body cfg re format_percent hcp_client form_data).
Proof.
  rewrite create_lead_body_phases.
  unfold matching, CustomerMatcher.find_matching_customer, LeadCreator.settle_customer,
    LeadCreator._create_customer, LeadCreator.add_address_if_new,
    LeadCreator._add_address_to_customer, LeadCreator.file_lead,
    LeadCreator.lead_address, LeadCreator._create_lead_with_job_type.
  stops.
Qed.

(** C3 (amended): a fault raised in the [try] block is caught by
    [create_lead], which returns a failure result without customer or lead
    id whose error is the text of the fault. *)
Theorem create_lead_catches {St} cfg re format_percent (hcp_client : Directory St)
    form_data st :
  (forall e s',
     LeadCreator.create_lead_body cfg re format_percent hcp_client form_data (st, [])
     = (Raise e, s') ->
     LeadCreator.create_lead cfg re format_percent hcp_client form_data st
     = (mkLeadCreationResult false None None "" [] (Some e), s')) /\
  (forall c e,
     In (c, Fault e)
        (LeadCreator.create_lead cfg re format_percent hcp_client form_data st).2.2 ->
     (LeadCreator.create_lead cfg re format_percent hcp_client form_data st).1
     = mkLeadCreationResult false None None "" [] (Some e) /\
     exists before,
       (LeadCreator.create_lead cfg re format_percent hcp_client form_data st).2.2
       = before ++ [(c, Fault e)]).
Proof.
  unfold LeadCreator.create_lead. split.
  - intros e s' Hbody. rewrite Hbody. reflexivity.
  - intros c e Hin.
    destruct (create_lead_body_stops cfg re format_percent hcp_client form_data (st, []))
      as (evs & Ht & Hevs).
    destruct (LeadCreator.create_lead_body cfg re format_percent hcp_client form_data
                (st, [])) as [outcome s1].
    assert (Hs1 : s1.2 = evs) by exact Ht. clear Ht.
    assert (Hin' : In (c, Fault e) evs) by (destruct outcome; rewrite <- Hs1; exact Hin).
    destruct Hevs as [Hfree | (pre & c' & e' & -> & Hpre & Hr)].
    + exfalso. unfold fault_free in Hfree. rewrite List.Forall_forall in Hfree.
      apply (Hfree _ Hin' e). reflexivity.
    + apply in_app_or in Hin' as [Hin' | [[= <- <-] | []]].
      * exfalso. unfold fault_free in Hpre. rewrite List.Forall_forall in Hpre.
        apply (Hpre _ Hin' e). reflexivity.
      * simpl in Hr. subst outcome. split; [reflexivity|]. exists pre. exact Hs1.
Qed.

(** C3, witness: the search faults. *)
Lemma create_lead_catches_witness :
  LeadCreator.create_lead default_config no_regex percent
    (faulty "'list' object has no attribute 'get'") ann_form tt
  = (mkLeadCreationResult false None None "" []
       (Some "'list' object has no attribute 'get'"),
     (tt, [(SearchCustomers "+14155551234",
            Fault "'list' object has no attribute 'get'")])).
Proof.
  apply (proj1 (create_lead_catches default_config no_regex percent
                  (faulty "'list' object has no attribute 'get'") ann_form tt)).
  vm_compute. reflexivity.
Defined.

(** ** C8: creation failures *)

(** What [file_lead] leaves holds no customer creation, and a lead request
    it holds is for the customer it was given and decides the outcome. *)
Lemma filed_requests cfg m parsed_address customer_id new_address_id rest outcome :
  filed cfg m parsed_address customer_id new_address_id rest outcome ->
  (forall p ans, ~ In (CreateCustomer p, ans) rest) /\
  (forall p d,
     In (CreateLead p, Record d) rest -> truthy (LeadCreator.id_of d) = false ->
     lp_customer_id p = customer_id /\
     outcome = Ok (LeadCreator.failure customer_id "Failed to create lead")).
Proof.
  intros (lookups & Hl & [[-> _] | (lead & ans & -> & Hcid & _ & _ & Hans)]).
  - split.
    + intros p ans Hin. by pose proof (in_requests _ _ _ _ Hl Hin).
    + intros p d Hin. by pose proof (in_requests _ _ _ _ Hl Hin).
  - split.
    + intros p a Hin. apply in_app_or in Hin as [Hin | [[=] | []]].
      by pose proof (in_requests _ _ _ _ Hl Hin).
    + intros p d Hin Hid. apply in_app_or in Hin as [Hin | [[= -> ->] | []]].
      * by pose proof (in_requests _ _ _ _ Hl Hin).
      * rewrite Hid in Hans. split; assumption.
Qed.

(** C8: when the directory answers a customer creation without an id, the
    result is the creation failure, without customer id, and no lead creation
    is requested; when it answers the lead creation without an id, the result
    is the lead failure and carries the customer id the lead was requested
    for, which is the id of the customer created in this run, or else that of
    the matched customer. *)
Theorem creation_failures {St} cfg re format_percent (hcp_client : Directory St)
    form_data st :
  (forall p d,
     In (CreateCustomer p, Record d)
        (LeadCreator.create_lead cfg re format_percent hcp_client form_data st).2.2 ->
     truthy (LeadCreator.id_of d) = false ->
     (LeadCreator.create_lead cfg re format_percent hcp_client form_data st).1
     = mkLeadCreationResult false None None "" [] (Some "Failed to create customer") /\
     forall p' ans,
       ~ In (CreateLead p', ans)
            (LeadCreator.create_lead cfg re format_percent hcp_client form_data st).2.2) /\
  (forall p d,
     In (CreateLead p, Record d)
        (LeadCreator.create_lead cfg re format_percent hcp_client form_data st).2.2 ->
     truthy (LeadCreator.id_of d) = false ->
     (LeadCreator.create_lead cfg re format_percent hcp_client form_data st).1
     = mkLeadCreationResult false (lp_customer_id p) None "" []
         (Some "Failed to create lead") /\
     (forall p' d',
        In (CreateCustomer p', Record d')
           (LeadCreator.create_lead cfg re format_percent hcp_client form_data st).2.2 ->
        lp_customer_id p = LeadCreator.id_of d') /\
     ((forall p' ans,
         ~ In (CreateCustomer p', ans)
              (LeadCreator.create_lead cfg re format_percent hcp_client form_data st).2.2) ->
      exists m s1,
        matching cfg re hcp_client form_data (st, []) = (Ok m, s1) /\
        lp_customer_id p = customer_id m)).
Proof.
  destruct (create_lead_shape cfg re format_percent hcp_client form_data st)
    as (searches & Hs & [(e & s1 & _ & Ht & Hr) | (m & s1 & rest & outcome & Hm & Ht & Hr & Hset)]);
    rewrite Ht, Hr; clear Ht Hr.
  { split; intros p d Hin; by pose proof (in_requests _ _ _ _ Hs Hin). }
  unfold settled in Hset. destruct (should_create_new m).
  - destruct Hset as (ans & Hans).
    destruct ans as [found | d0 | known | e]; try contradiction.
    + destruct (truthy (LeadCreator.id_of d0)) eqn:Hid0.
      * destruct Hans as (rest' & -> & Hf).
        destruct (filed_requests _ _ _ _ _ _ _ Hf) as [Hnc Hlead].
        split.
        -- intros p d Hin Hid. exfalso.
           apply in_app_or in Hin as [Hin | [[= <- <-] | Hin]].
           ++ by pose proof (in_requests _ _ _ _ Hs Hin).
           ++ congruence.
           ++ exact (Hnc _ _ Hin).
        -- intros p d Hin Hid.
           apply in_app_or in Hin as [Hin | [[=] | Hin]];
             [by pose proof (in_requests _ _ _ _ Hs Hin)|].
           destruct (Hlead _ _ Hin Hid) as [Hcid ->]. rewrite Hcid.
           split; [reflexivity|]. split.
           ++ intros p' d' Hin'.
              apply in_app_or in Hin' as [Hin' | [[= <- <-] | Hin']].
              ** by pose proof (in_requests _ _ _ _ Hs Hin').
              ** reflexivity.
              ** destruct (Hnc _ _ Hin').
           ++ intros Hno. exfalso. apply (Hno (new_customer cfg re form_data) (Record d0)).
              apply in_or_app. right. left. reflexivity.
      * destruct Hans as [-> ->]. split.
        -- intros p d Hin Hid. split; [reflexivity|].
           intros p' ans Hin'. apply in_app_or in Hin' as [Hin' | [[=] | []]].
           by pose proof (in_requests _ _ _ _ Hs Hin').
        -- intros p d Hin Hid. apply in_app_or in Hin as [Hin | [[=] | []]].
           by pose proof (in_requests _ _ _ _ Hs Hin).
    + destruct Hans as [-> ->]. split.
      * intros p d Hin Hid. apply in_app_or in Hin as [Hin | [[=] | []]].
        by pose proof (in_requests _ _ _ _ Hs Hin).
      * intros p d Hin Hid. apply in_app_or in Hin as [Hin | [[=] | []]].
        by pose proof (in_requests _ _ _ _ Hs Hin).
  - destruct Hset as [(e & -> & ->) | (adds & new_address_id & rest' & -> & Hadded & Hf)].
    { split; intros p d Hin; exfalso;
        apply in_app_or in Hin as [Hin | [[=] | []]];
        by pose proof (in_requests _ _ _ _ Hs Hin). }
    assert (Hadd : forall c ans, In (c, ans) adds -> is_add_address c = true).
    { intros c ans Hin. destruct Hadded as [[-> _] | (d & -> & _)]; [destruct Hin|].
      destruct Hin as [[= <- _] | []]. reflexivity. }
    destruct (filed_requests _ _ _ _ _ _ _ Hf) as [Hnc Hlead]. split.
    + intros p d Hin Hid. exfalso.
      apply in_app_or in Hin as [Hin | Hin];
        [by pose proof (in_requests _ _ _ _ Hs Hin)|].
      apply in_app_or in Hin as [Hin | Hin];
        [by pose proof (Hadd _ _ Hin) | exact (Hnc _ _ Hin)].
    + intros p d Hin Hid.
      apply in_app_or in Hin as [Hin | Hin];
        [by pose proof (in_requests _ _ _ _ Hs Hin)|].
      apply in_app_or in Hin as [Hin | Hin]; [by pose proof (Hadd _ _ Hin)|].
      destruct (Hlead _ _ Hin Hid) as [Hcid ->]. rewrite Hcid.
      split; [reflexivity|]. split.
      * intros p' d' Hin'. exfalso.
        apply in_app_or in Hin' as [Hin' | Hin'];
          [by pose proof (in_requests _ _ _ _ Hs Hin')|].
        apply in_app_or in Hin' as [Hin' | Hin'];
          [by pose proof (Hadd _ _ Hin') | exact (Hnc _ _ Hin')].
      * intros _. exists m, s1. split; [exact Hm | reflexivity].
Qed.

(** C8, witness: a directory that returns no id for the customer, and one
    that creates the customer and returns no id for the lead. *)
Lemma creation_failures_witness :
  (LeadCreator.create_lead default_config no_regex percent refusing ann_form tt).1
  = mkLeadCreationResult false None None "" [] (Some "Failed to create customer") /\
  (LeadCreator.create_lead default_config no_regex percent no_leads ann_form tt).1
  = mkLeadCreationResult false (Some "cus_new") None "" [] (Some "Failed to create lead").
Proof.
  split.
  - refine (proj1 (proj1 (creation_failures default_config no_regex percent refusing
                            ann_form tt)
                     (new_customer default_config no_regex ann_form) None _ eq_refl)).
    vm_compute. right; right; left. reflexivity.
  - refine (proj1 (proj2 (creation_failures default_config no_regex percent no_leads
                            ann_form tt)
                     ann_lead None _ eq_refl)).
    vm_compute. right; right; right; left. reflexivity.
Defined.

(** ** C10: the second address line *)

Lemma parse_address_keys re address_string :
  dom (Utils.parse_address re address_string) = address_keys.
Proof.
  unfold Utils.parse_address, Utils.empty_address, address_keys.
  repeat match goal with
         | |- context [if ?c then _ else _] => destruct c
         | |- context [match ?x with _ => _ end] =>
             lazymatch x with
             | context [match _ with _ => _ end] => fail
             | context [if _ then _ else _] => fail
             | _ => destruct x
             end
         end;
  rewrite ?dom_insert_L, dom_empty_L; cbn; set_solver.
Qed.

Lemma parsed_address_keys cfg re form_data :
  dom (LeadCreator.parsed_address_of cfg re form_data) = address_keys.
Proof.
  unfold LeadCreator.parsed_address_of.
  destruct (truthy (fd_street form_data) || truthy (fd_city form_data)
            || truthy (fd_zip form_data)); [|apply parse_address_keys].
  unfold address_keys. rewrite !dom_insert_L, dom_empty_L. cbn. set_solver.
Qed.

Lemma no_second_line (d : gmap string (option string)) :
  dom d = address_keys -> dict_get d "street_line_2" = None.
Proof.
  intros Hdom. unfold dict_get.
  assert (H : d !! "street_line_2" = None).
  { apply not_elem_of_dom. rewrite Hdom. unfold address_keys.
    rewrite elem_of_list_to_set. intros Hin.
    repeat (apply elem_of_cons in Hin as [Hin | Hin]; [discriminate|]).
    by apply elem_of_nil in Hin. }
  rewrite H. reflexivity.
Qed.

Lemma copy_if_truthy_other d k out k' :
  k <> k' -> LeadCreator.copy_if_truthy d k out !! k' = out !! k'.
Proof.
  intros Hk. unfold LeadCreator.copy_if_truthy.
  destruct (truthy (dict_get d k)); [by rewrite lookup_insert_ne | reflexivity].
Qed.

Lemma copy_if_truthy_absent d k out :
  dict_get d k = None -> LeadCreator.copy_if_truthy d k out = out.
Proof. intros H. unfold LeadCreator.copy_if_truthy. rewrite H. reflexivity. Qed.

Lemma copy_country_other d out k' :
  "country" <> k' -> LeadCreator.copy_country d out !! k' = out !! k'.
Proof.
  intros Hk. unfold LeadCreator.copy_country.
  destruct (truthy (dict_get d "country")); by rewrite lookup_insert_ne.
Qed.

(** The three payloads built from an address that has no [street_line_2]
    have none either. *)
Lemma built_without_second_line cfg (address : gmap string (option string)) :
  dict_get address "street_line_2" = None ->
  LeadCreator.customer_address address !! "street_line_2" = None /\
  LeadCreator.service_address cfg address !! "street_line_2" = None /\
  (forall built, LeadCreator._build_address_dict cfg address = Some built ->
                 built !! "street_line_2" = None).
Proof.
  intros Habsent. split; [|split].
  - unfold LeadCreator.customer_address.
    rewrite copy_country_other by discriminate.
    rewrite !copy_if_truthy_other by discriminate.
    rewrite (copy_if_truthy_absent _ "street_line_2") by exact Habsent.
    rewrite copy_if_truthy_other by discriminate. apply lookup_empty.
  - unfold LeadCreator.service_address, LeadCreator.set_state.
    rewrite copy_country_other by discriminate.
    rewrite copy_if_truthy_other by discriminate.
    rewrite lookup_insert_ne by discriminate.
    rewrite copy_if_truthy_other by discriminate.
    rewrite (copy_if_truthy_absent _ "street_line_2") by exact Habsent.
    rewrite copy_if_truthy_other by discriminate.
    rewrite lookup_insert_ne by discriminate. apply lookup_empty.
  - intros built. unfold LeadCreator._build_address_dict, LeadCreator.set_state.
    destruct (negb (dict_truthy address) || negb (any_values address)); [discriminate|].
    destruct (dict_truthy _); [|discriminate]. intros [= <-].
    rewrite copy_country_other by discriminate.
    rewrite copy_if_truthy_other by discriminate.
    rewrite lookup_insert_ne by discriminate.
    rewrite copy_if_truthy_other by discriminate.
    rewrite (copy_if_truthy_absent _ "street_line_2") by exact Habsent.
    rewrite copy_if_truthy_other by discriminate. apply lookup_empty.
Qed.

(** The workflow never reads the form's [street_line_2]. *)
Lemma create_lead_ignores_second_line {St} cfg re format_percent
    (hcp_client : Directory St) v form_data st :
  LeadCreator.create_lead cfg re format_percent hcp_client
    (with_street_line_2 v form_data) st
  = LeadCreator.create_lead cfg re format_percent hcp_client form_data st.
Proof. reflexivity. Qed.

(** The requests in what [file_lead] leaves: no creation of a customer or an
    address, and a lead whose address comes from the form or the directory. *)
Lemma filed_payloads cfg m parsed_address customer_id new_address_id rest outcome :
  filed cfg m parsed_address customer_id new_address_id rest outcome ->
  (forall p ans, ~ In (CreateCustomer p, ans) rest) /\
  (forall c a ans, ~ In (AddCustomerAddress c a, ans) rest) /\
  (forall p ans, In (CreateLead p, ans) rest ->
     address_source cfg m parsed_address rest (lp_address p)).
Proof.
  intros (lookups & Hl & [[-> _] | (lead & ans & -> & _ & _ & Hadr & _)]).
  - split; [|split].
    + intros p a Hin. by pose proof (in_requests _ _ _ _ Hl Hin).
    + intros c a0 a Hin. by pose proof (in_requests _ _ _ _ Hl Hin).
    + intros p a Hin. by pose proof (in_requests _ _ _ _ Hl Hin).
  - split; [|split].
    + intros p a Hin. apply in_app_or in Hin as [Hin | [[=] | []]].
      by pose proof (in_requests _ _ _ _ Hl Hin).
    + intros c a0 a Hin. apply in_app_or in Hin as [Hin | [[=] | []]].
      by pose proof (in_requests _ _ _ _ Hl Hin).
    + intros p a Hin. apply in_app_or in Hin as [Hin | [[= <- _] | []]];
        [by pose proof (in_requests _ _ _ _ Hl Hin)|].
      destruct Hadr as [Hnone | [Hform | (c & i & fa & Hin & Hfa)]].
      * by left.
      * right. by left.
      * right. right. exists c, i, fa. split; [|exact Hfa].
        apply in_or_app. by left.
Qed.

Lemma new_customer_address cfg re form_data a :
  In a (default [] (cp_addresses (new_customer cfg re form_data))) ->
  a = LeadCreator.customer_address (LeadCreator.parsed_address_of cfg re form_data).
Proof.
  unfold new_customer, LeadCreator.customer_payload. simpl.
  destruct (dict_truthy _ && any_values _); simpl; [|intros []].
  intros [<- | []]. reflexivity.
Qed.

(** C10: the parsed address [create_lead] builds has the keys street, city,
    state and zip only, so reading its [street_line_2] finds nothing; the
    form's second address line changes neither the result nor any request; and
    no address sent to the directory has a [street_line_2], whether in a
    customer creation, an address creation or a lead, unless the lead's address
    is one the directory itself returned by id. *)
Theorem second_line_never_sent {St} cfg re format_percent (hcp_client : Directory St)
    form_data st :
  dom (LeadCreator.parsed_address_of cfg re form_data) = address_keys /\
  dict_get (LeadCreator.parsed_address_of cfg re form_data) "street_line_2" = None /\
  (forall v,
     LeadCreator.create_lead cfg re format_percent hcp_client
       (with_street_line_2 v form_data) st
     = LeadCreator.create_lead cfg re format_percent hcp_client form_data st) /\
  (forall p ans a,
     In (CreateCustomer p, ans)
        (LeadCreator.create_lead cfg re format_percent hcp_client form_data st).2.2 ->
     In a (default [] (cp_addresses p)) -> a !! "street_line_2" = None) /\
  (forall customer_id a ans,
     In (AddCustomerAddress customer_id a, ans)
        (LeadCreator.create_lead cfg re format_percent hcp_client form_data st).2.2 ->
     a !! "street_line_2" = None) /\
  (forall p ans a,
     In (CreateLead p, ans)
        (LeadCreator.create_lead cfg re format_percent hcp_client form_data st).2.2 ->
     lp_address p = Some a ->
     a !! "street_line_2" = None \/
     exists customer_id address_id fa,
       In (GetAddressById customer_id address_id, Record (Some fa))
          (LeadCreator.create_lead cfg re format_percent hcp_client form_data st).2.2 /\
       LeadCreator._build_address_dict_from_api fa = Some a).
Proof.
  pose proof (parsed_address_keys cfg re form_data) as Hkeys.
  pose proof (no_second_line _ Hkeys) as Habsent.
  destruct (built_without_second_line cfg _ Habsent) as (Hcust & Hserv & Hlead).
  split; [exact Hkeys|]. split; [exact Habsent|].
  split; [intros v; apply create_lead_ignores_second_line|].
  destruct (create_lead_shape cfg re format_percent hcp_client form_data st)
    as (searches & Hs & [(e & s1 & _ & Ht & _) | (m & s1 & rest & outcome & _ & Ht & _ & Hset)]);
    rewrite Ht; clear Ht.
  { repeat split; intros; exfalso;
      match goal with H : In _ searches |- _ =>
        by pose proof (in_requests _ _ _ _ Hs H) end. }
  assert (Hfiled : forall customer_id new_address_id rest',
            filed cfg m (LeadCreator.parsed_address_of cfg re form_data) customer_id
              new_address_id rest' outcome ->
            forall p ans a, In (CreateLead p, ans) rest' -> lp_address p = Some a ->
              a !! "street_line_2" = None \/
              exists customer_id address_id fa,
                In (GetAddressById customer_id address_id, Record (Some fa)) rest' /\
                LeadCreator._build_address_dict_from_api fa = Some a).
  { intros cid naid rest' Hf p ans a Hin Ha.
    destruct (filed_payloads _ _ _ _ _ _ _ Hf) as (_ & _ & Hsrc).
    destruct (Hsrc _ _ Hin) as [Hnone | [[_ Hform] | (c & i & fa & Hin' & Hfa)]].
    - congruence.
    - left. apply Hlead. congruence.
    - right. exists c, i, fa. split; [exact Hin' | congruence]. }
  unfold settled in Hset. destruct (should_create_new m).
  - destruct Hset as (ans0 & Hans).
    assert (Hrest : exists rest',
              rest = (CreateCustomer (new_customer cfg re form_data), ans0) :: rest' /\
              (rest' = [] \/
               exists customer_id,
                 filed cfg m (LeadCreator.parsed_address_of cfg re form_data) customer_id
                   None rest' outcome)).
    { destruct ans0 as [found | d0 | known | e]; try contradiction.
      - destruct (truthy (LeadCreator.id_of d0)).
        + destruct Hans as (rest' & -> & Hf). exists rest'. split; [reflexivity|].
          right. by eexists.
        + destruct Hans as [-> _]. exists []. split; [reflexivity | by left].
      - destruct Hans as [-> _]. exists []. split; [reflexivity | by left]. }
    destruct Hrest as (rest' & -> & Hrest').
    assert (Hpay : (forall p ans, ~ In (CreateCustomer p, ans) rest') /\
                   (forall c a ans, ~ In (AddCustomerAddress c a, ans) rest') /\
                   (forall p ans a, In (CreateLead p, ans) rest' -> lp_address p = Some a ->
                      a !! "street_line_2" = None \/
                      exists customer_id address_id fa,
                        In (GetAddressById customer_id address_id, Record (Some fa)) rest' /\
                        LeadCreator._build_address_dict_from_api fa = Some a)).
    { destruct Hrest' as [-> | (cid & Hf)].
      { split; [intros p ans [] | split; [intros c a ans [] | intros p ans a []]]. }
      destruct (filed_payloads _ _ _ _ _ _ _ Hf) as (H1 & H2 & _).
      repeat split; [exact H1 | exact H2 | exact (Hfiled _ _ _ Hf)]. }
    destruct Hpay as (Hnc & Hna & Hl).
    split; [|split].
    + intros p ans a Hin Ha.
      apply in_app_or in Hin as [Hin | [[= <- _] | Hin]].
      * by pose proof (in_requests _ _ _ _ Hs Hin).
      * rewrite (new_customer_address _ _ _ _ Ha). exact Hcust.
      * destruct (Hnc _ _ Hin).
    + intros c a ans Hin.
      apply in_app_or in Hin as [Hin | [[=] | Hin]].
      * by pose proof (in_requests _ _ _ _ Hs Hin).
      * destruct (Hna _ _ _ Hin).
    + intros p ans a Hin Ha.
      apply in_app_or in Hin as [Hin | [[=] | Hin]];
        [by pose proof (in_requests _ _ _ _ Hs Hin)|].
      destruct (Hl _ _ _ Hin Ha) as [Hnone | (c & i & fa & Hin' & Hfa)]; [by left|].
      right. exists c, i, fa. split; [|exact Hfa].
      apply in_or_app. right. right. exact Hin'.
  - destruct Hset as [(e & -> & _) | (adds & new_address_id & rest' & -> & Hadded & Hf)].
    + split; [|split].
      * intros p ans a Hin. apply in_app_or in Hin as [Hin | [[=] | []]].
        by pose proof (in_requests _ _ _ _ Hs Hin).
      * intros c a ans Hin. apply in_app_or in Hin as [Hin | [[= _ <- _] | []]];
          [by pose proof (in_requests _ _ _ _ Hs Hin) | exact Hserv].
      * intros p ans a Hin. apply in_app_or in Hin as [Hin | [[=] | []]].
        by pose proof (in_requests _ _ _ _ Hs Hin).
    + destruct (filed_payloads _ _ _ _ _ _ _ Hf) as (Hnc & Hna & _).
      assert (Hadds : forall c ans, In (c, ans) adds ->
                exists cid, c = AddCustomerAddress cid
                                  (LeadCreator.service_address cfg
                                     (LeadCreator.parsed_address_of cfg re form_data))).
      { intros c ans Hin. destruct Hadded as [[-> _] | (d & -> & _)]; [destruct Hin|].
        destruct Hin as [[= <- _] | []]. by eexists. }
      split; [|split].
      * intros p ans a Hin. exfalso.
        apply in_app_or in Hin as [Hin | Hin];
          [by pose proof (in_requests _ _ _ _ Hs Hin)|].
        apply in_app_or in Hin as [Hin | Hin]; [|exact (Hnc _ _ Hin)].
        by destruct (Hadds _ _ Hin).
      * intros c a ans Hin.
        apply in_app_or in Hin as [Hin | Hin];
          [by pose proof (in_requests _ _ _ _ Hs Hin)|].
        apply in_app_or in Hin as [Hin | Hin]; [|destruct (Hna _ _ _ Hin)].
        destruct (Hadds _ _ Hin) as (cid & [= _ ->]). exact Hserv.
      * intros p ans a Hin Ha.
        apply in_app_or in Hin as [Hin | Hin];
          [by pose proof (in_requests _ _ _ _ Hs Hin)|].
        apply in_app_or in Hin as [Hin | Hin]; [by destruct (Hadds _ _ Hin)|].
        destruct (Hfiled _ _ _ Hf _ _ _ Hin Ha) as [Hnone | (c & i & fa & Hin' & Hfa)];
          [by left|].
        right. exists c, i, fa. split; [|exact Hfa].
        apply in_or_app. right. apply in_or_app. right. exact Hin'.
Qed.

(** ** C7: address reconciliation *)






(** * Properties beyond the specification *)

(** ** Strings *)

Lemma str_app_cons c s t : String c s +:+ t = String c (s +:+ t).
Proof. reflexivity. Qed.

Lemma str_app_nil_r s : s +:+ "" = s.
Proof. induction s as [|c s IH]; [reflexivity|]. rewrite str_app_cons, IH. reflexivity. Qed.

Lemma str_app_assoc s t u : (s +:+ t) +:+ u = s +:+ t +:+ u.
Proof.
  induction s as [|c s IH]; [reflexivity|].
  rewrite !str_app_cons, IH. reflexivity.
Qed.

Lemma str_length_app s t :
  String.length (s +:+ t) = (String.length s + String.length t)%nat.
Proof.
  induction s as [|c s IH]; [reflexivity|].
  rewrite str_app_cons. simpl. rewrite IH. reflexivity.
Qed.

Lemma no_space_app s t : no_space (s +:+ t) = no_space s && no_space t.
Proof.
  induction s as [|c s IH]; [reflexivity|].
  rewrite str_app_cons. simpl. rewrite IH, andb_assoc. reflexivity.
Qed.

Lemma lstrip_word w t : word w -> Text.lstrip (w +:+ t) = w +:+ t.
Proof.
  intros [Hne Hw]. destruct w as [|c w]; [congruence|].
  simpl in Hw. apply andb_prop in Hw as [Hc _]. apply negb_true_iff in Hc.
  rewrite str_app_cons. simpl. rewrite Hc. reflexivity.
Qed.

Lemma rstrip_no_space s : no_space s = true -> Text.rstrip s = s.
Proof.
  induction s as [|c s IH]; [reflexivity|]. simpl.
  intros H. apply andb_prop in H as [Hc Hs]. apply negb_true_iff in Hc.
  rewrite (IH Hs), Hc. destruct s; reflexivity.
Qed.

Lemma rstrip_app_word t w : word w -> Text.rstrip (t +:+ w) = t +:+ w.
Proof.
  intros [Hne Hw]. induction t as [|c t IH].
  - apply rstrip_no_space, Hw.
  - rewrite str_app_cons. simpl. rewrite IH.
    destruct (t +:+ w) eqn:E; [|reflexivity].
    destruct t; [|discriminate]. change (w = "") in E. congruence.
Qed.

Lemma rstrip_app_space s : Text.rstrip (s +:+ " ") = Text.rstrip s.
Proof.
  induction s as [|c s IH]; [reflexivity|].
  rewrite str_app_cons. simpl. rewrite IH. reflexivity.
Qed.

Lemma strip_word w : word w -> Text.strip w = w.
Proof.
  intros Hw. unfold Text.strip.
  rewrite <- (str_app_nil_r w) at 1. rewrite (lstrip_word w "" Hw), str_app_nil_r.
  apply rstrip_no_space, Hw.
Qed.

(** ** [str.split] and [str.join] *)

Lemma split_ws_aux_app w t cur :
  no_space w = true ->
  Text.split_ws_aux (w +:+ t) cur
  = Text.split_ws_aux t (rev (list_ascii_of_string w) ++ cur).
Proof.
  revert cur. induction w as [|c w IH]; intros cur Hw; [reflexivity|].
  simpl in Hw. apply andb_prop in Hw as [Hc Hw]. apply negb_true_iff in Hc.
  rewrite str_app_cons. simpl. rewrite Hc, (IH _ Hw), <- app_assoc. reflexivity.
Qed.

Lemma no_space_of_list l :
  no_space (string_of_list_ascii l) = forallb (fun c => negb (Text.is_space c)) l.
Proof. induction l as [|c l IH]; [reflexivity|]. simpl. rewrite IH. reflexivity. Qed.

Lemma word_of_rev cur :
  cur <> [] -> forallb (fun c => negb (Text.is_space c)) cur = true ->
  word (string_of_list_ascii (rev cur)).
Proof.
  intros Hne Hcur. split.
  - intros E. apply (f_equal list_ascii_of_string) in E.
    rewrite list_ascii_of_string_of_list_ascii in E. simpl in E.
    apply (f_equal (@rev _)) in E. rewrite rev_involutive in E. contradiction.
  - rewrite no_space_of_list. rewrite forallb_forall in *.
    intros c Hc. apply Hcur. apply in_rev. exact Hc.
Qed.

Lemma split_ws_aux_words s : forall cur,
  forallb (fun c => negb (Text.is_space c)) cur = true ->
  List.Forall word (Text.split_ws_aux s cur).
Proof.
  induction s as [|c s IH]; intros cur Hcur; simpl.
  - destruct cur as [|x cur]; [constructor|].
    constructor; [|constructor]. apply word_of_rev; [discriminate | exact Hcur].
  - destruct (Text.is_space c) eqn:Hc.
    + destruct cur as [|x cur]; [apply IH; reflexivity|].
      constructor; [|apply IH; reflexivity].
      apply word_of_rev; [discriminate | exact Hcur].
    + apply IH. simpl. rewrite Hc. exact Hcur.
Qed.

Lemma split_ws_words s : List.Forall word (Text.split_ws s).
Proof. apply split_ws_aux_words. reflexivity. Qed.

Lemma split_ws_word w : word w -> Text.split_ws w = [w].
Proof.
  intros [Hne Hw]. unfold Text.split_ws.
  transitivity (Text.split_ws_aux (w +:+ "") []); [rewrite str_app_nil_r; reflexivity|].
  rewrite (split_ws_aux_app w "" [] Hw). simpl. rewrite app_nil_r.
  destruct (rev (list_ascii_of_string w)) eqn:E.
  - apply (f_equal (@rev _)) in E. rewrite rev_involutive in E. simpl in E.
    apply (f_equal string_of_list_ascii) in E.
    rewrite string_of_list_ascii_of_string in E. contradiction.
  - rewrite <- E, rev_involutive, string_of_list_ascii_of_string. reflexivity.
Qed.

Lemma join_cons sep p q ps :
  Text.join sep (p :: q :: ps) = p +:+ sep +:+ Text.join sep (q :: ps).
Proof. reflexivity. Qed.

Lemma split_ws_join ws :
  List.Forall word ws -> Text.split_ws (Text.join " " ws) = ws.
Proof.
  induction 1 as [|w ws Hw Hws IH]; [reflexivity|].
  destruct ws as [|q ws]; [apply split_ws_word, Hw|].
  rewrite join_cons. unfold Text.split_ws in *.
  destruct Hw as [Hne Hw].
  rewrite (split_ws_aux_app w _ [] Hw), app_nil_r, str_app_cons. simpl.
  destruct (rev (list_ascii_of_string w)) eqn:E.
  - apply (f_equal (@rev _)) in E. rewrite rev_involutive in E. simpl in E.
    apply (f_equal string_of_list_ascii) in E.
    rewrite string_of_list_ascii_of_string in E. contradiction.
  - rewrite <- E, rev_involutive, string_of_list_ascii_of_string.
    f_equal. exact IH.
Qed.

Lemma join_snoc sep ps x :
  ps <> [] -> Text.join sep (ps ++ [x]) = Text.join sep ps +:+ sep +:+ x.
Proof.
  induction ps as [|p ps IH]; [congruence|]. intros _.
  destruct ps as [|q ps]; [reflexivity|].
  change ((p :: q :: ps) ++ [x]) with (p :: (q :: ps) ++ [x]).
  simpl app. rewrite !join_cons. simpl app in IH. rewrite IH by discriminate.
  rewrite !str_app_assoc. reflexivity.
Qed.

(** The words joined by single spaces begin and end with a word. *)
Lemma join_words_ends ws :
  ws <> [] -> List.Forall word ws ->
  exists first last before after,
    word first /\ word last /\
    Text.join " " ws = first +:+ after /\ Text.join " " ws = before +:+ last.
Proof.
  intros Hne Hws. induction Hws as [|w ws Hw Hws IH]; [congruence|].
  destruct ws as [|q ws].
  - exists w, w, "", "". simpl. rewrite str_app_nil_r. auto.
  - destruct IH as (f & l & b & a & Hf & Hl & Ha & Hb); [discriminate|].
    exists w, l, (w +:+ " " +:+ b), (" " +:+ Text.join " " (q :: ws)).
    rewrite join_cons. repeat split; try apply Hw; try apply Hl.
    rewrite Hb at 1. rewrite !str_app_assoc. reflexivity.
Qed.

Lemma strip_join_words ws :
  List.Forall word ws -> Text.strip (Text.join " " ws) = Text.join " " ws.
Proof.
  intros Hws. destruct ws as [|w ws]; [reflexivity|].
  destruct (join_words_ends (w :: ws)) as (f & l & b & a & Hf & Hl & Ha & Hb);
    [discriminate | exact Hws |].
  unfold Text.strip. rewrite Ha at 1. rewrite (lstrip_word f a Hf), <- Ha.
  rewrite Hb at 1. rewrite (rstrip_app_word b l Hl), <- Hb. reflexivity.
Qed.

Lemma split_ws_lstrip s : Text.split_ws (Text.lstrip s) = Text.split_ws s.
Proof.
  unfold Text.split_ws. induction s as [|c s IH]; [reflexivity|]. simpl.
  destruct (Text.is_space c) eqn:Hc; [exact IH|]. simpl. rewrite Hc. reflexivity.
Qed.

Lemma split_ws_aux_rstrip s : forall cur,
  Text.split_ws_aux (Text.rstrip s) cur = Text.split_ws_aux s cur.
Proof.
  induction s as [|c s IH]; intros cur; [reflexivity|]. simpl.
  destruct (Text.rstrip s) as [|d r] eqn:E.
  - destruct (Text.is_space c) eqn:Hc.
    + simpl. destruct cur as [|x cur]; rewrite <- IH; reflexivity.
    + simpl. rewrite Hc, <- IH. reflexivity.
  - simpl. destruct (Text.is_space c); [destruct cur|]; rewrite <- IH; reflexivity.
Qed.

Lemma split_ws_strip s : Text.split_ws (Text.strip s) = Text.split_ws s.
Proof.
  unfold Text.strip, Text.split_ws.
  rewrite split_ws_aux_rstrip. apply split_ws_lstrip.
Qed.
(** ** [sanitize_string] and [parse_name] *)

Lemma sanitize_string_words s :
  Utils.sanitize_string (Some s) = Text.join " " (Text.split_ws s).
Proof.
  unfold Utils.sanitize_string. simpl.
  destruct (String.eqb_spec s "") as [-> | _]; [reflexivity|]. simpl.
  apply strip_join_words, split_ws_words.
Qed.

Lemma sanitize_string_join o :
  Utils.sanitize_string o = Text.join " " (Text.split_ws (or_empty o)).
Proof. destruct o as [s|]; [apply sanitize_string_words | reflexivity]. Qed.

Lemma strip_sanitize_string o :
  Text.strip (Utils.sanitize_string o) = Utils.sanitize_string o.
Proof. rewrite sanitize_string_join. apply strip_join_words, split_ws_words. Qed.

(** X1. [sanitize_string] is idempotent; its result has the words of its
    argument and neither leading nor trailing whitespace. *)
Theorem sanitize_string_idempotent o :
  Utils.sanitize_string (Some (Utils.sanitize_string o)) = Utils.sanitize_string o /\
  Text.split_ws (Utils.sanitize_string o) = Text.split_ws (or_empty o) /\
  Text.strip (Utils.sanitize_string o) = Utils.sanitize_string o.
Proof.
  assert (Hsplit : Text.split_ws (Utils.sanitize_string o) = Text.split_ws (or_empty o)).
  { rewrite sanitize_string_join. apply split_ws_join, split_ws_words. }
  split; [|split; [exact Hsplit|]].
  - rewrite sanitize_string_words, Hsplit. symmetry. apply sanitize_string_join.
  - apply strip_sanitize_string.
Qed.

Lemma in_last {A} (l : list A) d : l <> [] -> In (List.last l d) l.
Proof.
  induction l as [|x l IH]; [congruence|]. intros _.
  destruct l as [|y l]; [left; reflexivity|].
  right. apply IH. discriminate.
Qed.

Lemma word_nonempty_join p ps : word p -> Text.join " " (p :: ps) <> "".
Proof.
  intros [Hne _]. destruct p; [congruence|].
  destruct ps; simpl; [discriminate|]. rewrite str_app_cons. discriminate.
Qed.

(** X2. [parse_name] loses nothing but whitespace: the first and the last
    name, put together again with a space, are the name as [sanitize_string]
    gives it; the last name is one word or empty, and the first name is empty
    only for a blank name. *)
Theorem parse_name_keeps_words full_name :
  Text.strip ((Utils.parse_name full_name).1 +:+ " " +:+ (Utils.parse_name full_name).2)
  = Utils.sanitize_string (Some full_name) /\
  no_space (Utils.parse_name full_name).2 = true /\
  ((Utils.parse_name full_name).1 = "" -> Text.split_ws full_name = []).
Proof.
  rewrite sanitize_string_words. unfold Utils.parse_name.
  destruct (String.eqb_spec full_name "") as [-> | Hne].
  { simpl. repeat split. }
  replace (negb (nonempty full_name)) with false
    by (unfold nonempty; destruct (String.eqb_spec full_name ""); [contradiction | reflexivity]).
  rewrite split_ws_strip.
  pose proof (split_ws_words full_name) as Hws.
  destruct (Text.split_ws full_name) as [|p [|q [|r rest]]] eqn:E; cbn [fst snd].
  - repeat split.
  - inversion Hws as [|? ? Hp _]; subst.
    split; [|split; [reflexivity | intros ->; destruct Hp; congruence]].
    rewrite str_app_nil_r.
    unfold Text.strip. rewrite (lstrip_word p " " Hp), rstrip_app_space.
    apply rstrip_no_space, Hp.
  - inversion Hws as [|? ? Hp Hws']; subst. inversion Hws' as [|? ? Hq _]; subst.
    split; [|split; [apply Hq | intros ->; destruct Hp; congruence]].
    apply (strip_join_words [p; q]), Hws.
  - set (parts := p :: q :: r :: rest) in *.
    assert (Hparts : parts <> []) by discriminate.
    assert (Hfront : removelast parts <> []) by discriminate.
    assert (Hjoin : Text.join " " (removelast parts) +:+ " " +:+ List.last parts ""
                    = Text.join " " parts).
    { rewrite <- join_snoc by exact Hfront.
      rewrite <- (app_removelast_last "" Hparts). reflexivity. }
    split; [|split].
    + rewrite Hjoin. apply strip_join_words, Hws.
    + rewrite List.Forall_forall in Hws. apply Hws, in_last, Hparts.
    + intros H. exfalso.
      inversion Hws as [|? ? Hp _]; subst.
      apply (word_nonempty_join p (removelast (q :: r :: rest)) Hp). exact H.
Qed.

(** ** [normalize_phone] *)

Lemma all_digits_only_digits p : all_digits (Text.only_digits p) = true.
Proof.
  induction p as [|c p IH]; [reflexivity|]. simpl.
  destruct (Text.is_digit c) eqn:Hc; [simpl; rewrite Hc|]; exact IH.
Qed.

Lemma only_digits_all d : all_digits d = true -> Text.only_digits d = d.
Proof.
  induction d as [|c d IH]; [reflexivity|]. simpl.
  intros H. apply andb_prop in H as [Hc Hd]. rewrite Hc, (IH Hd). reflexivity.
Qed.

Lemma all_digits_app s t : all_digits (s +:+ t) = all_digits s && all_digits t.
Proof.
  induction s as [|c s IH]; [reflexivity|].
  rewrite str_app_cons. simpl. rewrite IH, andb_assoc. reflexivity.
Qed.

Lemma all_digits_substring s : forall i k,
  all_digits s = true -> all_digits (substring i k s) = true.
Proof.
  induction s as [|c s IH]; intros i k H.
  - destruct i, k; reflexivity.
  - simpl in H. apply andb_prop in H as [Hc Hs].
    destruct i as [|i]; simpl.
    + destruct k as [|k]; [reflexivity|]. simpl. rewrite Hc. apply IH, Hs.
    + apply IH, Hs.
Qed.

Lemma length_substring s : forall i k,
  (i + k <= String.length s)%nat -> String.length (substring i k s) = k.
Proof.
  induction s as [|c s IH]; intros i k H; simpl in H.
  - destruct i, k; simpl; lia.
  - destruct i as [|i]; simpl.
    + destruct k as [|k]; [reflexivity|]. simpl. rewrite IH; lia.
    + apply IH. lia.
Qed.

Lemma prefix_cons a s b t :
  String.prefix (String a s) (String b t)
  = if ascii_dec a b then String.prefix s t else false.
Proof. reflexivity. Qed.

Lemma is_e164_plus1 d :
  is_e164 ("+1" +:+ d) = (String.length d =? 10)%nat && all_digits d.
Proof. reflexivity. Qed.

Lemma normalized_e164 phone default_area_code r :
  String.length default_area_code = 3%nat ->
  all_digits default_area_code = true ->
  (Utils.normalize_phone phone default_area_code).1 = Some r ->
  is_e164 r = true.
Proof.
  intros Hlen Harea. unfold Utils.normalize_phone.
  pose proof (all_digits_only_digits phone) as Hd.
  set (digits := Text.only_digits phone) in *.
  destruct (negb (nonempty phone)); [discriminate|].
  destruct (Nat.eqb_spec (String.length digits) 10) as [H10 | _].
  { intros [= <-]. rewrite is_e164_plus1, H10, Hd. reflexivity. }
  destruct (Nat.eqb_spec (String.length digits) 11) as [H11 | _]; simpl.
  - destruct (String.prefix "1" digits) eqn:Hp.
    + intros [= <-]. destruct digits as [|c d]; [discriminate|].
      rewrite prefix_cons in Hp. destruct (ascii_dec "1" c) as [<- | ]; [|discriminate].
      simpl in H11, Hd. injection H11 as H11.
      change ("+" +:+ String "1" d) with ("+1" +:+ d).
      rewrite is_e164_plus1, H11. exact Hd.
    + destruct (Nat.eqb_spec (String.length digits) 7) as [H7 | _]; [lia|].
      destruct (Nat.ltb_spec 11 (String.length digits)); [lia | discriminate].
  - destruct (Nat.eqb_spec (String.length digits) 7) as [H7 | _].
    + intros [= <-].
      rewrite is_e164_plus1, str_length_app, Hlen, H7, all_digits_app, Harea, Hd.
      reflexivity.
    + destruct (Nat.ltb_spec 11 (String.length digits)) as [Hlong | _]; [|discriminate].
      intros [= <-].
      rewrite is_e164_plus1. unfold Text.last_n.
      rewrite length_substring by lia. rewrite all_digits_substring by exact Hd.
      reflexivity.
Qed.



Lemma is_e164_inv r :
  is_e164 r = true ->
  exists d, r = "+1" +:+ d /\ String.length d = 10%nat /\ all_digits d = true.
Proof.
  intros H. destruct r as [|c0 r]; [discriminate|].
  destruct c0 as [[] [] [] [] [] [] [] []]; try discriminate.
  destruct r as [|c1 d]; [discriminate|].
  destruct c1 as [[] [] [] [] [] [] [] []]; try discriminate.
  simpl in H. apply andb_prop in H as [Hlen Hd]. apply Nat.eqb_eq in Hlen.
  exists d. repeat split; assumption.
Qed.

Lemma e164_fixed r default_area_code :
  is_e164 r = true ->
  Utils.normalize_phone r default_area_code = (Some r, []).
Proof.
  intros H. apply is_e164_inv in H as (d & -> & Hlen & Hd).
  unfold Utils.normalize_phone.
  change (Text.only_digits ("+1" +:+ d)) with (String "1" (Text.only_digits d)).
  rewrite (only_digits_all d Hd). simpl String.length. rewrite Hlen.
  rewrite prefix_cons. destruct (ascii_dec "1" "1"); [|congruence].
  destruct d; reflexivity.
Qed.

(** X4. A number in the normalized form is left as it is, without
    a warning, whatever the default area code: [normalize_phone] is
    idempotent. *)
Theorem normalize_phone_fixpoint r default_area_code :
  is_e164 r = true ->
  Utils.normalize_phone r default_area_code = (Some r, []).
Proof. apply e164_fixed. Qed.

Lemma normalize_phone_fixpoint_witness :
  Utils.normalize_phone "+14155551234" "212" = (Some "+14155551234", []).
Proof. apply (normalize_phone_fixpoint "+14155551234" "212"). reflexivity. Defined.

(** ** Case and whitespace *)

Lemma is_space_lower c : Text.is_space (Text.lower_char c) = Text.is_space c.
Proof. destruct c as [[] [] [] [] [] [] [] []]; reflexivity. Qed.

Lemma lower_char_idempotent c : Text.lower_char (Text.lower_char c) = Text.lower_char c.
Proof. destruct c as [[] [] [] [] [] [] [] []]; reflexivity. Qed.

Lemma lower_idempotent s : Text.lower (Text.lower s) = Text.lower s.
Proof.
  induction s as [|c s IH]; [reflexivity|]. simpl.
  rewrite lower_char_idempotent, IH. reflexivity.
Qed.

Lemma lstrip_lower s : Text.lstrip (Text.lower s) = Text.lower (Text.lstrip s).
Proof.
  induction s as [|c s IH]; [reflexivity|]. simpl.
  rewrite is_space_lower. destruct (Text.is_space c); [exact IH | reflexivity].
Qed.

Lemma rstrip_lower s : Text.rstrip (Text.lower s) = Text.lower (Text.rstrip s).
Proof.
  induction s as [|c s IH]; [reflexivity|]. simpl.
  rewrite IH, is_space_lower.
  destruct (Text.rstrip s); simpl; [destruct (Text.is_space c)|]; reflexivity.
Qed.

Lemma strip_lower s : Text.strip (Text.lower s) = Text.lower (Text.strip s).
Proof. unfold Text.strip. rewrite lstrip_lower, rstrip_lower. reflexivity. Qed.

Lemma nonempty_true s : nonempty s = true <-> s <> "".
Proof.
  unfold nonempty. destruct (String.eqb_spec s ""); simpl; split; congruence.
Qed.

(** ** The matcher reads back what the workflow writes *)

(** X5. A customer record that holds the phone and the e-mail in the
    form [create_lead] derives them from a submission is recognised by
    [_customer_has_phone] and [_customer_has_email] for that submission, and
    its confidence is at least 0.8. *)
Theorem stored_contact_recognised cfg form_data customer phone name :
  String.length (DEFAULT_AREA_CODE cfg) = 3%nat ->
  all_digits (DEFAULT_AREA_CODE cfg) = true ->
  submitted_phone cfg form_data = Some phone ->
  nonempty (submitted_email form_data) = true ->
  dict_get (c_fields customer) "mobile_number" = Some phone ->
  dict_get (c_fields customer) "email" = Some (submitted_email form_data) ->
  CustomerMatcher._customer_has_phone customer phone = true /\
  CustomerMatcher._customer_has_email customer (submitted_email form_data) = true /\
  (0.8 <= CustomerMatcher._calculate_confidence customer (Some phone)
            (Some (submitted_email form_data)) name)%Q.
Proof.
  intros Hlen Harea Hphone Hemail Hmobile Hmail.
  assert (He164 : is_e164 phone = true)
    by (eapply normalized_e164; [exact Hlen | exact Harea | exact Hphone]).
  assert (Hp : truthy (Some phone) = true).
  { destruct (is_e164_inv _ He164) as (d & -> & _). reflexivity. }
  assert (Hhas_phone : CustomerMatcher._customer_has_phone customer phone = true).
  { unfold CustomerMatcher._customer_has_phone, CustomerMatcher.first_truthy.
    rewrite Hmobile, Hp. simpl or_empty.
    rewrite (e164_fixed phone "415" He164). simpl fst.
    rewrite Hp. simpl. apply String.eqb_refl. }
  assert (Hstrip : Text.strip (Text.lower (submitted_email form_data))
                   = submitted_email form_data).
  { unfold submitted_email. rewrite lower_idempotent, strip_lower.
    f_equal. apply strip_sanitize_string. }
  assert (Hhas_email :
            CustomerMatcher._customer_has_email customer (submitted_email form_data) = true).
  { unfold CustomerMatcher._customer_has_email. rewrite Hmail. simpl or_empty.
    rewrite Hstrip, Hemail. apply String.eqb_refl. }
  split; [exact Hhas_phone|]. split; [exact Hhas_email|].
  unfold CustomerMatcher._calculate_confidence.
  rewrite Hp. simpl or_empty. rewrite Hhas_phone.
  replace (truthy (Some (submitted_email form_data))) with true
    by (symmetry; exact Hemail).
  rewrite Hhas_email.
  destruct (truthy name); [|vm_compute; discriminate].
  destruct (nonempty (CustomerMatcher.full_name customer)); [|vm_compute; discriminate].
  pose proof (ratio_range (Text.lower (or_empty name))
                (Text.lower (CustomerMatcher.full_name customer))) as [Hr _].
  unfold CustomerMatcher.name_similarity. lra.
Qed.

Lemma stored_contact_recognised_witness :
  CustomerMatcher._customer_has_phone ann_stored "+14155551234" = true /\
  CustomerMatcher._customer_has_email ann_stored (submitted_email ann_form) = true /\
  (0.8 <= CustomerMatcher._calculate_confidence ann_stored (Some "+14155551234")
            (Some (submitted_email ann_form)) (Some "Ann Lee"))%Q.
Proof.
  apply (stored_contact_recognised default_config ann_form ann_stored "+14155551234"
           (Some "Ann Lee")); reflexivity.
Defined.

(** ** [compare_addresses] *)



(** The score depends on the two dictionaries only through the four
    normalized field values. *)
Lemma field_scores_ext a a' b b' :
  (forall f, In f Utils.fields -> Utils.field_value a f = Utils.field_value a' f) ->
  (forall f, In f Utils.fields -> Utils.field_value b f = Utils.field_value b' f) ->
  Utils.field_scores a b = Utils.field_scores a' b' /\
  Utils.weighted_scores a b = Utils.weighted_scores a' b'.
Proof.
  intros Ha Hb. unfold Utils.field_scores, Utils.weighted_scores, Utils.fields in *.
  simpl. rewrite !Ha, !Hb by (simpl; tauto). split; reflexivity.
Qed.

Lemma field_scores_blank a b :
  (forall f, In f Utils.fields -> Utils.field_value a f = "") ->
  Utils.field_scores a b = [] /\ Utils.field_scores b a = [].
Proof.
  intros Ha. unfold Utils.field_scores, Utils.fields in *. simpl.
  rewrite !Ha by (simpl; tauto). simpl. rewrite !orb_true_r. split; reflexivity.
Qed.

Lemma compare_addresses_blank a b :
  (forall f, In f Utils.fields -> Utils.field_value a f = "") ->
  Utils.compare_addresses a b = 0%Q /\ Utils.compare_addresses b a = 0%Q.
Proof.
  intros Ha. destruct (field_scores_blank a b Ha) as [H1 H2].
  unfold Utils.compare_addresses. rewrite H1, H2.
  split; destruct (_ || _); reflexivity.
Qed.

Lemma compare_addresses_ext a a' b b' :
  (forall f, In f Utils.fields -> Utils.field_value a f = Utils.field_value a' f) ->
  (forall f, In f Utils.fields -> Utils.field_value b f = Utils.field_value b' f) ->
  Utils.compare_addresses a b = Utils.compare_addresses a' b'.
Proof.
  intros Ha Hb.
  assert (Hblank : forall d d' x y : gmap string (option string),
            (forall f, In f Utils.fields -> Utils.field_value d f = Utils.field_value d' f) ->
            dict_truthy d = false ->
            Utils.compare_addresses d x = 0%Q /\ Utils.compare_addresses x d = 0%Q /\
            Utils.compare_addresses d' y = 0%Q /\ Utils.compare_addresses y d' = 0%Q).
  { intros d d' x y Hd Hfalse. apply dict_truthy_false_empty in Hfalse. subst d.
    assert (H' : forall f, In f Utils.fields -> Utils.field_value d' f = "").
    { intros f Hf. rewrite <- Hd by exact Hf. apply field_value_empty. }
    assert (H0 : forall f, In f Utils.fields -> Utils.field_value ∅ f = "").
    { intros f _. apply field_value_empty. }
    destruct (compare_addresses_blank ∅ x H0) as [? ?].
    destruct (compare_addresses_blank d' y H') as [? ?]. auto. }
  destruct (dict_truthy a) eqn:Ta.
  2:{ destruct (Hblank a a' b b' Ha Ta) as (-> & _ & -> & _). reflexivity. }
  destruct (dict_truthy a') eqn:Ta'.
  2:{ destruct (Hblank a' a b' b) as (-> & _ & -> & _);
        [intros f Hf; symmetry; apply Ha, Hf | exact Ta' | reflexivity]. }
  destruct (dict_truthy b) eqn:Tb.
  2:{ destruct (Hblank b b' a a' Hb Tb) as (_ & -> & _ & ->). reflexivity. }
  destruct (dict_truthy b') eqn:Tb'.
  2:{ destruct (Hblank b' b a' a) as (_ & -> & _ & ->);
        [intros f Hf; symmetry; apply Hb, Hf | exact Tb' | reflexivity]. }
  destruct (field_scores_ext a a' b b' Ha Hb) as [Hf Hw].
  unfold Utils.compare_addresses. rewrite Ta, Ta', Tb, Tb', Hf, Hw. reflexivity.
Qed.

Lemma dict_get_insert_same (d : gmap string (option string)) k v :
  dict_get (<[k := v]> d) k = v.
Proof. unfold dict_get. rewrite lookup_insert_eq. reflexivity. Qed.

Lemma dict_get_insert_other (d : gmap string (option string)) k k' v :
  k <> k' -> dict_get (<[k := v]> d) k' = dict_get d k'.
Proof. intros H. unfold dict_get. rewrite lookup_insert_ne by exact H. reflexivity. Qed.

(** X7. The four-key copy [_find_matching_address_from_list]
    makes of a known address changes nothing: the score it computes is
    [compare_addresses] of the known address itself and the new one. *)
Theorem reuse_similarity_direct existing_addr new_address :
  reuse_similarity existing_addr new_address
  = Utils.compare_addresses existing_addr new_address.
Proof.
  unfold reuse_similarity. apply compare_addresses_ext; [|reflexivity].
  intros f Hf. unfold Utils.field_value. f_equal. f_equal. f_equal.
  simpl in Hf. destruct Hf as [<- | [<- | [<- | [<- | []]]]];
    repeat first [ apply dict_get_insert_same
                 | rewrite dict_get_insert_other by discriminate ].
Qed.

Lemma rstrip_idempotent s : Text.rstrip (Text.rstrip s) = Text.rstrip s.
Proof.
  induction s as [|c s IH]; [reflexivity|]. simpl.
  destruct (Text.rstrip s) as [|d r] eqn:E.
  - destruct (Text.is_space c) eqn:Hc; [reflexivity|]. simpl. rewrite Hc. reflexivity.
  - change (Text.rstrip (String c (String d r)))
      with (match Text.rstrip (String d r) with
            | EmptyString => if Text.is_space c then EmptyString else String c EmptyString
            | r' => String c r'
            end).
    rewrite IH. reflexivity.
Qed.

Lemma lstrip_rstrip_lstrip s :
  Text.lstrip (Text.rstrip (Text.lstrip s)) = Text.rstrip (Text.lstrip s).
Proof.
  induction s as [|c s IH]; [reflexivity|]. simpl.
  destruct (Text.is_space c) eqn:Hc; [exact IH|]. simpl.
  destruct (Text.rstrip s); rewrite ?Hc; simpl; rewrite Hc; reflexivity.
Qed.

Lemma strip_idempotent s : Text.strip (Text.strip s) = Text.strip s.
Proof.
  unfold Text.strip. rewrite lstrip_rstrip_lstrip. apply rstrip_idempotent.
Qed.

Lemma field_value_fmap (g : string -> string) (a : gmap string (option string)) f :
  g "" = "" ->
  Utils.field_value (map_values g a) f
  = Text.strip (Text.lower (g (or_empty (dict_get a f)))).
Proof.
  intros Hg. unfold Utils.field_value, dict_get, map_values. rewrite lookup_fmap.
  destruct (a !! f) as [[s|]|]; simpl; rewrite ?Hg; reflexivity.
Qed.

(** X8. [compare_addresses] does not see the letter case of the
    values, nor the whitespace around them, on either side. *)
Theorem compare_addresses_insensitive addr1 addr2 :
  Utils.compare_addresses (map_values Text.lower addr1) addr2
  = Utils.compare_addresses addr1 addr2 /\
  Utils.compare_addresses addr1 (map_values Text.lower addr2)
  = Utils.compare_addresses addr1 addr2 /\
  Utils.compare_addresses (map_values Text.strip addr1) addr2
  = Utils.compare_addresses addr1 addr2 /\
  Utils.compare_addresses addr1 (map_values Text.strip addr2)
  = Utils.compare_addresses addr1 addr2.
Proof.
  assert (Hlower : forall a f,
            Utils.field_value (map_values Text.lower a) f = Utils.field_value a f).
  { intros a f. rewrite field_value_fmap by reflexivity.
    rewrite lower_idempotent. reflexivity. }
  assert (Hstrip : forall a f,
            Utils.field_value (map_values Text.strip a) f = Utils.field_value a f).
  { intros a f. rewrite field_value_fmap by reflexivity.
    rewrite <- strip_lower, strip_idempotent. reflexivity. }
  repeat split; apply compare_addresses_ext; intros f _;
    first [apply Hlower | apply Hstrip | reflexivity].
Qed.

(** ** [_find_exact_matches] *)

Lemma id_set_ok cs :
  (forall c, In c cs -> c_fields c !! "id" <> None) ->
  exists ids, CustomerMatcher.id_set cs = Ok ids /\
    forall i, i ∈ ids <-> exists p, In p cs /\ c_fields p !! "id" = Some i.
Proof.
  induction cs as [|c cs IH]; intros Hids.
  - exists ∅. split; [reflexivity|]. intros i. split; [set_solver | intros (p & [] & _)].
  - destruct IH as (ids & Hset & Hin); [intros x Hx; apply Hids; right; exact Hx|].
    destruct (c_fields c !! "id") as [i0|] eqn:Hc;
      [|exfalso; apply (Hids c); [left; reflexivity | exact Hc]].
    exists ({[i0]} ∪ ids). split.
    + simpl. unfold getitem. rewrite Hc. simpl. rewrite Hset. reflexivity.
    + intros i. rewrite elem_of_union, elem_of_singleton, Hin. split.
      * intros [-> | (p & Hp & Hi)]; [exists c; split; [left; reflexivity | exact Hc]|].
        exists p. split; [right; exact Hp | exact Hi].
      * intros (p & [<- | Hp] & Hi); [left; congruence|].
        right. exists p. split; assumption.
Qed.

Lemma with_id_in_ok ids cs :
  (forall c, In c cs -> c_fields c !! "id" <> None) ->
  exists exact, CustomerMatcher.with_id_in ids cs = Ok exact /\
    sublist exact cs /\
    forall c, In c exact <-> In c cs /\ exists i, c_fields c !! "id" = Some i /\ i ∈ ids.
Proof.
  induction cs as [|c cs IH]; intros Hids.
  - exists []. split; [reflexivity|]. split; [constructor|].
    intros c. split; [intros [] | intros [[] _]].
  - destruct IH as (exact & Hrun & Hsub & Hin); [intros x Hx; apply Hids; right; exact Hx|].
    destruct (c_fields c !! "id") as [i0|] eqn:Hc;
      [|exfalso; apply (Hids c); [left; reflexivity | exact Hc]].
    exists (if bool_decide (i0 ∈ ids) then c :: exact else exact). split.
    { simpl. unfold getitem. rewrite Hc. simpl. rewrite Hrun. reflexivity. }
    destruct (bool_decide_reflect (i0 ∈ ids)) as [Hi | Hi].
    + split; [apply sublist_skip, Hsub|]. intros x. simpl. rewrite Hin. split.
      * intros [<- | [Hx Hid]]; [split; [left; reflexivity | exists i0; auto]|].
        split; [right; exact Hx | exact Hid].
      * intros [[<- | Hx] Hid]; [left; reflexivity | right; auto].
    + split; [apply sublist_cons, Hsub|]. intros x. rewrite Hin. simpl. split.
      * intros [Hx Hid]. split; [right; exact Hx | exact Hid].
      * intros [[<- | Hx] (i & Hxi & Hi')]; [congruence|].
        split; [exact Hx | exists i; auto].
Qed.

(** X9. When every record the searches returned has the key [id], the
    exact matches are the records of the e-mail search, in their order,
    whose id is the id of a record of the phone search. *)
Theorem find_exact_matches_spec phone_matches email_matches :
  (forall c, In c (phone_matches ++ email_matches) -> c_fields c !! "id" <> None) ->
  exists exact,
    CustomerMatcher._find_exact_matches phone_matches email_matches = Ok exact /\
    sublist exact email_matches /\
    forall c, In c exact <->
      In c email_matches /\
      exists p, In p phone_matches /\ c_fields p !! "id" = c_fields c !! "id".
Proof.
  intros Hids. unfold CustomerMatcher._find_exact_matches.
  destruct phone_matches as [|p0 pm].
  { exists []. split; [reflexivity|]. split; [apply sublist_nil_l|].
    intros c. split; [intros [] | intros [_ (p & [] & _)]]. }
  destruct email_matches as [|e0 em].
  { exists []. split; [reflexivity|]. split; [constructor|].
    intros c. split; [intros [] | intros [[] _]]. }
  destruct (id_set_ok (p0 :: pm)) as (ids & Hset & Hin).
  { intros c Hc. apply Hids, in_or_app. left. exact Hc. }
  destruct (with_id_in_ok ids (e0 :: em)) as (exact & Hrun & Hsub & Hexact).
  { intros c Hc. apply Hids, in_or_app. right. exact Hc. }
  exists exact. split; [|split; [exact Hsub|]].
  - change ((CustomerMatcher.id_set (p0 :: pm) ≫= fun phone_ids =>
               CustomerMatcher.with_id_in phone_ids (e0 :: em)) = Ok exact).
    rewrite Hset. exact Hrun.
  - intros c. rewrite Hexact. split.
    + intros [Hc (i & Hci & Hi)]. split; [exact Hc|].
      apply Hin in Hi as (p & Hp & Hpi). exists p. split; [exact Hp | congruence].
    + intros [Hc (p & Hp & Hpc)]. split; [exact Hc|].
      destruct (c_fields c !! "id") as [i|] eqn:Hci.
      * exists i. split; [reflexivity|]. apply Hin. exists p. auto.
      * exfalso. apply (Hids c); [apply in_or_app; right; exact Hc | exact Hci].
Qed.

Lemma find_exact_matches_spec_witness :
  exists exact,
    CustomerMatcher._find_exact_matches [one_address; ann] [ann; two_addresses] = Ok exact /\
    sublist exact [ann; two_addresses] /\
    forall c, In c exact <->
      In c [ann; two_addresses] /\
      exists p, In p [one_address; ann] /\ c_fields p !! "id" = c_fields c !! "id".
Proof.
  apply (find_exact_matches_spec [one_address; ann] [ann; two_addresses]).
  intros c Hc. simpl in Hc.
  destruct Hc as [<- | [<- | [<- | [<- | []]]]]; vm_compute; discriminate.
Defined.

Lemma id_set_raises cs :
  (exists c, In c cs /\ c_fields c !! "id" = None) ->
  CustomerMatcher.id_set cs = Raise "'id'".
Proof.
  induction cs as [|c cs IH]; intros (x & Hx & Hid); [destruct Hx|].
  simpl. unfold getitem. destruct (c_fields c !! "id") eqn:Hc; [|reflexivity].
  simpl. rewrite IH; [reflexivity|].
  destruct Hx as [-> | Hx]; [congruence|]. exists x. auto.
Qed.

Lemma with_id_in_raises ids cs :
  (exists c, In c cs /\ c_fields c !! "id" = None) ->
  CustomerMatcher.with_id_in ids cs = Raise "'id'".
Proof.
  induction cs as [|c cs IH]; intros (x & Hx & Hid); [destruct Hx|].
  simpl. unfold getitem. destruct (c_fields c !! "id") eqn:Hc; [|reflexivity].
  simpl. rewrite IH; [reflexivity|].
  destruct Hx as [-> | Hx]; [congruence|]. exists x. auto.
Qed.

(** X10. [_find_exact_matches] reads [c["id"]]: when both
    searches returned something and one of the records has no key [id], it
    raises [KeyError('id')]; when one search returned nothing it returns no
    exact match without reading any id. *)
Theorem find_exact_matches_missing_id phone_matches email_matches :
  (phone_matches = [] \/ email_matches = [] ->
   CustomerMatcher._find_exact_matches phone_matches email_matches = Ok []) /\
  (phone_matches <> [] -> email_matches <> [] ->
   (exists c, In c (phone_matches ++ email_matches) /\ c_fields c !! "id" = None) ->
   CustomerMatcher._find_exact_matches phone_matches email_matches = Raise "'id'").
Proof.
  split.
  - intros [-> | ->]; [reflexivity|]. destruct phone_matches; reflexivity.
  - intros Hp He (c & Hc & Hid). unfold CustomerMatcher._find_exact_matches.
    destruct phone_matches as [|p0 pm]; [congruence|].
    destruct email_matches as [|e0 em]; [congruence|].
    change ((CustomerMatcher.id_set (p0 :: pm) ≫= fun phone_ids =>
               CustomerMatcher.with_id_in phone_ids (e0 :: em)) = Raise "'id'").
    apply in_app_or in Hc as [Hc | Hc].
    + rewrite id_set_raises; [reflexivity | exists c; auto].
    + destruct (CustomerMatcher.id_set (p0 :: pm)) as [ids|msg] eqn:Hset.
      * change (CustomerMatcher.with_id_in ids (e0 :: em) = Raise "'id'").
        apply with_id_in_raises. exists c. auto.
      * assert (Hmsg : exists x, In x (p0 :: pm) /\ c_fields x !! "id" = None).
        { clear -Hset. revert msg Hset. induction (p0 :: pm) as [|x xs IH]; intros msg Hset;
            [discriminate|].
          simpl in Hset. unfold getitem in Hset.
          destruct (c_fields x !! "id") eqn:Hx; [|exists x; split; [left; reflexivity | exact Hx]].
          simpl in Hset. destruct (CustomerMatcher.id_set xs) eqn:Hxs; [discriminate|].
          destruct (IH _ eq_refl) as (y & Hy & Hyid). exists y. split; [right; exact Hy | exact Hyid]. }
        rewrite id_set_raises in Hset by exact Hmsg. injection Hset as <-. reflexivity.
Qed.

Lemma find_exact_matches_missing_id_witness :
  CustomerMatcher._find_exact_matches found_without_id [ann] = Raise "'id'".
Proof.
  apply (find_exact_matches_missing_id found_without_id [ann]); [discriminate.. |].
  exists (mkCustomer (<["first_name" := Some "Bob"]> ∅) None).
  split; [right; left; reflexivity | reflexivity].
Defined.

(** ** [_deduplicate_customers] *)

Lemma truthy_or_empty_inj x y :
  truthy x = true -> truthy y = true -> or_empty x = or_empty y -> x = y.
Proof. destruct x, y; simpl; intros; try discriminate; congruence. Qed.

Lemma deduplicate_from_spec customers : forall seen,
  let unique := CustomerMatcher.deduplicate_from seen customers in
  sublist unique customers /\
  NoDup (map id_of_customer unique) /\
  (forall c, In c unique ->
     truthy (id_of_customer c) = true /\ or_empty (id_of_customer c) ∉ seen) /\
  (forall c, In c customers -> truthy (id_of_customer c) = true ->
     or_empty (id_of_customer c) ∉ seen ->
     exists c', In c' unique /\ id_of_customer c' = id_of_customer c) /\
  (forall c, In c unique ->
     exists before after, customers = before ++ c :: after /\
       forall b, In b before -> id_of_customer b <> id_of_customer c).
Proof.
  induction customers as [|h rest IH]; intros seen; simpl.
  { split; [apply sublist_nil|]. split; [apply NoDup_nil_2|].
    split; [intros c []|]. split; intros c []. }
  fold (id_of_customer h).
  destruct (truthy (id_of_customer h)
            && negb (bool_decide (or_empty (id_of_customer h) ∈ seen))) eqn:Htake.
  - apply andb_prop in Htake as [Hid Hnew]. apply negb_true_iff in Hnew.
    apply bool_decide_eq_false in Hnew.
    destruct (IH ({[or_empty (id_of_customer h)]} ∪ seen))
      as (Hsub & Hnodup & Htruthy & Hcover & Hfirst).
    split; [apply sublist_skip, Hsub|]. split; [|split; [|split]].
    + constructor; [|exact Hnodup].
      intros Hin. apply list_elem_of_In, in_map_iff in Hin as (c & Hc & Hcin).
      destruct (Htruthy c Hcin) as [_ Hout]. apply Hout.
      rewrite Hc. apply elem_of_union_l, elem_of_singleton. reflexivity.
    + intros c [<- | Hc]; [split; assumption|].
      destruct (Htruthy c Hc) as [Ht Hout]. split; [exact Ht|].
      intros Hs. apply Hout, elem_of_union_r, Hs.
    + intros c [<- | Hc] Ht Hout; [exists h; split; [left|]; reflexivity|].
      destruct (decide (or_empty (id_of_customer c) = or_empty (id_of_customer h))) as [E | E].
      * exists h. split; [left; reflexivity|].
        symmetry. apply truthy_or_empty_inj; assumption.
      * destruct (Hcover c Hc Ht) as (c' & Hc' & Hsame).
        { intros [Hs | Hs]%elem_of_union; [|contradiction].
          apply elem_of_singleton in Hs. contradiction. }
        exists c'. split; [right; exact Hc' | exact Hsame].
    + intros c [<- | Hc]; [exists [], rest; split; [reflexivity | intros b []]|].
      destruct (Hfirst c Hc) as (before & after & -> & Hbefore).
      exists (h :: before), after. split; [reflexivity|].
      intros b [<- | Hb]; [|apply Hbefore, Hb].
      destruct (Htruthy c Hc) as [_ Hout]. intros E. apply Hout. rewrite E.
      apply elem_of_union_l, elem_of_singleton. reflexivity.
  - destruct (IH seen) as (Hsub & Hnodup & Htruthy & Hcover & Hfirst).
    split; [apply sublist_cons, Hsub|]. split; [exact Hnodup|].
    split; [exact Htruthy|]. split.
    + intros c [<- | Hc] Ht Hout; [|apply Hcover; assumption].
      exfalso. rewrite Ht in Htake. simpl in Htake.
      apply negb_false_iff, bool_decide_eq_true in Htake. contradiction.
    + intros c Hc. destruct (Hfirst c Hc) as (before & after & -> & Hbefore).
      exists (h :: before), after. split; [reflexivity|].
      intros b [<- | Hb]; [|apply Hbefore, Hb].
      destruct (Htruthy c Hc) as [Ht Hout]. intros E. rewrite E, Ht in Htake.
      simpl in Htake. apply negb_false_iff, bool_decide_eq_true in Htake. contradiction.
Qed.

(** X11. [_deduplicate_customers] keeps, in their order, the first record
    of every non-empty id and nothing else: no id is kept twice, a record
    without id is dropped, and every non-empty id of the input is kept. *)
Theorem deduplicate_customers_spec customers :
  let unique := CustomerMatcher._deduplicate_customers customers in
  sublist unique customers /\
  NoDup (map id_of_customer unique) /\
  (forall c, In c unique -> truthy (id_of_customer c) = true) /\
  (forall c, In c customers -> truthy (id_of_customer c) = true ->
     exists c', In c' unique /\ id_of_customer c' = id_of_customer c) /\
  (forall c, In c unique ->
     exists before after, customers = before ++ c :: after /\
       forall b, In b before -> id_of_customer b <> id_of_customer c).
Proof.
  destruct (deduplicate_from_spec customers ∅) as (Hsub & Hnodup & Htruthy & Hcover & Hfirst).
  split; [exact Hsub|]. split; [exact Hnodup|]. split; [|split; [|exact Hfirst]].
  - intros c Hc. apply Htruthy, Hc.
  - intros c Hc Ht. apply Hcover; [exact Hc | exact Ht | apply not_elem_of_empty].
Qed.

(** ** [_select_best_match] *)

Lemma sort_desc_head (l : list (Q * Customer)) :
  l <> [] ->
  exists best before after rest,
    l = before ++ best :: after /\
    CustomerMatcher.sort_desc l = best :: rest /\
    (forall x, In x before -> (fst x < fst best)%Q) /\
    (forall x, In x after -> (fst x <= fst best)%Q).
Proof.
  induction l as [|x l IH]; [congruence|]. intros _.
  destruct l as [|y l].
  { exists x, [], [], []. repeat split; intros ? []. }
  destruct IH as (m & before & after & rest & Hl & Hsort & Hbefore & Hafter);
    [discriminate|].
  change (CustomerMatcher.sort_desc (x :: y :: l))
    with (CustomerMatcher.insert_desc x (CustomerMatcher.sort_desc (y :: l))).
  rewrite Hsort, Hl. simpl.
  destruct (Qle_bool (fst m) (fst x)) eqn:Hle.
  - apply Qle_bool_iff in Hle.
    exists x, [], (before ++ m :: after), (m :: rest).
    split; [reflexivity|]. split; [reflexivity|]. split; [intros ? []|].
    intros z Hz. apply in_app_or in Hz as [Hz | [<- | Hz]].
    + apply Qlt_le_weak. eapply Qlt_le_trans; [apply Hbefore, Hz | exact Hle].
    + exact Hle.
    + eapply Qle_trans; [apply Hafter, Hz | exact Hle].
  - assert (Hlt : (fst x < fst m)%Q).
    { apply Qnot_le_lt. intros H. apply Qle_bool_iff in H. congruence. }
    exists m, (x :: before), after, (CustomerMatcher.insert_desc x rest).
    split; [reflexivity|]. split; [reflexivity|]. split; [|exact Hafter].
    intros z [<- | Hz]; [exact Hlt | apply Hbefore, Hz].
Qed.

Lemma select_best_match_cons name address c cs :
  exists best before after,
    CustomerMatcher._select_best_match (c :: cs) name address = Ok best /\
    c :: cs = before ++ best :: after /\
    (forall x, In x before ->
       (CustomerMatcher.candidate_score name address x
        < CustomerMatcher.candidate_score name address best)%Q) /\
    (forall x, In x after ->
       (CustomerMatcher.candidate_score name address x
        <= CustomerMatcher.candidate_score name address best)%Q).
Proof.
  destruct cs as [|c' cs].
  { exists c, [], []. repeat split; intros ? []. }
  set (score := CustomerMatcher.candidate_score name address).
  set (candidates := c :: c' :: cs).
  destruct (sort_desc_head (map (fun x => (score x, x)) candidates))
    as ([q best] & before & after & rest & Hl & Hsort & Hbefore & Hafter);
    [discriminate|].
  apply map_eq_app in Hl as (before' & tail & Hcands & <- & Htail).
  apply map_eq_cons in Htail as (best' & after' & -> & [= <- <-] & <-).
  exists best', before', after'. split; [|split; [exact Hcands|split]].
  - unfold CustomerMatcher._select_best_match. fold score. fold candidates.
    unfold candidates at 1. rewrite Hsort. reflexivity.
  - intros x Hx. apply (Hbefore (score x, x)), in_map_iff. exists x. auto.
  - intros x Hx. apply (Hafter (score x, x)), in_map_iff. exists x. auto.
Qed.

Lemma select_best_match_in candidates name address best :
  CustomerMatcher._select_best_match candidates name address = Ok best ->
  In best candidates.
Proof.
  destruct candidates as [|c cs]; [discriminate|].
  destruct (select_best_match_cons name address c cs)
    as (best' & before & after & Hrun & Hsplit & _).
  rewrite Hrun. intros [= <-]. rewrite Hsplit. apply in_or_app. right. left. reflexivity.
Qed.

(** X12. [_select_best_match] raises [IndexError] on no candidate;
    otherwise it returns the first candidate of the highest score: every
    candidate before it scores strictly less, every one after it at most as
    much. *)
Theorem select_best_match_first_maximum name address :
  CustomerMatcher._select_best_match [] name address = Raise "list index out of range" /\
  forall c cs, exists best before after,
    CustomerMatcher._select_best_match (c :: cs) name address = Ok best /\
    c :: cs = before ++ best :: after /\
    (forall x, In x before ->
       (CustomerMatcher.candidate_score name address x
        < CustomerMatcher.candidate_score name address best)%Q) /\
    (forall x, In x after ->
       (CustomerMatcher.candidate_score name address x
        <= CustomerMatcher.candidate_score name address best)%Q).
Proof. split; [reflexivity | intros c cs; apply select_best_match_cons]. Qed.

(** ** Runs of [create_lead] *)

Lemma create_lead_after_match {St} cfg re format_percent (hcp_client : Directory St)
    form_data st m s1 :
  matching cfg re hcp_client form_data (st, []) = (Ok m, s1) ->
  LeadCreator.create_lead cfg re format_percent hcp_client form_data st
  = (final (LeadCreator.settle_customer cfg format_percent hcp_client form_data m
              (submitted_names form_data).1.1 (submitted_names form_data).1.2
              (submitted_email form_data) (submitted_phone cfg form_data)
              (LeadCreator.parsed_address_of cfg re form_data)
              (default false (fd_sms_consent form_data)) s1).1,
     (LeadCreator.settle_customer cfg format_percent hcp_client form_data m
        (submitted_names form_data).1.1 (submitted_names form_data).1.2
        (submitted_email form_data) (submitted_phone cfg form_data)
        (LeadCreator.parsed_address_of cfg re form_data)
        (default false (fd_sms_consent form_data)) s1).2).
Proof.
  intros Hm. unfold LeadCreator.create_lead. rewrite create_lead_body_phases.
  unfold mbind, M_bind. rewrite Hm.
  destruct (LeadCreator.settle_customer _ _ _ _ _ _ _ _ _ _ _ s1) as [[r|e] s2];
    reflexivity.
Qed.

Lemma find_matching_customer_no_contact {St} (hcp_client : Directory St)
    phone email name address is_existing s :
  truthy phone = false -> truthy email = false ->
  CustomerMatcher.find_matching_customer hcp_client phone email name address
    is_existing s
  = (Ok (mkMatchResult "none" 0 None None [] true), s).
Proof.
  intros Hp He. unfold CustomerMatcher.find_matching_customer.
  rewrite Hp, He. destruct s. reflexivity.
Qed.

Lemma filed_kinds cfg m parsed_address customer_id new_address_id rest outcome :
  filed cfg m parsed_address customer_id new_address_id rest outcome ->
  List.Forall (fun ev => is_lookup ev.1 = true \/ is_create_lead ev.1 = true) rest.
Proof.
  intros (lookups & Hl & [[-> _] | (lead & ans & -> & _)]).
  - eapply List.Forall_impl; [|exact Hl]. intros ev H. left. exact H.
  - apply List.Forall_app. split.
    + eapply List.Forall_impl; [|exact Hl]. intros ev H. left. exact H.
    + constructor; [right; reflexivity | constructor].
Qed.

(** X13. A submission from which neither a phone number nor an
    e-mail can be read is not searched for: the first request of the run
    creates the customer, and the run sends no search. *)
Theorem create_lead_without_contact {St} cfg re format_percent
    (hcp_client : Directory St) form_data st :
  submitted_phone cfg form_data = None ->
  submitted_email form_data = "" ->
  exists ans rest,
    (LeadCreator.create_lead cfg re format_percent hcp_client form_data st).2.2
    = (CreateCustomer (new_customer cfg re form_data), ans) :: rest /\
    forall query found, ~ In (SearchCustomers query, found) rest.
Proof.
  intros Hphone Hemail.
  assert (Hm : matching cfg re hcp_client form_data (st, [])
               = (Ok (mkMatchResult "none" 0 None None [] true), (st, []))).
  { unfold matching. apply find_matching_customer_no_contact.
    - rewrite Hphone. reflexivity.
    - rewrite Hemail. reflexivity. }
  rewrite (create_lead_after_match _ _ _ _ _ _ _ _ Hm).
  destruct (settle_customer_settled cfg format_percent hcp_client form_data
              (mkMatchResult "none" 0 None None [] true)
              (submitted_names form_data).1.1 (submitted_names form_data).1.2
              (submitted_email form_data) (submitted_phone cfg form_data)
              (LeadCreator.parsed_address_of cfg re form_data)
              (default false (fd_sms_consent form_data)) (st, []))
    as (rest & Ht & Hset).
  cbn [snd] in Ht |- *. rewrite Ht. simpl app.
  unfold settled in Hset. cbn [should_create_new] in Hset.
  fold (new_customer cfg re form_data) in Hset.
  destruct Hset as ([found | d | known | e] & Hans); try contradiction.
  - destruct (truthy (LeadCreator.id_of d)).
    + destruct Hans as (rest' & -> & Hfiled). exists (Record d), rest'.
      split; [reflexivity|]. intros query found Hin.
      pose proof (filed_kinds _ _ _ _ _ _ _ Hfiled) as Hkinds.
      rewrite List.Forall_forall in Hkinds.
      destruct (Hkinds _ Hin); discriminate.
    + destruct Hans as [-> _]. exists (Record d), []. split; [reflexivity | intros ? ? []].
  - destruct Hans as [-> _]. exists (Fault e), []. split; [reflexivity | intros ? ? []].
Qed.

Lemma create_lead_without_contact_witness :
  exists ans rest,
    (LeadCreator.create_lead default_config no_regex percent refusing name_only_form tt).2.2
    = (CreateCustomer (new_customer default_config no_regex name_only_form), ans) :: rest /\
    forall query found, ~ In (SearchCustomers query, found) rest.
Proof.
  apply (create_lead_without_contact default_config no_regex percent refusing
           name_only_form tt); reflexivity.
Defined.

Lemma last_in {A} (l : list A) x : last l = Some x -> In x l.
Proof.
  intros H. apply last_Some in H as (l' & ->). apply in_or_app. right. left. reflexivity.
Qed.

Lemma reports_no_lead tr r :
  List.Forall (fun ev => is_create_lead ev.1 = false) tr ->
  success r = false -> job_id r = None -> error r <> None ->
  reports tr r.
Proof.
  intros Hno Hs Hj He. rewrite List.Forall_forall in Hno.
  assert (Hlast : forall p d, last tr <> Some (CreateLead p, Record d)).
  { intros p d Hl. apply last_in, Hno in Hl. discriminate. }
  split; [|split].
  - rewrite Hs. split; [discriminate|]. intros (p & d & Hl & _). destruct (Hlast _ _ Hl).
  - intros p d Hl. destruct (Hlast _ _ Hl).
  - intros _. split; assumption.
Qed.

Lemma reports_filed cfg m parsed_address customer_id new_address_id rest outcome pre :
  filed cfg m parsed_address customer_id new_address_id rest outcome ->
  List.Forall (fun ev => is_create_lead ev.1 = false) pre ->
  reports (pre ++ rest) (final outcome).
Proof.
  intros (lookups & Hl & Hcases) Hpre.
  assert (Hlookups : List.Forall (fun ev => is_create_lead ev.1 = false) lookups).
  { eapply List.Forall_impl; [|exact Hl]. intros [[] ?] H; try discriminate H; reflexivity. }
  destruct Hcases as [[-> (e & ->)] | (lead & ans & -> & Hcid & _ & _ & Hans)].
  { apply reports_no_lead; [apply List.Forall_app; auto | reflexivity.. | discriminate]. }
  assert (Hlast : last (pre ++ lookups ++ [(CreateLead lead, ans)])
                  = Some (CreateLead lead, ans)).
  { rewrite app_assoc. apply last_snoc. }
  unfold reports. rewrite Hlast.
  destruct ans as [found | d | known | e]; try contradiction.
  - destruct (truthy (LeadCreator.id_of d)) eqn:Hid; subst outcome; simpl.
    + split; [|split].
      * split; [intros _; exists lead, d; auto | reflexivity].
      * intros p d' [= <- <-] _. auto.
      * discriminate.
    + split; [|split].
      * split; [discriminate|]. intros (p & d' & [= <- <-] & H). congruence.
      * intros p d' [= <- <-] H. congruence.
      * intros _. split; [reflexivity | discriminate].
  - subst outcome. simpl. split; [|split].
    + split; [discriminate | intros (p & d' & [=] & _)].
    + intros p d' [=].
    + intros _. split; [reflexivity | discriminate].
Qed.

Lemma searches_no_lead evs :
  List.Forall (requests is_search) evs ->
  List.Forall (fun ev => is_create_lead ev.1 = false) evs.
Proof.
  intros H. eapply List.Forall_impl; [|exact H].
  intros [[] ?] Hs; try discriminate Hs; reflexivity.
Qed.

(** X14. What [create_lead] returns agrees with what it sent: the
    result is a success exactly when the last request of the run created a
    lead and the answer has an id; it then carries that id as [job_id] and the
    customer of that lead; any other result carries an error and no lead
    id. *)
Theorem create_lead_reports {St} cfg re format_percent (hcp_client : Directory St)
    form_data st :
  reports (LeadCreator.create_lead cfg re format_percent hcp_client form_data st).2.2
          (LeadCreator.create_lead cfg re format_percent hcp_client form_data st).1.
Proof.
  destruct (create_lead_shape cfg re format_percent hcp_client form_data st)
    as (searches & Hs &
        [(e & s1 & _ & -> & ->) | (m & s1 & rest & outcome & _ & -> & -> & Hset)]).
  { apply reports_no_lead;
      [apply searches_no_lead, Hs | reflexivity | reflexivity | discriminate]. }
  apply searches_no_lead in Hs.
  unfold settled in Hset. destruct (should_create_new m).
  - destruct Hset as ([found | d | known | e] & Hans); try contradiction.
    + destruct (truthy (LeadCreator.id_of d)).
      * destruct Hans as (rest' & -> & Hfiled).
        change (searches ++ (CreateCustomer (new_customer cfg re form_data), Record d) :: rest')
          with (searches ++ [(CreateCustomer (new_customer cfg re form_data), Record d)]
                         ++ rest').
        rewrite app_assoc. eapply reports_filed; [exact Hfiled|].
        apply List.Forall_app. split; [exact Hs | repeat constructor].
      * destruct Hans as [-> ->].
        apply reports_no_lead;
          [apply List.Forall_app; split; [exact Hs | repeat constructor]
          | reflexivity | reflexivity | discriminate].
    + destruct Hans as [-> ->].
      apply reports_no_lead;
        [apply List.Forall_app; split; [exact Hs | repeat constructor]
        | reflexivity | reflexivity | discriminate].
  - destruct Hset as [(e & -> & ->) | (adds & new_address_id & rest' & -> & Hadded & Hfiled)].
    + apply reports_no_lead;
        [apply List.Forall_app; split; [exact Hs | repeat constructor]
        | reflexivity | reflexivity | discriminate].
    + rewrite app_assoc. eapply reports_filed; [exact Hfiled|].
      apply List.Forall_app. split; [exact Hs|].
      destruct Hadded as [[-> _] | (d & -> & _)]; repeat constructor.
Qed.




(** ** Specifications of runs *)

Lemma run_ret {St A} (T : list (Call * Answer) -> Prop) (R : A -> Prop) (a : A) :
  T [] -> R a -> run_spec T R (mret a : M St A).
Proof.
  intros HT HR s. exists []. rewrite app_nil_r.
  split; [reflexivity|]. split; [exact HT|]. intros a' [= <-]. exact HR.
Qed.

Lemma run_lift {St A} (T : list (Call * Answer) -> Prop) (R : A -> Prop) (r : res A) :
  T [] -> (forall a, r = Ok a -> R a) -> run_spec T R (lift r : M St A).
Proof.
  intros HT HR s. exists []. rewrite app_nil_r.
  split; [reflexivity|]. split; [exact HT|]. intros a Ha. apply HR, Ha.
Qed.

Lemma run_call {St A} (T : list (Call * Answer) -> Prop) (R : A -> Prop) c
    (answer : A -> Answer) (op : St -> res A * St) :
  (forall ans, T [(c, ans)]) -> (forall a, R a) -> run_spec T R (call c answer op).
Proof.
  intros HT HR s. unfold call. destruct (op s.1) as [r st'].
  eexists. split; [reflexivity|]. split; [apply HT|]. intros a _. apply HR.
Qed.

Lemma run_bind {St A B} (T1 T2 T : list (Call * Answer) -> Prop)
    (R1 : A -> Prop) (R2 : B -> Prop) (m : M St A) (k : A -> M St B) :
  run_spec T1 R1 m ->
  (forall a, R1 a -> run_spec T2 R2 (k a)) ->
  (forall evs, T1 evs -> T evs) ->
  (forall evs1 evs2, T1 evs1 -> T2 evs2 -> T (evs1 ++ evs2)) ->
  run_spec T R2 (m ≫= k).
Proof.
  intros Hm Hk Hraise Happ s. unfold mbind, M_bind.
  destruct (Hm s) as (evs1 & Ht1 & HT1 & HR1).
  destruct (m s) as [[a|e] s1]; simpl in Ht1, HR1.
  - destruct (Hk a (HR1 a eq_refl) s1) as (evs2 & Ht2 & HT2 & HR2).
    exists (evs1 ++ evs2). split; [rewrite Ht2, Ht1, app_assoc; reflexivity|].
    split; [apply Happ; assumption | exact HR2].
  - exists evs1. split; [exact Ht1|]. split; [apply Hraise, HT1 | discriminate].
Qed.

(** The case of one property [P] of every entry. *)
Lemma run_bind_all {St A B} (P : Call * Answer -> Prop)
    (R1 : A -> Prop) (R2 : B -> Prop) (m : M St A) (k : A -> M St B) :
  run_spec (List.Forall P) R1 m ->
  (forall a, R1 a -> run_spec (List.Forall P) R2 (k a)) ->
  run_spec (List.Forall P) R2 (m ≫= k).
Proof.
  intros Hm Hk. eapply run_bind; [exact Hm | exact Hk | auto |].
  intros evs1 evs2 H1 H2. apply List.Forall_app. auto.
Qed.

Lemma run_trace {St} cfg re format_percent (hcp_client : Directory St) form_data
    (T : list (Call * Answer) -> Prop) (R : LeadCreationResult -> Prop) st :
  run_spec T R (LeadCreator.create_lead_body cfg re format_percent hcp_client form_data) ->
  T (LeadCreator.create_lead cfg re format_percent hcp_client form_data st).2.2.
Proof.
  intros H. destruct (H (st, [])) as (evs & Ht & HT & _).
  unfold LeadCreator.create_lead.
  destruct (LeadCreator.create_lead_body _ _ _ _ _ (st, [])) as [[r|e] s];
    simpl in Ht |- *; rewrite Ht; exact HT.
Qed.

(** ** A submission without address *)

Lemma any_values_false (d : gmap string (option string)) k :
  any_values d = false -> or_empty (dict_get d k) = "".
Proof.
  intros H. unfold dict_get. destruct (d !! k) as [[v|]|] eqn:E; try reflexivity.
  simpl. destruct (String.eqb_spec v "") as [-> | Hv]; [reflexivity|].
  exfalso. unfold any_values in H.
  assert (Hex : existsb truthy (map_to_list d).*2 = true); [|congruence].
  apply existsb_exists. exists (Some v). split.
  - apply list_elem_of_In, list_elem_of_fmap. exists (k, Some v).
    split; [reflexivity|]. apply elem_of_map_to_list. exact E.
  - simpl. apply negb_true_iff, String.eqb_neq. exact Hv.
Qed.

Lemma field_value_blank (d : gmap string (option string)) f :
  any_values d = false -> Utils.field_value d f = "".
Proof. intros H. unfold Utils.field_value. rewrite (any_values_false d f H). reflexivity. Qed.

Lemma find_matching_address_blank known new_address :
  any_values new_address = false ->
  LeadCreator._find_matching_address_from_list known new_address = None.
Proof.
  intros H. induction known as [|a known IH]; [reflexivity|]. simpl.
  destruct (compare_addresses_blank new_address
              (<["zip" := dict_get a "zip"]>
                 (<["state" := dict_get a "state"]>
                    (<["city" := dict_get a "city"]>
                       (<["street" := dict_get a "street"]> ∅)))))
    as [_ ->]; [intros f _; apply field_value_blank, H|].
  exact IH.
Qed.

Section NoAddress.

Context {St : Type}.
Variable cfg : Config.
Variable format_percent : Q -> string.
Variable hcp_client : Directory St.
Variable parsed_address : gmap string (option string).
Hypothesis blank : any_values parsed_address = false.

Lemma lead_address_blank m customer_id :
  run_spec (List.Forall no_address_sent) (fun r => r = (None, None))
    (LeadCreator.lead_address cfg hcp_client m parsed_address customer_id None).
Proof.
  unfold LeadCreator.lead_address.
  destruct (should_create_new m).
  { apply run_ret; [constructor|]. unfold LeadCreator._build_address_dict.
    rewrite blank, orb_true_r. reflexivity. }
  apply run_bind_all with (R1 := fun address_id => address_id = None).
  - cbn [truthy]. destruct (truthy customer_id && dict_truthy parsed_address);
      [|apply run_ret; [constructor | reflexivity]].
    apply run_bind_all with (R1 := fun _ => True).
    + apply run_call; [|auto]. intros ans. repeat constructor.
    + intros known _. destruct known; [apply run_ret; [constructor | reflexivity]|].
      rewrite (find_matching_address_blank _ _ blank).
      apply run_ret; [constructor | reflexivity].
  - intros address_id ->. cbn [truthy andb].
    apply run_bind_all with (R1 := fun address => address = None);
      [apply run_ret; [constructor | reflexivity]|].
    intros address ->. apply run_ret; [constructor | reflexivity].
Qed.

Lemma file_lead_blank form_data m customer_id :
  run_spec (List.Forall no_address_sent) (fun _ => True)
    (LeadCreator.file_lead cfg format_percent hcp_client form_data m parsed_address
       customer_id None).
Proof.
  unfold LeadCreator.file_lead.
  eapply run_bind_all; [apply lead_address_blank|].
  intros r ->. cbn zeta.
  eapply run_bind_all with (R1 := fun _ => True).
  - unfold LeadCreator._create_lead_with_job_type.
    eapply run_bind_all with (R1 := fun _ => True).
    + apply run_call; [|auto]. intros ans. constructor; [|constructor].
      split; reflexivity.
    + intros result _. apply run_ret; [constructor | exact I].
  - intros lead_id _. destruct (negb (truthy lead_id)); apply run_ret; auto.
Qed.

Lemma settle_customer_blank form_data m first_name last_name email phone sms_consent :
  run_spec (List.Forall no_address_sent) (fun _ => True)
    (LeadCreator.settle_customer cfg format_percent hcp_client form_data m first_name
       last_name email phone parsed_address sms_consent).
Proof.
  unfold LeadCreator.settle_customer. destruct (should_create_new m).
  - eapply run_bind_all with (R1 := fun _ => True).
    + unfold LeadCreator._create_customer.
      eapply run_bind_all with (R1 := fun _ => True).
      * apply run_call; [|auto]. intros ans. constructor; [|constructor].
        unfold no_address_sent. simpl. rewrite blank, andb_false_r. reflexivity.
      * intros result _. apply run_ret; [constructor | exact I].
    + intros customer_id _. destruct (negb (truthy customer_id));
        [apply run_ret; auto | apply file_lead_blank].
  - eapply run_bind_all with (R1 := fun new_address_id => new_address_id = None).
    + unfold LeadCreator.add_address_if_new.
      destruct (customer_data m) as [customer|]; [|apply run_ret; auto].
      destruct (dict_truthy parsed_address && customer_truthy customer);
        [|apply run_ret; auto].
      unfold CustomerMatcher.should_create_new_address.
      rewrite blank, orb_true_r. apply run_ret; auto.
    + intros new_address_id ->. apply file_lead_blank.
Qed.

End NoAddress.

(** X16. When the address of a submission has no value (as when
    the form has neither street, city, zip nor a combined address), the run
    sends no address: the customer it creates has none, no address is added
    to a matched customer, none is fetched by id, and the lead has neither an
    address nor an address id. *)
Theorem create_lead_without_address {St} cfg re format_percent
    (hcp_client : Directory St) form_data st :
  any_values (LeadCreator.parsed_address_of cfg re form_data) = false ->
  List.Forall no_address_sent
    (LeadCreator.create_lead cfg re format_percent hcp_client form_data st).2.2.
Proof.
  intros Hblank.
  apply (run_trace cfg re format_percent hcp_client form_data
           (List.Forall no_address_sent) (fun _ => True)).
  rewrite create_lead_body_phases.
  eapply run_bind_all with (R1 := fun _ => True).
  - intros s.
    destruct (find_matching_customer_searches hcp_client (submitted_phone cfg form_data)
                (Some (submitted_email form_data)) (Some (submitted_names form_data).2)
                (Some (LeadCreator.parsed_address_of cfg re form_data))
                (says_existing form_data) s) as (evs & Ht & Hs).
    exists evs. split; [exact Ht|]. split; [|auto].
    eapply List.Forall_impl; [|exact Hs].
    intros [[] ?] H; try discriminate H; exact I.
  - intros m _. apply settle_customer_blank, Hblank.
Qed.

Lemma create_lead_without_address_witness :
  List.Forall no_address_sent
    (LeadCreator.create_lead default_config no_regex percent found_by_both
       returning_form tt).2.2.
Proof.
  apply (create_lead_without_address default_config no_regex percent found_by_both
           returning_form tt).
  reflexivity.
Defined.

(** ** [_build_line_items] *)

Lemma line_items_from_spec cfg service_request_details service_details : forall idx,
  length (LeadCreator.line_items_from cfg idx service_details service_request_details)
  = length service_details /\
  forall n item,
    LeadCreator.line_items_from cfg idx service_details service_request_details !! n
    = Some item ->
    exists service_detail,
      service_details !! n = Some service_detail /\
      li_name item = line_item_name cfg service_detail /\
      li_kind item = "labor" /\
      li_description item
      = if ((idx + n)%nat =? 0)%nat && nonempty service_request_details
        then Some service_request_details else None.
Proof.
  induction service_details as [|sd rest IH]; intros idx.
  { split; [reflexivity | intros n item Hn; destruct n; discriminate Hn]. }
  destruct (IH (S idx)) as [Hlen Hitems]. split; [simpl; rewrite Hlen; reflexivity|].
  intros [|n] item Hn.
  - injection Hn as <-. exists sd. rewrite Nat.add_0_r. repeat split.
  - destruct (Hitems n item Hn) as (service_detail & Hsd & Hname & Hkind & Hdesc).
    exists service_detail. split; [exact Hsd|]. split; [exact Hname|].
    split; [exact Hkind|]. rewrite Hdesc.
    replace (idx + S n)%nat with (S idx + n)%nat by lia. reflexivity.
Qed.

(** X17. [_build_line_items] returns nothing for no selection, and
    otherwise one line item per selected service, in order: its name is the
    mapped service name (the selection itself when unmapped), its kind is
    labor, and only the first one carries a description, the request details,
    when there are any. *)
Theorem build_line_items_spec cfg service_request_details :
  LeadCreator._build_line_items cfg [] service_request_details = None /\
  forall first rest, exists items,
    LeadCreator._build_line_items cfg (first :: rest) service_request_details
    = Some items /\
    length items = length (first :: rest) /\
    forall n item, items !! n = Some item ->
      exists service_detail,
        (first :: rest) !! n = Some service_detail /\
        li_name item = line_item_name cfg service_detail /\
        li_kind item = "labor" /\
        li_description item
        = if (n =? 0)%nat && nonempty service_request_details
          then Some service_request_details else None.
Proof.
  split; [reflexivity|]. intros first rest.
  destruct (line_items_from_spec cfg service_request_details (first :: rest) 0)
    as [Hlen Hitems].
  eexists. split; [reflexivity|]. split; [exact Hlen | exact Hitems].
Qed.

(** ** The lead that is requested *)

Lemma headed_app lines more : headed lines -> headed (lines ++ more).
Proof. intros (rest & ->). exists (rest ++ more). reflexivity. Qed.

Lemma headed_nonempty lines : headed lines -> nonempty (Text.join Note.newline lines) = true.
Proof. intros (rest & ->). destruct rest; reflexivity. Qed.

Lemma headed_let {B} (v : list string) (body : list string -> B) (Q : B -> Prop) :
  headed v -> (forall lines, headed lines -> Q (body lines)) ->
  Q (let lines := v in body lines).
Proof. intros Hv Hbody. apply Hbody, Hv. Qed.

Lemma format_lead_note_nonempty format_percent form_data m :
  nonempty (Note.format_lead_note format_percent form_data m) = true.
Proof.
  cbv beta delta [Note.format_lead_note].
  repeat
    (lazymatch goal with
     | |- nonempty (let lines := ?v in @?body lines) = true =>
         apply (headed_let v body (fun note => nonempty note = true));
         [|intros ? ?; cbv beta]
     end;
     [repeat first
        [ assumption
        | apply headed_app
        | eexists; reflexivity
        | match goal with
          | |- headed (if ?c then _ else _) => destruct c
          | |- headed (match ?x with _ => _ end) => destruct x
          end ]|]).
  apply headed_nonempty. assumption.
Qed.

(** Solves [run_spec (Forall P) (fun _ => True) m] for a piece [m] of the
    workflow, [tac] proving [P] of the entry of one request. *)
Ltac sends tac :=
  repeat first
    [ apply run_ret; [constructor | exact I]
    | apply run_lift; [constructor | intros; exact I]
    | apply run_call; [intros ?; constructor; [tac | constructor] | intros; exact I]
    | eapply run_bind_all with (R1 := fun _ => True); [|intros ? _]
    | match goal with
      | |- run_spec _ _ (if ?c then _ else _) => destruct c
      | |- run_spec _ _ (match ?x with _ => _ end) => destruct x
      | |- run_spec _ _ (let '(_, _) := ?x in _) => destruct x
      end ].

Section LeadRequested.

Context {St : Type}.
Variable cfg : Config.
Variable format_percent : Q -> string.
Variable hcp_client : Directory St.
Variable form_data : FormData.

Lemma submitted_line_items_eq :
  (if CustomerMatcher.list_truthy (fd_service_details form_data)
   then LeadCreator._build_line_items cfg (default [] (fd_service_details form_data))
          (or_empty (fd_service_request_details form_data))
   else None)
  = submitted_line_items cfg form_data.
Proof.
  unfold submitted_line_items.
  destruct (fd_service_details form_data) as [[|? ?]|]; reflexivity.
Qed.

Lemma settle_customer_lead m first_name last_name email phone parsed_address sms_consent :
  run_spec (List.Forall (lead_of cfg format_percent form_data m)) (fun _ => True)
    (LeadCreator.settle_customer cfg format_percent hcp_client form_data m first_name
       last_name email phone parsed_address sms_consent).
Proof.
  unfold LeadCreator.settle_customer, LeadCreator.file_lead, LeadCreator.lead_address,
    LeadCreator.add_address_if_new, LeadCreator._create_customer,
    LeadCreator._add_address_to_customer, LeadCreator._create_lead_with_job_type.
  rewrite submitted_line_items_eq.
  sends ltac:(first [ intros ? H; discriminate H
                    | intros ? [= <-]; do 3 eexists; reflexivity ]).
Qed.

End LeadRequested.

Lemma job_type_cases cfg customer_id form_data line_items note address_id address :
  let p := LeadCreator.lead_payload cfg customer_id form_data line_items note
             address_id address in
  nonempty (lp_job_type p) = true /\
  (JOB_TYPE_MAPPING cfg !! or_empty (fd_service_needed form_data) = Some (lp_job_type p) \/
   lp_job_type p = "Plumbing Demand Maintenance").
Proof.
  unfold LeadCreator.lead_payload. cbn [lp_job_type].
  destruct (JOB_TYPE_MAPPING cfg !! or_empty (fd_service_needed form_data)) as [t|];
    cbv [default from_option id].
  - destruct (nonempty t) eqn:E; [split; [exact E | left; reflexivity]|].
    split; [reflexivity | right; reflexivity].
  - split; [reflexivity | right; reflexivity].
Qed.

Lemma build_line_items_truthy cfg service_details service_request_details :
  (if CustomerMatcher.list_truthy
        (LeadCreator._build_line_items cfg service_details service_request_details)
   then LeadCreator._build_line_items cfg service_details service_request_details
   else None)
  = LeadCreator._build_line_items cfg service_details service_request_details.
Proof. destruct service_details; reflexivity. Qed.

(** X18. Every lead [create_lead] requests has a non-empty job
    type, the one mapped from the service needed or else the default one;
    it carries the note [format_lead_note] writes for the submission and the
    match result of the run, and the line items [_build_line_items] builds
    from the selected services. *)
Theorem requested_lead_payload {St} cfg re format_percent (hcp_client : Directory St)
    form_data st :
  forall p ans,
    In (CreateLead p, ans)
       (LeadCreator.create_lead cfg re format_percent hcp_client form_data st).2.2 ->
    nonempty (lp_job_type p) = true /\
    (JOB_TYPE_MAPPING cfg !! or_empty (fd_service_needed form_data) = Some (lp_job_type p) \/
     lp_job_type p = "Plumbing Demand Maintenance") /\
    lp_line_items p
    = LeadCreator._build_line_items cfg (default [] (fd_service_details form_data))
        (or_empty (fd_service_request_details form_data)) /\
    exists m s1,
      matching cfg re hcp_client form_data (st, []) = (Ok m, s1) /\
      lp_note p = Some (Note.format_lead_note format_percent form_data m).
Proof.
  intros p ans Hin.
  destruct (matching cfg re hcp_client form_data (st, [])) as [[m|e] s1] eqn:Hm.
  2:{ exfalso.
      destruct (create_lead_shape cfg re format_percent hcp_client form_data st)
        as (searches & Hs & [(e' & s1' & _ & Ht & _) | (m & ? & ? & ? & Hm' & _)]);
        [|congruence].
      rewrite Ht in Hin. pose proof (in_requests _ _ _ _ Hs Hin). discriminate. }
  rewrite (create_lead_after_match _ _ _ _ _ _ _ _ Hm) in Hin. cbn [snd] in Hin.
  destruct (settle_customer_lead cfg format_percent hcp_client form_data m
              (submitted_names form_data).1.1 (submitted_names form_data).1.2
              (submitted_email form_data) (submitted_phone cfg form_data)
              (LeadCreator.parsed_address_of cfg re form_data)
              (default false (fd_sms_consent form_data)) s1) as (evs & Ht & Hall & _).
  rewrite Ht in Hin.
  assert (Hs1 : List.Forall (requests is_search) s1.2).
  { destruct (find_matching_customer_searches hcp_client (submitted_phone cfg form_data)
                (Some (submitted_email form_data)) (Some (submitted_names form_data).2)
                (Some (LeadCreator.parsed_address_of cfg re form_data))
                (says_existing form_data) (st, [])) as (searches & Ht' & Hs).
    fold (matching cfg re hcp_client form_data) in Ht'. rewrite Hm in Ht'.
    simpl in Ht'. rewrite Ht'. exact Hs. }
  apply in_app_or in Hin as [Hin | Hin].
  { pose proof (in_requests _ _ _ _ Hs1 Hin). discriminate. }
  rewrite List.Forall_forall in Hall.
  destruct (Hall _ Hin p eq_refl) as (customer_id & address_id & address & ->).
  destruct (job_type_cases cfg customer_id form_data (submitted_line_items cfg form_data)
              (Note.format_lead_note format_percent form_data m) address_id address)
    as [Hne Hcases].
  split; [exact Hne|]. split; [exact Hcases|]. split.
  - cbn [LeadCreator.lead_payload lp_line_items]. apply build_line_items_truthy.
  - exists m, s1. split; [reflexivity|].
    cbn [LeadCreator.lead_payload lp_note].
    rewrite format_lead_note_nonempty. reflexivity.
Qed.

Lemma requested_lead_payload_witness :
  nonempty (lp_job_type ann_lead) = true /\
  (JOB_TYPE_MAPPING default_config !! or_empty (fd_service_needed ann_form)
   = Some (lp_job_type ann_lead) \/
   lp_job_type ann_lead = "Plumbing Demand Maintenance") /\
  lp_line_items ann_lead
  = LeadCreator._build_line_items default_config
      (default [] (fd_service_details ann_form))
      (or_empty (fd_service_request_details ann_form)) /\
  exists m s1,
    matching default_config no_regex no_leads ann_form (tt, []) = (Ok m, s1) /\
    lp_note ann_lead = Some (Note.format_lead_note percent ann_form m).
Proof.
  apply (requested_lead_payload default_config no_regex percent no_leads ann_form tt
           ann_lead (Record None)).
  vm_compute. do 3 right. left. reflexivity.
Defined.

(** ** The order of the requests *)

Lemma at_most_nil n kind : at_most n kind [].
Proof. split; [simpl; lia | constructor]. Qed.

Lemma at_most_one kind c ans : kind c = true -> at_most 1 kind [(c, ans)].
Proof. intros H. split; [simpl; lia | repeat constructor; exact H]. Qed.

Lemma at_most_app n n' kind evs evs' :
  at_most n kind evs -> at_most n' kind evs' -> at_most (n + n') kind (evs ++ evs').
Proof.
  intros [Hn Hk] [Hn' Hk']. split; [rewrite length_app; lia|].
  apply List.Forall_app. auto.
Qed.

Lemma at_most_le n n' kind evs : (n <= n')%nat -> at_most n kind evs -> at_most n' kind evs.
Proof. intros Hle [Hn Hk]. split; [lia | exact Hk]. Qed.

Lemma at_most_zero kind evs : at_most 0 kind evs -> evs = [].
Proof. intros [Hn _]. destruct evs; [reflexivity | simpl in Hn; lia]. Qed.

(** One optional request: [if c then call ... else mret ...]. *)
Lemma run_call_one {St A} kind c (answer : A -> Answer) (op : St -> res A * St) :
  kind c = true -> run_spec (at_most 1 kind) (fun _ => True) (call c answer op).
Proof. intros H. apply run_call; [intros ans; apply at_most_one, H | auto]. Qed.

Lemma run_ret_none {St A} n kind (a : A) :
  run_spec (at_most n kind) (fun _ => True) (mret a : M St A).
Proof. apply run_ret; [apply at_most_nil | exact I]. Qed.

Section Order.

Context {St : Type}.
Variable cfg : Config.
Variable format_percent : Q -> string.
Variable hcp_client : Directory St.

Lemma find_matching_customer_order phone email name address is_existing :
  run_spec (at_most 2 is_search) (fun _ => True)
    (CustomerMatcher.find_matching_customer hcp_client phone email name address
       is_existing).
Proof.
  unfold CustomerMatcher.find_matching_customer.
  eapply run_bind with (T1 := at_most 1 is_search) (T2 := at_most 1 is_search)
                       (R1 := fun _ => True).
  - destruct (truthy phone); [apply run_call_one; reflexivity | apply run_ret_none].
  - intros phone_matches _.
    eapply run_bind with (T1 := at_most 1 is_search) (T2 := at_most 0 is_search)
                         (R1 := fun _ => True).
    + destruct (truthy email); [apply run_call_one; reflexivity | apply run_ret_none].
    + intros email_matches _. apply run_lift; [apply at_most_nil | auto].
    + auto.
    + intros evs1 evs2 H1 H2. apply (at_most_app 1 0); assumption.
  - intros evs H. eapply at_most_le; [|exact H]. lia.
  - intros evs1 evs2 H1 H2. apply (at_most_app 1 1); assumption.
Qed.

(** The lookups of [lead_address]: at most two, and none for a customer that
    is being created. *)
Lemma lead_address_order m parsed_address customer_id new_address_id :
  run_spec (fun evs => at_most 2 is_lookup evs /\
                       (should_create_new m = true -> evs = []))
    (fun _ => True)
    (LeadCreator.lead_address cfg hcp_client m parsed_address customer_id
       new_address_id).
Proof.
  unfold LeadCreator.lead_address. destruct (should_create_new m).
  { apply run_ret; [split; [apply at_most_nil | reflexivity] | exact I]. }
  eapply run_bind with (T1 := at_most 1 is_lookup) (T2 := at_most 1 is_lookup)
                       (R1 := fun _ => True).
  - destruct (truthy new_address_id); [apply run_ret_none|].
    destruct (truthy customer_id && dict_truthy parsed_address); [|apply run_ret_none].
    eapply run_bind with (T1 := at_most 1 is_lookup) (T2 := at_most 0 is_lookup)
                         (R1 := fun _ => True).
    + apply run_call_one. reflexivity.
    + intros known _. destruct known; [apply run_ret_none|].
      destruct (LeadCreator._find_matching_address_from_list _ _); apply run_ret_none.
    + auto.
    + intros evs1 evs2 H1 H2. apply (at_most_app 1 0); assumption.
  - intros address_id _.
    eapply run_bind with (T1 := at_most 1 is_lookup) (T2 := at_most 0 is_lookup)
                         (R1 := fun _ => True).
    + destruct (truthy address_id && truthy customer_id); [|apply run_ret_none].
      eapply run_bind with (T1 := at_most 1 is_lookup) (T2 := at_most 0 is_lookup)
                           (R1 := fun _ => True).
      * apply run_call_one. reflexivity.
      * intros full_address _. destruct full_address; apply run_ret_none.
      * auto.
      * intros evs1 evs2 H1 H2. apply (at_most_app 1 0); assumption.
    + intros address _. apply run_ret_none.
    + auto.
    + intros evs1 evs2 H1 H2. apply (at_most_app 1 0); assumption.
  - intros evs H. split; [|discriminate]. eapply at_most_le; [|exact H]. lia.
  - intros evs1 evs2 H1 H2. split; [|discriminate]. apply (at_most_app 1 1); assumption.
Qed.

(** The requests of [file_lead]: the lookups, then at most one lead. *)
Lemma file_lead_order form_data m parsed_address customer_id new_address_id :
  run_spec (fun evs => exists lookups lead,
              evs = lookups ++ lead /\
              at_most 2 is_lookup lookups /\
              (should_create_new m = true -> lookups = []) /\
              at_most 1 is_create_lead lead)
    (fun _ => True)
    (LeadCreator.file_lead cfg format_percent hcp_client form_data m parsed_address
       customer_id new_address_id).
Proof.
  unfold LeadCreator.file_lead.
  eapply run_bind with (T2 := at_most 1 is_create_lead) (R1 := fun _ => True).
  - apply lead_address_order.
  - intros [address_id address] _.
    eapply run_bind with (T1 := at_most 1 is_create_lead)
                         (T2 := at_most 0 is_create_lead) (R1 := fun _ => True).
    + unfold LeadCreator._create_lead_with_job_type.
      eapply run_bind with (T1 := at_most 1 is_create_lead)
                           (T2 := at_most 0 is_create_lead) (R1 := fun _ => True).
      * apply run_call_one. reflexivity.
      * intros result _. apply run_ret_none.
      * auto.
      * intros evs1 evs2 H1 H2. apply (at_most_app 1 0); assumption.
    + intros lead_id _. destruct (negb (truthy lead_id)); apply run_ret_none.
    + auto.
    + intros evs1 evs2 H1 H2. apply (at_most_app 1 0); assumption.
  - intros evs [Hl Hnew]. exists evs, []. rewrite app_nil_r.
    split; [reflexivity|]. split; [exact Hl|]. split; [exact Hnew | apply at_most_nil].
  - intros evs1 evs2 [Hl Hnew] Hlead. exists evs1, evs2. auto.
Qed.

(** The requests of [settle_customer]. *)
Lemma settle_customer_order form_data m first_name last_name email phone
    parsed_address sms_consent :
  run_spec (fun evs => exists change lookups lead,
              evs = change ++ lookups ++ lead /\
              ((at_most 1 is_create_customer change /\ lookups = []) \/
               at_most 1 is_add_address change) /\
              at_most 2 is_lookup lookups /\
              at_most 1 is_create_lead lead)
    (fun _ => True)
    (LeadCreator.settle_customer cfg format_percent hcp_client form_data m first_name
       last_name email phone parsed_address sms_consent).
Proof.
  unfold LeadCreator.settle_customer. destruct (should_create_new m) eqn:Hnew.
  - eapply run_bind with (T1 := at_most 1 is_create_customer)
        (T2 := fun evs => exists lookups lead,
                 evs = lookups ++ lead /\ at_most 2 is_lookup lookups /\
                 (should_create_new m = true -> lookups = []) /\
                 at_most 1 is_create_lead lead)
        (R1 := fun _ => True).
    + unfold LeadCreator._create_customer.
      eapply run_bind with (T1 := at_most 1 is_create_customer)
                           (T2 := at_most 0 is_create_customer) (R1 := fun _ => True).
      * apply run_call_one. reflexivity.
      * intros result _. apply run_ret_none.
      * auto.
      * intros evs1 evs2 H1 H2. apply (at_most_app 1 0); assumption.
    + intros customer_id _. destruct (negb (truthy customer_id)); [|apply file_lead_order].
      apply run_ret; [|exact I]. exists [], [].
      split; [reflexivity|]. split; [apply at_most_nil|].
      split; [reflexivity | apply at_most_nil].
    + intros evs H. exists evs, [], []. rewrite app_nil_r.
      split; [reflexivity|]. split; [left; split; [exact H | reflexivity]|].
      split; apply at_most_nil.
    + intros evs1 evs2 H1 (lookups & lead & -> & Hl & Hno & Hlead).
      exists evs1, lookups, lead. split; [reflexivity|].
      split; [left; split; [exact H1 | apply Hno, Hnew]|]. split; assumption.
  - eapply run_bind with (T1 := at_most 1 is_add_address)
        (T2 := fun evs => exists lookups lead,
                 evs = lookups ++ lead /\ at_most 2 is_lookup lookups /\
                 (should_create_new m = true -> lookups = []) /\
                 at_most 1 is_create_lead lead)
        (R1 := fun _ => True).
    + unfold LeadCreator.add_address_if_new.
      destruct (customer_data m) as [customer|]; [|apply run_ret_none].
      destruct (dict_truthy parsed_address && customer_truthy customer);
        [|apply run_ret_none].
      destruct (CustomerMatcher.should_create_new_address customer parsed_address);
        [|apply run_ret_none].
      unfold LeadCreator._add_address_to_customer.
      destruct (negb (dict_truthy parsed_address) || negb (any_values parsed_address));
        [apply run_ret_none|].
      eapply run_bind with (T1 := at_most 1 is_add_address)
                           (T2 := at_most 0 is_add_address) (R1 := fun _ => True).
      * apply run_call_one. reflexivity.
      * intros result _. apply run_ret_none.
      * auto.
      * intros evs1 evs2 H1 H2. apply (at_most_app 1 0); assumption.
    + intros new_address_id _. apply file_lead_order.
    + intros evs H. exists evs, [], []. rewrite app_nil_r.
      split; [reflexivity|]. split; [right; exact H|]. split; apply at_most_nil.
    + intros evs1 evs2 H1 (lookups & lead & -> & Hl & _ & Hlead).
      exists evs1, lookups, lead. split; [reflexivity|].
      split; [right; exact H1|]. split; assumption.
Qed.

End Order.

Lemma create_lead_order {St} cfg re format_percent (hcp_client : Directory St)
    form_data st :
  in_order (LeadCreator.create_lead cfg re format_percent hcp_client form_data st).2.2.
Proof.
  apply (run_trace cfg re format_percent hcp_client form_data in_order (fun _ => True)).
  rewrite create_lead_body_phases.
  eapply run_bind with (R1 := fun _ => True).
  - apply find_matching_customer_order.
  - intros m _. apply settle_customer_order.
  - intros evs H. exists evs, [], [], []. rewrite !app_nil_r.
    split; [reflexivity|]. split; [exact H|].
    split; [right; apply at_most_nil|]. split; apply at_most_nil.
  - intros evs1 evs2 H1 (change & lookups & lead & -> & Hchange & Hl & Hlead).
    exists evs1, change, lookups, lead. auto.
Qed.

Lemma in_order_length tr : in_order tr -> (length tr <= 6)%nat.
Proof.
  intros (searches & change & lookups & lead & -> & [Hs _] & Hchange
          & [Hl _] & [Hlead _]).
  assert (length change <= 1)%nat by (destruct Hchange as [[[? _] _] | [? _]]; assumption).
  rewrite !length_app. lia.
Qed.

(** X19. The requests of a run of [create_lead] come in one order: at
    most two searches; then at most one request that creates a customer or
    adds an address to the matched one; then at most two address lookups,
    and none when a customer was created; then at most one request for a
    lead, which is the last. A run sends at most six requests. *)
Theorem create_lead_in_order {St} cfg re format_percent (hcp_client : Directory St)
    form_data st :
  in_order (LeadCreator.create_lead cfg re format_percent hcp_client form_data st).2.2 /\
  (length (LeadCreator.create_lead cfg re format_percent hcp_client form_data st).2.2
   <= 6)%nat.
Proof. split; [apply create_lead_order | apply in_order_length, create_lead_order]. Qed.

(** ** Where a matched customer comes from *)

Lemma id_set_has_ids cs ids :
  CustomerMatcher.id_set cs = Ok ids -> forall c, In c cs -> c_fields c !! "id" <> None.
Proof.
  intros Hok c Hc Hnone.
  rewrite id_set_raises in Hok by (exists c; auto). discriminate.
Qed.

Lemma with_id_in_has_ids ids cs exact :
  CustomerMatcher.with_id_in ids cs = Ok exact ->
  forall c, In c cs -> c_fields c !! "id" <> None.
Proof.
  intros Hok c Hc Hnone.
  rewrite with_id_in_raises in Hok by (exists c; auto). discriminate.
Qed.

Lemma find_exact_matches_sound phone_matches email_matches exact :
  CustomerMatcher._find_exact_matches phone_matches email_matches = Ok exact ->
  forall c, In c exact ->
    In c email_matches /\
    exists p, In p phone_matches /\ c_fields p !! "id" = c_fields c !! "id".
Proof.
  unfold CustomerMatcher._find_exact_matches.
  destruct phone_matches as [|p0 pm]; [intros [= <-] c []|].
  destruct email_matches as [|e0 em]; [intros [= <-] c []|].
  intros Hrun.
  change ((CustomerMatcher.id_set (p0 :: pm) ≫= fun phone_ids =>
             CustomerMatcher.with_id_in phone_ids (e0 :: em)) = Ok exact) in Hrun.
  destruct (CustomerMatcher.id_set (p0 :: pm)) as [ids|] eqn:Hset; [|discriminate].
  change (CustomerMatcher.with_id_in ids (e0 :: em) = Ok exact) in Hrun.
  destruct (id_set_ok (p0 :: pm) (id_set_has_ids _ _ Hset)) as (ids' & Hset' & Hin).
  assert (ids' = ids) by congruence. subst ids'.
  destruct (with_id_in_ok ids (e0 :: em) (with_id_in_has_ids _ _ _ Hrun))
    as (exact' & Hrun' & _ & Hexact).
  assert (exact' = exact) by congruence. subst exact'.
  intros c Hc. apply Hexact in Hc as [Hem (i & Hci & Hi)]. split; [exact Hem|].
  apply Hin in Hi as (p & Hp & Hpi). exists p. split; [exact Hp | congruence].
Qed.

Lemma in_sublist {A} (l1 l2 : list A) x : sublist l1 l2 -> In x l1 -> In x l2.
Proof.
  intros Hsub Hx. apply list_elem_of_In. eapply elem_of_sublist; [|exact Hsub].
  apply list_elem_of_In. exact Hx.
Qed.

(** X20. The customer of a match result is a record one of the two
    searches returned. For an exact match it is a record of the e-mail search
    whose id a record of the phone search has too; for a partial match it has
    a non-empty id; and whenever the customer is to be reused, the customer id
    of the result is the id of that record. *)
Theorem matched_customer_provenance phone_matches email_matches phone email name
    address is_existing m c :
  CustomerMatcher.resolve phone_matches email_matches phone email name address
    is_existing = Ok m ->
  customer_data m = Some c ->
  In c (phone_matches ++ email_matches) /\
  (match_type m = "exact" ->
   In c email_matches /\
   exists p, In p phone_matches /\ c_fields p !! "id" = c_fields c !! "id") /\
  (match_type m = "partial" -> truthy (id_of_customer c) = true) /\
  (should_create_new m = false -> c_fields c !! "id" = Some (customer_id m)).
Proof.
  unfold CustomerMatcher.resolve. intros Hrun Hc.
  destruct (CustomerMatcher._find_exact_matches phone_matches email_matches)
    as [exact|] eqn:Hexact; [|discriminate].
  cbn [mbind res_bind] in Hrun.
  destruct exact as [|x exact].
  - pose proof (deduplicate_from_spec (phone_matches ++ email_matches) ∅)
      as (Hsub & _ & Htruthy & _).
    fold (CustomerMatcher._deduplicate_customers (phone_matches ++ email_matches))
      in Hsub, Htruthy.
    destruct (CustomerMatcher._deduplicate_customers (phone_matches ++ email_matches))
      as [|y all_matches] eqn:Hall; [injection Hrun as <-; discriminate|].
    destruct (CustomerMatcher._select_best_match (y :: all_matches) name address)
      as [best|] eqn:Hbest; [|discriminate].
    cbn [mbind res_bind] in Hrun.
    apply select_best_match_in in Hbest.
    assert (Hid : truthy (id_of_customer best) = true) by (apply Htruthy, Hbest).
    assert (Hin : In best (phone_matches ++ email_matches))
      by (eapply in_sublist; [exact Hsub | exact Hbest]).
    destruct is_existing.
    + unfold getitem in Hrun.
      destruct (c_fields best !! "id") as [i|] eqn:Hi; [|discriminate].
      injection Hrun as <-. injection Hc as <-. cbn.
      split; [exact Hin|]. split; [discriminate|]. split; [auto | intros _; exact Hi].
    + injection Hrun as <-. injection Hc as <-. cbn.
      split; [exact Hin|]. split; [discriminate|]. split; [auto | discriminate].
  - destruct (CustomerMatcher._select_best_match (x :: exact) name address)
      as [best|] eqn:Hbest; [|discriminate].
    cbn [mbind res_bind] in Hrun.
    apply select_best_match_in in Hbest.
    destruct (find_exact_matches_sound _ _ _ Hexact best Hbest) as [Hem Hp].
    unfold getitem in Hrun.
    destruct (c_fields best !! "id") as [i|] eqn:Hi; [|discriminate].
    injection Hrun as <-. injection Hc as <-. cbn.
    split; [apply in_or_app; right; exact Hem|].
    split; [intros _; split; [exact Hem | rewrite Hi; exact Hp]|].
    split; [discriminate | intros _; exact Hi].
Qed.

Lemma matched_customer_provenance_witness :
  In ann ([ann] ++ [ann]) /\
  ("exact" = "exact" ->
   In ann [ann] /\ exists p, In p [ann] /\ c_fields p !! "id" = c_fields ann !! "id") /\
  ("exact" = "partial" -> truthy (id_of_customer ann) = true) /\
  (false = false -> c_fields ann !! "id" = Some (Some "C1")).
Proof.
  apply (matched_customer_provenance [ann] [ann] (Some "+14155551234")
           (Some "ann@example.com") (Some "Ann Lee") (Some submitted) false
           (mkMatchResult "exact" 1 (Some "C1") (Some ann) [] false) ann);
    reflexivity.
Defined.

(** * The client over the wire *)

(** ** [get_api_url] *)

Lemma rstrip_slash_snoc s : Client.rstrip_slash (s +:+ "/") = Client.rstrip_slash s.
Proof.
  induction s as [|c s IH]; [reflexivity|].
  rewrite str_app_cons. simpl. rewrite IH. reflexivity.
Qed.

Lemma rstrip_slash_id s c :
  Ascii.eqb c "/" = false -> Client.rstrip_slash (s +:+ String c "") = s +:+ String c "".
Proof.
  intros Hc. induction s as [|d s IH].
  - change (Client.rstrip_slash (String c "") = String c ""). simpl. rewrite Hc. reflexivity.
  - rewrite str_app_cons. simpl. rewrite IH.
    destruct (s +:+ String c "") eqn:E; [|reflexivity].
    destruct s; discriminate E.
Qed.

(** X21. [get_api_url] puts exactly one slash between the base URL and
    the endpoint: slashes that end the base or begin the endpoint make no
    difference, and a base without trailing slash and an endpoint without
    leading slash are joined as they are. *)
Theorem get_api_url_slashes base endpoint :
  Client.get_api_url (base +:+ "/") endpoint = Client.get_api_url base endpoint /\
  Client.get_api_url base ("/" +:+ endpoint) = Client.get_api_url base endpoint /\
  (forall b c e,
     Ascii.eqb c "/" = false -> String.prefix "/" e = false ->
     Client.get_api_url (b +:+ String c "") e = b +:+ String c "" +:+ "/" +:+ e).
Proof.
  unfold Client.get_api_url. split; [|split].
  - rewrite rstrip_slash_snoc. reflexivity.
  - reflexivity.
  - intros b c e Hc He. rewrite (rstrip_slash_id b c Hc), str_app_assoc.
    f_equal. f_equal. f_equal.
    destruct e as [|d e]; [reflexivity|]. simpl.
    rewrite prefix_cons in He.
    destruct (Ascii.eqb_spec d "/") as [-> | _]; [|reflexivity].
    destruct (ascii_dec "/" "/"); [destruct e; discriminate He | congruence].
Qed.

(** ** [_request] *)

Section RequestFacts.

Context {St : Type}.
Variable session_request : Client.Request -> St -> Client.Attempt * St.

Lemma attempts_from_log retry_count request : forall remaining w,
  (remaining <= retry_count)%nat ->
  exists log,
    Client.sent (Client.attempts_from session_request retry_count remaining request w).2
    = Client.sent w ++ log /\
    (length log <= remaining)%nat /\
    List.Forall (fun a => a.1 = request) log /\
    explains remaining request log
      (Client.attempts_from session_request retry_count remaining request w).1.
Proof.
  induction remaining as [|remaining IH]; intros w Hle.
  { exists []. simpl. rewrite app_nil_r. repeat split; constructor. }
  assert (Hnext : forall w1 a,
            retried a = true ->
            Client.sent w1 = Client.sent w ++ [(request, a)] ->
            exists log,
              Client.sent (Client.attempts_from session_request retry_count remaining
                             request w1).2 = Client.sent w ++ log /\
              (length log <= S remaining)%nat /\
              List.Forall (fun a => a.1 = request) log /\
              explains (S remaining) request log
                (Client.attempts_from session_request retry_count remaining request w1).1).
  { intros w1 a Ha Hw1. destruct (IH w1) as (log & Hsent & Hlen & Hreq & Hex); [lia|].
    exists ((request, a) :: log).
    split; [rewrite Hsent, Hw1, <- app_assoc; reflexivity|].
    split; [simpl; lia|]. split; [constructor; [reflexivity | exact Hreq]|].
    destruct (Client.attempts_from session_request retry_count remaining request w1).1
      as [response | msg | e]; simpl in Hex |- *.
    - destruct Hex as (before & -> & Hbefore). exists ((request, a) :: before).
      split; [reflexivity | constructor; assumption].
    - destruct Hex as [Hn Hall]. split; [lia | constructor; assumption].
    - destruct Hex as (before & -> & Hbefore). exists ((request, a) :: before).
      split; [reflexivity | constructor; assumption]. }
  assert (Hlast : forall a,
            retried a = true -> (retry_count - S remaining =? retry_count - 1)%nat = true ->
            length [(request, a)] = S remaining /\
            List.Forall (fun a => retried a.2 = true) [(request, a)]).
  { intros a Ha Heq. apply Nat.eqb_eq in Heq.
    split; [simpl; lia | repeat constructor; exact Ha]. }
  cbn [Client.attempts_from].
  destruct (session_request request (Client.server w)) as [[| e | e | e | response] server'].
  - apply (Hnext _ Client.Continue); reflexivity.
  - destruct (retry_count - S remaining =? retry_count - 1)%nat eqn:Heq.
    + exists [(request, Client.HTTPError e)]. split; [reflexivity|].
      split; [simpl; lia|]. split; [repeat constructor|]. apply Hlast; auto.
    + apply (Hnext _ (Client.HTTPError e)); reflexivity.
  - destruct (retry_count - S remaining =? retry_count - 1)%nat eqn:Heq.
    + exists [(request, Client.RequestException e)]. split; [reflexivity|].
      split; [simpl; lia|]. split; [repeat constructor|]. apply Hlast; auto.
    + apply (Hnext _ (Client.RequestException e)); reflexivity.
  - exists [(request, Client.Unexpected e)]. split; [reflexivity|].
    split; [simpl; lia|]. split; [repeat constructor|].
    exists []. split; [reflexivity | constructor].
  - exists [(request, Client.Returned response)]. split; [reflexivity|].
    split; [simpl; lia|]. split; [repeat constructor|].
    exists []. split; [reflexivity | constructor].
Qed.


End RequestFacts.

(** X22. [_request] makes at most [retry_count] attempts, all
    of the same request to the URL of the endpoint, and stops at the first
    that returns or raises something the loop does not catch: a response is
    what the last attempt returned; an [HCPAPIError] is raised only after
    exactly [retry_count] attempts, each rate limited or failed. *)
Theorem request_attempts {St} HCP_BASE_URL
    (session_request : Client.Request -> St -> Client.Attempt * St)
    method endpoint params json_data retry_count w :
  let request :=
    Client.mkRequest method (Client.get_api_url HCP_BASE_URL endpoint) params json_data in
  exists log,
    Client.sent (Client._request HCP_BASE_URL session_request method endpoint params
                   json_data retry_count w).2 = Client.sent w ++ log /\
    (length log <= retry_count)%nat /\
    List.Forall (fun a => a.1 = request) log /\
    explains retry_count request log
      (Client._request HCP_BASE_URL session_request method endpoint params json_data
         retry_count w).1.
Proof. apply attempts_from_log. lia. Qed.


(** ** What a run costs on the wire *)

Section Spending.

Context {St : Type}.
Variable R : nat -> nat -> Prop.
Hypothesis R_refl : forall a, R a a.
Hypothesis R_add : forall a b c x y, R a (b + x)%nat -> R c (a + y)%nat -> R c (b + (x + y))%nat.
Variable cost : St -> nat.
Variable n : nat.

Lemma spends_ret {A} (a : A) : spends R cost n (mret a : M St A).
Proof.
  intros s. exists []. rewrite app_nil_r. split; [reflexivity|].
  simpl. rewrite Nat.mul_0_r, Nat.add_0_r. apply R_refl.
Qed.

Lemma spends_lift {A} (r : res A) : spends R cost n (lift r : M St A).
Proof.
  intros s. exists []. rewrite app_nil_r. split; [reflexivity|].
  simpl. rewrite Nat.mul_0_r, Nat.add_0_r. apply R_refl.
Qed.

Lemma spends_call {A} c (answer : A -> Answer) (op : St -> res A * St) :
  (forall st, R (cost (op st).2) (cost st + n)%nat) -> spends R cost n (call c answer op).
Proof.
  intros Hop s. unfold call. specialize (Hop s.1).
  destruct (op s.1) as [r st']. eexists. split; [reflexivity|].
  simpl. rewrite Nat.mul_1_r. exact Hop.
Qed.

Lemma spends_bind {A B} (m : M St A) (k : A -> M St B) :
  spends R cost n m -> (forall a, spends R cost n (k a)) -> spends R cost n (m ≫= k).
Proof.
  intros Hm Hk s. unfold mbind, M_bind.
  destruct (Hm s) as (evs & Ht & Hc).
  destruct (m s) as [[a|e] s1]; simpl in Ht, Hc; [|exists evs; auto].
  destruct (Hk a s1) as (evs' & Ht' & Hc').
  exists (evs ++ evs'). split; [rewrite Ht', Ht, <- app_assoc; reflexivity|].
  rewrite length_app, Nat.mul_add_distr_l. eapply R_add; eassumption.
Qed.

Lemma create_lead_body_spends cfg re format_percent (hcp_client : Directory St)
    form_data :
  priced R cost n hcp_client ->
  spends R cost n
    (LeadCreator.create_lead_body cfg re format_percent hcp_client form_data).
Proof.
  intros (Hsearch & Hcustomer & Hadd & Hlist & Hget & Hlead).
  rewrite create_lead_body_phases.
  unfold matching, CustomerMatcher.find_matching_customer, LeadCreator.settle_customer,
    LeadCreator._create_customer, LeadCreator.add_address_if_new,
    LeadCreator._add_address_to_customer, LeadCreator.file_lead,
    LeadCreator.lead_address, LeadCreator._create_lead_with_job_type.
  repeat first
    [ apply spends_ret
    | apply spends_lift
    | apply spends_call; auto
    | apply spends_bind; [|intros ?]
    | match goal with
      | |- spends _ _ _ (if ?c then _ else _) => destruct c
      | |- spends _ _ _ (match ?x with _ => _ end) => destruct x
      | |- spends _ _ _ (let '(_, _) := ?x in _) => destruct x
      end ].
Qed.

Lemma create_lead_spends cfg re format_percent (hcp_client : Directory St)
    form_data st :
  priced R cost n hcp_client ->
  R (cost (LeadCreator.create_lead cfg re format_percent hcp_client form_data st).2.1)
    (cost st
     + n * length (LeadCreator.create_lead cfg re format_percent hcp_client form_data
                     st).2.2)%nat.
Proof.
  intros Hd.
  destruct (create_lead_body_spends cfg re format_percent hcp_client form_data Hd (st, []))
    as (evs & Ht & Hc).
  unfold LeadCreator.create_lead.
  destruct (LeadCreator.create_lead_body _ _ _ _ _ (st, [])) as [[r|e] s];
    simpl in *; rewrite Ht; exact Hc.
Qed.

End Spending.

Section ClientFacts.

Context {St : Type}.
Variable HCP_BASE_URL : string.
Variable session_request : Client.Request -> St -> Client.Attempt * St.

Lemma request_cost method endpoint params json_data (w : Client.Wire St) :
  (length (Client.sent (Client._request HCP_BASE_URL session_request method endpoint
                          params json_data 3 w).2)
   <= length (Client.sent w) + 3)%nat.
Proof.
  destruct (attempts_from_log session_request 3
              (Client.mkRequest method (Client.get_api_url HCP_BASE_URL endpoint) params
                 json_data) 3 w) as (log & Hsent & Hlen & _); [lia|].
  unfold Client._request. rewrite Hsent, length_app. lia.
Qed.

Lemma client_priced :
  priced le (fun w => length (Client.sent w)) 3
    (Client.client HCP_BASE_URL session_request).
Proof.
  unfold priced, Client.client; cbn [search_customers create_customer
    add_customer_address get_customer_addresses get_address_by_id create_lead].
  unfold Client.search_customers, Client.create_customer, Client.add_customer_address,
    Client.get_customer_addresses, Client.get_address_by_id, Client.create_lead.
  repeat split; intros;
    match goal with
    | |- context [Client._request ?b ?s ?m ?e ?p ?j 3 ?w] =>
        pose proof (request_cost m e p j w) as Hcost;
        destruct (Client._request b s m e p j 3 w) as [[? | ? | ?] ?]
    end; exact Hcost.
Qed.

End ClientFacts.

(** X24. Against the client, [create_lead] makes at most three
    HTTP attempts for every request it sends, and so at most eighteen in a
    run, whatever the server answers. *)
Theorem create_lead_http_budget {St} HCP_BASE_URL
    (session_request : Client.Request -> St -> Client.Attempt * St)
    cfg re format_percent form_data w :
  let run :=
    LeadCreator.create_lead cfg re format_percent
      (Client.client HCP_BASE_URL session_request) form_data w in
  (length (Client.sent run.2.1) <= length (Client.sent w) + 3 * length run.2.2)%nat /\
  (length (Client.sent run.2.1) <= length (Client.sent w) + 18)%nat.
Proof.
  cbv zeta.
  assert (Hadd : forall a b c x y : nat,
            (a <= b + x -> c <= a + y -> c <= b + (x + y))%nat) by (intros; lia).
  pose proof (create_lead_spends le Nat.le_refl Hadd
                (fun w : Client.Wire St => length (Client.sent w)) 3 cfg re format_percent
                (Client.client HCP_BASE_URL session_request) form_data w
                (client_priced HCP_BASE_URL session_request)) as Hcost.
  pose proof (in_order_length _
                (create_lead_order cfg re format_percent
                   (Client.client HCP_BASE_URL session_request) form_data w)) as Hlen.
  split; [exact Hcost | lia].
Qed.

(** ** When the API is down *)

Lemma mute_fails {St} cfg re format_percent (d : Directory St) form_data st :
  mute d ->
  (LeadCreator.create_lead cfg re format_percent d form_data st).1
  = LeadCreator.failure None "Failed to create customer" /\
  exists searches,
    (LeadCreator.create_lead cfg re format_percent d form_data st).2.2
    = searches ++ [(CreateCustomer (new_customer cfg re form_data), Record None)] /\
    List.Forall (fun ev => exists q, ev = (SearchCustomers q, Customers [])) searches.
Proof.
  intros [Hsearch Hcreate].
  assert (Hm : exists s1,
            matching cfg re d form_data (st, [])
            = (Ok (mkMatchResult "none" 0 None None [] true), s1) /\
            List.Forall (fun ev => exists q, ev = (SearchCustomers q, Customers [])) s1.2).
  { unfold matching, CustomerMatcher.find_matching_customer.
    unfold mbind, M_bind, mret, M_ret, call, lift.
    repeat match goal with
           | |- context [if ?c then _ else _] => destruct c
           | |- context [search_customers d ?q ?s] =>
               let H := fresh "H" in
               pose proof (Hsearch q s) as H;
               destruct (search_customers d q s) as [? ?]; simpl in H; subst
           end;
      cbn [fst snd]; eexists; (split; [reflexivity|]); cbn [snd app];
      repeat constructor; eexists; reflexivity. }
  destruct Hm as (s1 & Hm & Hs1).
  rewrite (create_lead_after_match _ _ _ _ _ _ _ _ Hm).
  unfold LeadCreator.settle_customer, LeadCreator._create_customer.
  cbn [should_create_new]. fold (new_customer cfg re form_data).
  unfold mbind, M_bind, mret, M_ret, call.
  pose proof (Hcreate (new_customer cfg re form_data) s1.1) as Hc.
  destruct (create_customer d (new_customer cfg re form_data) s1.1) as [r st'].
  simpl in Hc. subst r. cbn. split; [reflexivity|].
  exists s1.2. split; [reflexivity | exact Hs1].
Qed.

Section Down.

Context {St : Type}.
Variable HCP_BASE_URL : string.
Variable session_request : Client.Request -> St -> Client.Attempt * St.
Hypothesis down_always : forall request st, retried (session_request request st).1 = true.

Lemma attempts_down retry_count request : forall remaining (w : Client.Wire St),
  (remaining <= retry_count)%nat ->
  (exists msg,
     (Client.attempts_from session_request retry_count remaining request w).1
     = Client.HCPAPIError msg) /\
  length (Client.sent (Client.attempts_from session_request retry_count remaining
                         request w).2)
  = (length (Client.sent w) + remaining)%nat.
Proof.
  induction remaining as [|remaining IH]; intros w Hle.
  { simpl. split; [eexists; reflexivity | lia]. }
  cbn [Client.attempts_from].
  pose proof (down_always request (Client.server w)) as Hdown.
  destruct (session_request request (Client.server w))
    as [[| e | e | e | response] server']; try discriminate Hdown.
  - destruct (IH (Client.mkWire server' (Client.sent w ++ [(request, Client.Continue)])
                    (Client.pauses w))) as [Hmsg Hlen]; [lia|].
    split; [exact Hmsg|]. rewrite Hlen. cbn [Client.sent]. rewrite length_app. simpl. lia.
  - destruct (Nat.eqb_spec (retry_count - S remaining) (retry_count - 1)) as [Heq | _].
    + split; [eexists; reflexivity|]. cbn [snd Client.sent].
      rewrite length_app. simpl. lia.
    + match goal with
      | |- context [Client.attempts_from _ _ _ _ ?w1] =>
          destruct (IH w1) as [Hmsg Hlen]; [lia|]
      end.
      split; [exact Hmsg|]. rewrite Hlen. cbn [Client.sent]. rewrite length_app. simpl. lia.
  - destruct (Nat.eqb_spec (retry_count - S remaining) (retry_count - 1)) as [Heq | _].
    + split; [eexists; reflexivity|]. cbn [snd Client.sent].
      rewrite length_app. simpl. lia.
    + match goal with
      | |- context [Client.attempts_from _ _ _ _ ?w1] =>
          destruct (IH w1) as [Hmsg Hlen]; [lia|]
      end.
      split; [exact Hmsg|]. rewrite Hlen. cbn [Client.sent]. rewrite length_app. simpl. lia.
Qed.

Lemma request_down method endpoint params json_data (w : Client.Wire St) :
  (exists msg,
     (Client._request HCP_BASE_URL session_request method endpoint params json_data 3 w).1
     = Client.HCPAPIError msg) /\
  length (Client.sent (Client._request HCP_BASE_URL session_request method endpoint
                         params json_data 3 w).2)
  = (length (Client.sent w) + 3)%nat.
Proof. apply attempts_down. lia. Qed.

Lemma client_down :
  mute (Client.client HCP_BASE_URL session_request) /\
  priced eq (fun w => length (Client.sent w)) 3
    (Client.client HCP_BASE_URL session_request).
Proof.
  unfold mute, priced, Client.client; cbn [search_customers create_customer
    add_customer_address get_customer_addresses get_address_by_id create_lead].
  unfold Client.search_customers, Client.create_customer, Client.add_customer_address,
    Client.get_customer_addresses, Client.get_address_by_id, Client.create_lead.
  repeat split; intros;
    match goal with
    | |- context [Client._request ?b ?s ?m ?e ?p ?j 3 ?w] =>
        destruct (request_down m e p j w) as [[msg Hmsg] Hcost];
        destruct (Client._request b s m e p j 3 w) as [out w'];
        simpl in Hmsg; subst out
    end; first [reflexivity | exact Hcost].
Qed.

End Down.

(** X25. When every attempt is rate limited or fails, the client
    makes three attempts for each request of the workflow and answers it with
    nothing; [create_lead] then finds nobody, asks for a new customer, and
    returns the failure [Failed to create customer]. *)
Theorem create_lead_api_down {St} HCP_BASE_URL
    (session_request : Client.Request -> St -> Client.Attempt * St)
    cfg re format_percent form_data w :
  (forall request st, retried (session_request request st).1 = true) ->
  let run :=
    LeadCreator.create_lead cfg re format_percent
      (Client.client HCP_BASE_URL session_request) form_data w in
  run.1 = LeadCreator.failure None "Failed to create customer" /\
  (exists searches,
     run.2.2 = searches ++ [(CreateCustomer (new_customer cfg re form_data), Record None)] /\
     List.Forall (fun ev => exists q, ev = (SearchCustomers q, Customers [])) searches) /\
  length (Client.sent run.2.1) = (length (Client.sent w) + 3 * length run.2.2)%nat.
Proof.
  intros Hdown. cbv zeta.
  destruct (client_down HCP_BASE_URL session_request Hdown) as [Hmute Hpriced].
  destruct (mute_fails cfg re format_percent _ form_data w Hmute) as [Hresult Htrace].
  split; [exact Hresult|]. split; [exact Htrace|].
  apply (create_lead_spends eq (@eq_refl nat)
           (ltac:(intros; lia) : forall a b c x y : nat,
              a = (b + x)%nat -> c = (a + y)%nat -> c = (b + (x + y))%nat)
           (fun w : Client.Wire St => length (Client.sent w)) 3 cfg re format_percent
           (Client.client HCP_BASE_URL session_request) form_data w Hpriced).
Qed.

Lemma create_lead_api_down_witness :
  (LeadCreator.create_lead default_config no_regex percent
     (Client.client "https://api.housecallpro.com" down) ann_form
     (Client.mkWire tt [] [])).1
  = LeadCreator.failure None "Failed to create customer" /\
  length (Client.sent
            (LeadCreator.create_lead default_config no_regex percent
               (Client.client "https://api.housecallpro.com" down) ann_form
               (Client.mkWire tt [] [])).2.1) = 9%nat.
Proof.
  destruct (create_lead_api_down "https://api.housecallpro.com" down default_config
              no_regex percent ann_form (Client.mkWire tt [] []))
    as (Hresult & _ & _); [reflexivity|].
  split; [exact Hresult | reflexivity].
Defined.

(** ** The errors of a run *)











Section Errors.

Context {St : Type}.
Variable cfg : Config.
Variable re : Regex.
Variable format_percent : Q -> string.
Variable hcp_client : Directory St.
Variable form_data : FormData.



End Errors.


(** ** [parse_address] *)

Lemma any_values_intro (d : gmap string (option string)) k v :
  d !! k = Some (Some v) -> v <> "" -> any_values d = true.
Proof.
  intros Hk Hv. unfold any_values. apply existsb_exists. exists (Some v). split.
  - apply list_elem_of_In, list_elem_of_fmap. exists (k, Some v).
    split; [reflexivity|]. apply elem_of_map_to_list. exact Hk.
  - simpl. apply negb_true_iff, String.eqb_neq. exact Hv.
Qed.

(** X27. [parse_address] always returns the four keys; for the
    empty string all four are null. It gives a city only together with a
    street and a state, and a state only together with a zip. And when
    neither of the two full patterns matches a string that is not blank, some
    value of the result is non-empty: at worst the whole string is the
    street. *)
Theorem parse_address_shape re address_string :
  let result := Utils.parse_address re address_string in
  dom result = address_keys /\
  (address_string = "" -> result = Utils.empty_address) /\
  (dict_get result "city" <> None ->
   dict_get result "street" <> None /\ dict_get result "state" <> None) /\
  (dict_get result "state" <> None -> dict_get result "zip" <> None) /\
  (nonempty (Text.strip address_string) = true ->
   match_pattern1 re (Text.strip address_string) = None ->
   match_pattern2 re (Text.strip address_string) = None ->
   any_values result = true).
Proof.
  cbv zeta. split; [apply parse_address_keys|]. split; [intros ->; reflexivity|].
  unfold Utils.parse_address.
  destruct (negb (nonempty address_string)) eqn:Hblank.
  { split; [intros H; exfalso; apply H; reflexivity|].
    split; [intros H; exfalso; apply H; reflexivity|].
    apply negb_true_iff in Hblank. unfold nonempty in Hblank.
    apply negb_false_iff, String.eqb_eq in Hblank. subst. discriminate. }
  set (s := Text.strip address_string).
  assert (Hgroups : forall g1 g2 g3 g4 : string,
            let r := <["zip" := Some g4]>
                       (<["state" := Some g3]>
                          (<["city" := Some g2]>
                             (<["street" := Some g1]> Utils.empty_address))) in
            (dict_get r "city" <> None ->
             dict_get r "street" <> None /\ dict_get r "state" <> None) /\
            (dict_get r "state" <> None -> dict_get r "zip" <> None)).
  { intros. split; intros _; [split|]; vm_compute; discriminate. }
  destruct (match_pattern1 re s) as [[[[g1 g2] g3] g4]|].
  { destruct (Hgroups (Text.strip g1) (Text.strip g2) (Text.strip g3) (Text.strip g4))
      as [H1 H2].
    split; [exact H1|]. split; [exact H2 | discriminate]. }
  destruct (match_pattern2 re s) as [[[[g1 g2] g3] g4]|].
  { destruct (Hgroups (Text.strip g1) (Text.strip g2) (Text.strip g3) (Text.strip g4))
      as [H1 H2].
    split; [exact H1|]. split; [exact H2 | discriminate]. }
  match goal with
  | |- context [if negb (any_values ?r) then _ else _] => set (found := r)
  end.
  assert (Hfound :
            (dict_get found "city" <> None ->
             dict_get found "street" <> None /\ dict_get found "state" <> None) /\
            (dict_get found "state" <> None -> dict_get found "zip" <> None)).
  { subst found. destruct (search_zip re s) as [[zip zstart]|];
      [|split; intros H; exfalso; apply H; reflexivity].
    destruct (search_state re _) as [[state sstart]|];
      [|split; intros H; [exfalso; apply H; reflexivity | vm_compute; discriminate]].
    destruct (map Text.strip (Utils.split_comma _)) as [|p0 [|p1 rest]];
      split; intros H; try split; try (vm_compute; discriminate);
      exfalso; apply H; reflexivity. }
  destruct (negb (any_values found)) eqn:Hany.
  - destruct Hfound as [H1 H2].
    assert (Hkeep : forall k, k <> "street" ->
              dict_get (<["street" := Some s]> found) k = dict_get found k).
    { intros k Hk. apply dict_get_insert_other. congruence. }
    split; [|split].
    + rewrite (Hkeep "city"), (Hkeep "state") by discriminate.
      intros H. destruct (H1 H) as [_ Hstate]. split; [|exact Hstate].
      rewrite dict_get_insert_same. discriminate.
    + rewrite (Hkeep "state"), (Hkeep "zip") by discriminate. exact H2.
    + intros Hs _ _. apply (any_values_intro _ "street" s).
      * apply lookup_insert_eq.
      * apply nonempty_true. exact Hs.
  - destruct Hfound as [H1 H2]. split; [exact H1|]. split; [exact H2|].
    intros _ _ _. apply negb_false_iff. exact Hany.
Qed.

(** ** Defaults of the addresses sent *)

Lemma copy_country_us (d : gmap string (option string)) out :
  dict_get d "country" = None -> LeadCreator.copy_country d out !! "country" = Some "US".
Proof.
  intros H. unfold LeadCreator.copy_country. rewrite H. simpl. apply lookup_insert_eq.
Qed.

Lemma copy_country_some (d : gmap string (option string)) out :
  is_Some (LeadCreator.copy_country d out !! "country").
Proof.
  unfold LeadCreator.copy_country. destruct (truthy (dict_get d "country"));
    rewrite lookup_insert_eq; eexists; reflexivity.
Qed.

Lemma address_keys_no_country (d : gmap string (option string)) :
  dom d = address_keys -> dict_get d "country" = None.
Proof.
  intros Hdom. unfold dict_get.
  assert (H : d !! "country" = None).
  { apply not_elem_of_dom. rewrite Hdom. unfold address_keys.
    rewrite elem_of_list_to_set. intros Hin.
    repeat (apply elem_of_cons in Hin as [Hin | Hin]; [discriminate|]).
    by apply elem_of_nil in Hin. }
  rewrite H. reflexivity.
Qed.

Section Defaults.

Context {St : Type}.
Variable cfg : Config.
Variable format_percent : Q -> string.
Variable hcp_client : Directory St.
Variable form_data : FormData.
Variable parsed_address : gmap string (option string).
Hypothesis no_country : dict_get parsed_address "country" = None.

Lemma customer_address_us :
  LeadCreator.customer_address parsed_address !! "country" = Some "US".
Proof. apply copy_country_us, no_country. Qed.

Lemma service_address_defaults :
  LeadCreator.service_address cfg parsed_address !! "type" = Some "service" /\
  LeadCreator.service_address cfg parsed_address !! "country" = Some "US" /\
  LeadCreator.service_address cfg parsed_address !! "state"
  = Some (state_or_default cfg parsed_address).
Proof.
  unfold LeadCreator.service_address. split; [|split].
  - rewrite copy_country_other by discriminate.
    rewrite copy_if_truthy_other by discriminate.
    unfold LeadCreator.set_state. rewrite lookup_insert_ne by discriminate.
    rewrite !copy_if_truthy_other by discriminate. apply lookup_insert_eq.
  - apply copy_country_us, no_country.
  - rewrite copy_country_other by discriminate.
    rewrite copy_if_truthy_other by discriminate.
    unfold LeadCreator.set_state. apply lookup_insert_eq.
Qed.

Lemma build_address_dict_defaults a :
  LeadCreator._build_address_dict cfg parsed_address = Some a ->
  a !! "country" = Some "US" /\ a !! "state" = Some (state_or_default cfg parsed_address).
Proof.
  unfold LeadCreator._build_address_dict.
  destruct (negb (dict_truthy parsed_address) || negb (any_values parsed_address));
    [discriminate|].
  destruct (dict_truthy _); [|discriminate]. intros [= <-]. split.
  - apply copy_country_us, no_country.
  - rewrite copy_country_other by discriminate.
    rewrite copy_if_truthy_other by discriminate.
    unfold LeadCreator.set_state. apply lookup_insert_eq.
Qed.

Lemma build_address_dict_from_api_country fa a :
  LeadCreator._build_address_dict_from_api fa = Some a -> is_Some (a !! "country").
Proof.
  unfold LeadCreator._build_address_dict_from_api.
  destruct (negb (dict_truthy fa)); [discriminate|].
  destruct (dict_truthy _); [|discriminate]. intros [= <-]. apply copy_country_some.
Qed.

(** The address [lead_address] returns: built from the parsed address when
    there is no address id, else from what the directory returned. *)
Lemma lead_address_defaults m customer_id new_address_id :
  run_spec (List.Forall (address_defaults cfg parsed_address))
    (fun r => forall a, r.2 = Some a ->
       is_Some (a !! "country") /\
       (truthy r.1 = false ->
        a !! "country" = Some "US" /\
        a !! "state" = Some (state_or_default cfg parsed_address)))
    (LeadCreator.lead_address cfg hcp_client m parsed_address customer_id
       new_address_id).
Proof.
  unfold LeadCreator.lead_address. destruct (should_create_new m).
  { apply run_ret; [constructor|]. intros a Ha. simpl in Ha.
    destruct (build_address_dict_defaults a Ha) as [Hc Hs].
    split; [rewrite Hc; eexists; reflexivity | intros _; split; assumption]. }
  eapply run_bind_all with (R1 := fun _ => True).
  { sends ltac:(exact I). }
  intros address_id _.
  destruct (truthy address_id && truthy customer_id) eqn:Hid.
  - eapply run_bind_all with (R1 := fun address => forall a, address = Some a ->
                                      is_Some (a !! "country")).
    + eapply run_bind_all with (R1 := fun _ => True).
      * apply run_call; [intros ans; repeat constructor | auto].
      * intros full_address _. destruct full_address as [fa|].
        -- apply run_ret; [constructor|]. intros a Ha.
           destruct (dict_truthy fa); [|discriminate].
           eapply build_address_dict_from_api_country, Ha.
        -- apply run_ret; [constructor | discriminate].
    + intros address Haddress. apply run_ret; [constructor|].
      intros a Ha. simpl in Ha. split; [apply Haddress, Ha|].
      simpl. apply andb_prop in Hid as [Hid _]. rewrite Hid. discriminate.
  - eapply run_bind_all with (R1 := fun address => address = None).
    + apply run_ret; [constructor | reflexivity].
    + intros address ->. apply run_ret; [constructor | discriminate].
Qed.

Lemma settle_customer_defaults m first_name last_name email phone sms_consent :
  run_spec (List.Forall (address_defaults cfg parsed_address)) (fun _ => True)
    (LeadCreator.settle_customer cfg format_percent hcp_client form_data m first_name
       last_name email phone parsed_address sms_consent).
Proof.
  assert (Hfile : forall customer_id new_address_id,
            run_spec (List.Forall (address_defaults cfg parsed_address)) (fun _ => True)
              (LeadCreator.file_lead cfg format_percent hcp_client form_data m
                 parsed_address customer_id new_address_id)).
  { intros customer_id new_address_id. unfold LeadCreator.file_lead.
    eapply run_bind_all; [apply lead_address_defaults|].
    intros [address_id address] Haddress. cbn [fst snd] in Haddress.
    eapply run_bind_all with (R1 := fun _ => True).
    - unfold LeadCreator._create_lead_with_job_type.
      eapply run_bind_all with (R1 := fun _ => True).
      + apply run_call; [|auto]. intros ans. constructor; [|constructor].
        unfold address_defaults. cbn [fst LeadCreator.lead_payload lp_address
          lp_address_id].
        intros a Ha. destruct address as [a'|]; [|discriminate Ha].
        revert Ha. destruct (dict_truthy a'); [|intros Ha; discriminate Ha].
        intros [= ->].
        destruct (Haddress a eq_refl) as [Hc Hnew]. split; [exact Hc|].
        intros Hnone. apply Hnew.
        destruct (truthy address_id) eqn:Hid; [|reflexivity].
        rewrite Hnone in Hid. discriminate Hid.
      + intros result _. apply run_ret; [constructor | exact I].
    - intros lead_id _. destruct (negb (truthy lead_id)); apply run_ret; auto. }
  unfold LeadCreator.settle_customer. destruct (should_create_new m).
  - eapply run_bind_all with (R1 := fun _ => True).
    + unfold LeadCreator._create_customer.
      eapply run_bind_all with (R1 := fun _ => True).
      * apply run_call; [|auto]. intros ans. constructor; [|constructor].
        unfold address_defaults. cbn [fst LeadCreator.customer_payload cp_addresses].
        destruct (dict_truthy parsed_address && any_values parsed_address);
          [|intros a []].
        intros a [<- | []]. apply customer_address_us.
      * intros result _. apply run_ret; [constructor | exact I].
    + intros customer_id _. destruct (negb (truthy customer_id));
        [apply run_ret; auto | apply Hfile].
  - eapply run_bind_all with (R1 := fun _ => True); [|intros ? _; apply Hfile].
    unfold LeadCreator.add_address_if_new, LeadCreator._add_address_to_customer.
    sends ltac:(apply service_address_defaults).
Qed.

End Defaults.

(** X28. Whatever the form holds, an address the workflow
    builds from it carries the country [US] and, where the code sets a state,
    the state of the form or else the configured default: so for the address
    added to a matched customer (a service address) and for the address of a
    lead without address id; the address of a created customer carries the
    country [US]; and every address of a lead carries a country. *)
Theorem create_lead_address_defaults {St} cfg re format_percent
    (hcp_client : Directory St) form_data st :
  List.Forall (address_defaults cfg (LeadCreator.parsed_address_of cfg re form_data))
    (LeadCreator.create_lead cfg re format_percent hcp_client form_data st).2.2.
Proof.
  apply (run_trace cfg re format_percent hcp_client form_data
           (List.Forall
              (address_defaults cfg (LeadCreator.parsed_address_of cfg re form_data)))
           (fun _ => True)).
  rewrite create_lead_body_phases.
  eapply run_bind_all with (R1 := fun _ => True).
  - intros s.
    destruct (find_matching_customer_searches hcp_client (submitted_phone cfg form_data)
                (Some (submitted_email form_data)) (Some (submitted_names form_data).2)
                (Some (LeadCreator.parsed_address_of cfg re form_data))
                (says_existing form_data) s) as (evs & Ht & Hs).
    exists evs. split; [exact Ht|]. split; [|auto].
    eapply List.Forall_impl; [|exact Hs].
    intros [[] ?] H; try discriminate H; exact I.
  - intros m _. apply settle_customer_defaults.
    apply address_keys_no_country, parsed_address_keys.
Qed.

